(** * jellyfin-collection: the collection builder and the media matcher

    A shallow embedding of [jfc/services/collection_builder.py] (the
    [CollectionBuilder] class: [_fetch_items], [_apply_filters],
    [_sort_items_for_collection], [sync_collection]) together with the
    title normaliser and match predicate of the media matcher, and the
    properties the specification states about them.

    Conventions.
    - Python [Optional[T]] is [option T]; the truthiness test [if x:] is
      written out ([None], [0], [0.0], the empty string, the empty list and
      the empty dict are false).
    - Python [str] is [string], the text in UTF-8: two texts are equal,
      ordered, or one a prefix of the other as their encodings are.  What
      [str.lower()] and [str.capitalize()] answer on a text that is not
      ASCII is read from the interpreter's Unicode tables, which are a
      parameter ([Unicode]) of everything that calls them.
    - [int] is [Z]; [float] is [Q] (finite floats are rationals, and the
      code only negates and compares them); [set] is stdpp's [gset], and
      [list(s)] lists a set in an order the interpreter chooses;
      [date] is its proleptic ordinal.
    - An [await]ed collaborator call that may raise returns a [result].
      The Jellyfin server of this embedding answers every request, so a
      run of [sync_collection] fails here only where the sort or a TMDb
      look-up does; of a run cut short by a failing Jellyfin request the
      embedding says nothing. *)

From Stdlib Require Import ZArith QArith Lqa String Ascii List Bool Lia DecimalString.
From Stdlib Require Import Sorting.Sorted Sorting.Permutation.
From Stdlib Require OrderedTypeEx.
From stdpp Require Import base decidable option list sorting gmap strings.

Open Scope string_scope.
Open Scope list_scope.
Open Scope Z_scope.

(** ** Python values *)

Module Py.

(** An exception raised by a collaborator or by the interpreter. *)
Inductive exn : Type :=
| HTTPStatusError (msg : string)
| ValueError (msg : string)
| OverflowError (msg : string)
| AttributeError (msg : string).

Inductive result (A : Type) : Type :=
| Ok (a : A)
| Raise (e : exn).
Arguments Ok {A} a.
Arguments Raise {A} e.

Definition bind {A B} (m : result A) (k : A -> result B) : result B :=
  match m with
  | Ok a => k a
  | Raise e => Raise e
  end.

Definition is_ok {A} (m : result A) : bool :=
  match m with Ok _ => true | Raise _ => false end.

(** Truthiness of [Optional[int]], [Optional[float]], [Optional[str]],
    lists. *)
Definition truthy_int (x : option Z) : bool :=
  match x with Some n => negb (n =? 0) | None => false end.

Definition truthy_float (x : option Q) : bool :=
  match x with Some q => negb (Qeq_bool q 0) | None => false end.

Definition truthy_str (x : option string) : bool :=
  match x with Some s => negb (String.eqb s "") | None => false end.

Definition truthy_list {A} (l : list A) : bool :=
  match l with [] => false | _ :: _ => true end.

(** [x or y] on optional strings where [y] is a string. *)
Definition or_str (x : option string) (y : string) : string :=
  match x with
  | Some s => if String.eqb s "" then y else s
  | None => y
  end.

(** [l[:n]]: a negative bound counts from the end. *)
Definition slice_to {A} (l : list A) (n : Z) : list A :=
  if 0 <=? n then firstn (Z.to_nat n) l
  else firstn (length l - Z.to_nat (- n))%nat l.

(** [c.lower()] and [c.upper()] on an ASCII character; other bytes are
    left alone. *)
Definition lower_ascii (c : ascii) : ascii :=
  let n := nat_of_ascii c in
  if ((65 <=? n) && (n <=? 90))%nat then ascii_of_nat (n + 32) else c.

Definition upper_ascii (c : ascii) : ascii :=
  let n := nat_of_ascii c in
  if ((97 <=? n) && (n <=? 122))%nat then ascii_of_nat (n - 32) else c.

(** [str(n)] for an int: its decimal digits after the sign. *)
Definition str_int (n : Z) : string := NilZero.string_of_int (Z.to_int n).

(** [s.isascii()] *)
Fixpoint isascii (s : string) : bool :=
  match s with
  | EmptyString => true
  | String c r => (nat_of_ascii c <? 128)%nat && isascii r
  end.

(** Lower-casing character by character, which is [s.lower()] on an
    ASCII text. *)
Fixpoint lower_chars (s : string) : string :=
  match s with
  | EmptyString => EmptyString
  | String c r => String (lower_ascii c) (lower_chars r)
  end.

(** The interpreter's Unicode tables: what [s.lower()] and
    [s.capitalize()] answer on a text that is not ASCII. *)
Class Unicode : Type := {
  lower_unicode : string -> string;
  capitalize_unicode : string -> string
}.

(** [s.lower()] *)
Definition lower `{Unicode} (s : string) : string :=
  if isascii s then lower_chars s else lower_unicode s.

(** [s.capitalize()] *)
Definition capitalize `{Unicode} (s : string) : string :=
  if isascii s then
    match s with
    | EmptyString => EmptyString
    | String c r => String (upper_ascii c) (lower_chars r)
    end
  else capitalize_unicode s.

(** [list(s)] for a set [s]: its elements, each once, in the order the
    interpreter iterates over the set.  [order] is that listing; an
    answer that is no listing of [s] stands for the sorted one. *)
Definition list_of_set (order : gset string -> list string) (s : gset string)
  : list string :=
  let l := order s in
  if bool_decide (list_to_set l = s) && (length l =? size s)%nat then l else elements s.

End Py.
Export Py.

#[global] Instance result_ret : MRet result := fun A a => Ok a.
#[global] Instance result_bind : MBind result := fun A B k m => Py.bind m k.

(** ** Data model ([jfc.models.media], [jfc.models.collection]) *)

Inductive MediaType : Type := MOVIE | SERIES | EPISODE | SEASON.

Definition MediaType_eqb (a b : MediaType) : bool :=
  match a, b with
  | MOVIE, MOVIE | SERIES, SERIES | EPISODE, EPISODE | SEASON, SEASON => true
  | _, _ => false
  end.

(** [MediaType.value] *)
Definition MediaType_value (m : MediaType) : string :=
  match m with
  | MOVIE => "movie" | SERIES => "series"
  | EPISODE => "episode" | SEASON => "season"
  end.

(** An entry of [item.genres]: a list of ints or of strings. *)
Inductive Genre : Type := GInt (n : Z) | GStr (s : string).

Module MediaItem.
Record t : Type := mk {
  title : string;
  year : option Z;
  media_type : MediaType;
  tmdb_id : option Z;
  imdb_id : option string;
  tvdb_id : option Z;
  genres : list Genre;
  vote_average : option Q;
  vote_count : option Z;
  original_language : option string;
  original_country : option string
}.
End MediaItem.

(** A value of a [dict[str, Any]] taken from the YAML configuration. *)
Inductive Any : Type :=
| AInt (n : Z)
| AFloat (q : Q)
| AStr (s : string).

Definition dict : Type := list (string * Any).

Fixpoint dict_get (d : dict) (k : string) : option Any :=
  match d with
  | [] => None
  | (k', v) :: r => if String.eqb k' k then Some v else dict_get r k
  end.

Definition dict_get_default (d : dict) (k : string) (dflt : Any) : Any :=
  match dict_get d k with Some v => v | None => dflt end.

Definition truthy_dict (d : option dict) : bool :=
  match d with Some (_ :: _) => true | _ => false end.

(** ** Provider clients

    [jfc.clients.trakt.TraktClient] is part of the sources: every chart
    method performs one GET and calls [response.raise_for_status()], so a
    call either returns the parsed items or raises.  The TMDb client has
    the same shape as seen from the builder.  A client is therefore the
    table of what each of its methods answers during one cycle. *)

Module TMDbClient.
Record t : Type := mk {
  get_trending_movies : string -> Z -> result (list MediaItem.t);
  get_trending_series : string -> Z -> result (list MediaItem.t);
  get_popular_movies : Z -> result (list MediaItem.t);
  get_popular_series : Z -> result (list MediaItem.t);
  (** keyword arguments, in the order the builder passes them *)
  discover_movies : list (string * option Any) -> result (list MediaItem.t);
  discover_series : list (string * option Any) -> result (list MediaItem.t);
  (** [None] on no details; otherwise the details' [tvdb_id] *)
  get_series_details : Z -> result (option (option Z))
}.
End TMDbClient.

Module TraktClient.
Record t : Type := mk {
  get_trending_movies : Any -> result (list MediaItem.t);
  get_trending_series : Any -> result (list MediaItem.t);
  get_popular_movies : Any -> result (list MediaItem.t);
  get_popular_series : Any -> result (list MediaItem.t);
  get_watched_movies : Any -> Any -> result (list MediaItem.t);
  get_watched_series : Any -> Any -> result (list MediaItem.t)
}.
End TraktClient.

(** ** Collection configuration *)

Inductive CollectionOrder : Type :=
| CUSTOM | SORT_NAME | PREMIERE_DATE | COMMUNITY_RATING | CRITIC_RATING
| DATE_CREATED | RANDOM.

Definition CollectionOrder_eqb (a b : CollectionOrder) : bool :=
  match a, b with
  | CUSTOM, CUSTOM | SORT_NAME, SORT_NAME | PREMIERE_DATE, PREMIERE_DATE
  | COMMUNITY_RATING, COMMUNITY_RATING | CRITIC_RATING, CRITIC_RATING
  | DATE_CREATED, DATE_CREATED | RANDOM, RANDOM => true
  | _, _ => false
  end.

Module CollectionFilter.
Record t : Type := mk {
  year_gte : option Z;
  year_lte : option Z;
  vote_average_gte : option Q;
  critic_rating_gte : option Q;
  tmdb_vote_count_gte : option Z;
  country_not : list string;
  origin_country_not : list string;
  original_language_not : list string;
  with_genres : list Z;
  without_genres : list Z
}.

(** [CollectionFilter()]: no constraint. *)
Definition default : t :=
  mk None None None None None [] [] [] [] [].
End CollectionFilter.

Module CollectionConfig.
Record t : Type := mk {
  name : string;
  schedule : string;            (* [schedule.schedule_type.value] *)
  summary : option string;
  sort_title : option string;
  poster : option string;
  collection_order : CollectionOrder;
  filters : CollectionFilter.t;
  limit : option Z;
  tmdb_trending_weekly : option Z;
  tmdb_trending_daily : option Z;
  tmdb_popular : option Z;
  tmdb_discover : option dict;
  trakt_trending : option Z;
  trakt_popular : option Z;
  trakt_chart : option dict;
  plex_search : option dict;
  item_sonarr_tag : option string;
  sonarr_tag : option string;
  sonarr_root_folder : option string;
  sonarr_quality_profile : option string;
  item_radarr_tag : option string;
  radarr_tag : option string;
  radarr_root_folder : option string;
  radarr_quality_profile : option string
}.
End CollectionConfig.

(** ** [CollectionBuilder._fetch_items] *)

Module Fetch.
Import CollectionConfig.

Section WithClients.
Variable tmdb : TMDbClient.t.
Variable trakt : option TraktClient.t.

Definition int_or (x : option Z) : Z := match x with Some n => n | None => 0 end.
Definition dict_or (d : option dict) : dict := match d with Some d => d | None => [] end.

Definition _fetch_tmdb_discover (discover : dict) (media_type : MediaType)
  : result (list MediaItem.t) :=
  let limit := dict_get_default discover "limit" (AInt 20) in
  if MediaType_eqb media_type MOVIE then
    TMDbClient.discover_movies tmdb
      [ ("sort_by", Some (dict_get_default discover "sort_by" (AStr "popularity.desc")));
        ("with_genres", dict_get discover "with_genres");
        ("without_genres", dict_get discover "without_genres");
        ("vote_average_gte", dict_get discover "vote_average.gte");
        ("vote_average_lte", dict_get discover "vote_average.lte");
        ("vote_count_gte", dict_get discover "vote_count.gte");
        ("vote_count_lte", dict_get discover "vote_count.lte");
        ("primary_release_date_gte", dict_get discover "primary_release_date.gte");
        ("primary_release_date_lte", dict_get discover "primary_release_date.lte");
        ("with_watch_providers", dict_get discover "with_watch_providers");
        ("watch_region", dict_get discover "watch_region");
        ("with_original_language", dict_get discover "with_original_language");
        ("with_release_type", dict_get discover "with_release_type");
        ("region", dict_get discover "region");
        ("limit", Some limit) ]
  else
    TMDbClient.discover_series tmdb
      [ ("sort_by", Some (dict_get_default discover "sort_by" (AStr "popularity.desc")));
        ("with_genres", dict_get discover "with_genres");
        ("without_genres", dict_get discover "without_genres");
        ("vote_average_gte", dict_get discover "vote_average.gte");
        ("vote_count_gte", dict_get discover "vote_count.gte");
        ("vote_count_lte", dict_get discover "vote_count.lte");
        ("first_air_date_gte", dict_get discover "first_air_date.gte");
        ("first_air_date_lte", dict_get discover "first_air_date.lte");
        ("with_watch_providers", dict_get discover "with_watch_providers");
        ("watch_region", dict_get discover "watch_region");
        ("with_status", dict_get discover "with_status");
        ("limit", Some limit) ].

Definition Any_is_str (a : Any) (s : string) : bool :=
  match a with AStr s' => String.eqb s' s | _ => false end.

Definition _fetch_trakt_chart (chart_config : dict) (media_type : MediaType)
  : result (list MediaItem.t) :=
  match trakt with
  | None => Ok []
  | Some tk =>
    let chart := dict_get_default chart_config "chart" (AStr "watched") in
    let period := dict_get_default chart_config "time_period" (AStr "weekly") in
    let limit := dict_get_default chart_config "limit" (AInt 20) in
    if Any_is_str chart "watched" then
      if MediaType_eqb media_type MOVIE
      then TraktClient.get_watched_movies tk period limit
      else TraktClient.get_watched_series tk period limit
    else if Any_is_str chart "trending" then
      if MediaType_eqb media_type MOVIE
      then TraktClient.get_trending_movies tk limit
      else TraktClient.get_trending_series tk limit
    else if Any_is_str chart "popular" then
      if MediaType_eqb media_type MOVIE
      then TraktClient.get_popular_movies tk limit
      else TraktClient.get_popular_series tk limit
    else Ok []
  end.

(** One pass of the deduplication loop: [seen_ids] and [unique_items]
    after looking at [item]. *)
Definition dedup_step (st : gset Z * list MediaItem.t) (item : MediaItem.t)
  : gset Z * list MediaItem.t :=
  let '(seen_ids, unique_items) := st in
  match MediaItem.tmdb_id item with
  | Some i =>
    if negb (i =? 0) && bool_decide (i ∉ seen_ids)
    then ({[ i ]} ∪ seen_ids, unique_items ++ [item])
    else st
  | None => st
  end.

Definition deduplicate (items : list MediaItem.t) : list MediaItem.t :=
  snd (fold_left dedup_step items (∅, [])).

(** [items.extend(await call)] when [cond] holds. *)
Definition extend_if (cond : bool) (call : result (list MediaItem.t))
    (items : list MediaItem.t) : result (list MediaItem.t) :=
  if cond then (more ← call; mret (items ++ more)) else mret items.

Definition _fetch_items (config : CollectionConfig.t) (media_type : MediaType)
  : result (list MediaItem.t) :=
  let movie := MediaType_eqb media_type MOVIE in
  let items := [] in
  (* TMDb Trending *)
  items ← extend_if (truthy_int (tmdb_trending_weekly config))
    (if movie
     then TMDbClient.get_trending_movies tmdb "week" (int_or (tmdb_trending_weekly config))
     else TMDbClient.get_trending_series tmdb "week" (int_or (tmdb_trending_weekly config)))
    items;
  items ← extend_if (truthy_int (tmdb_trending_daily config))
    (if movie
     then TMDbClient.get_trending_movies tmdb "day" (int_or (tmdb_trending_daily config))
     else TMDbClient.get_trending_series tmdb "day" (int_or (tmdb_trending_daily config)))
    items;
  (* TMDb Popular *)
  items ← extend_if (truthy_int (tmdb_popular config))
    (if movie
     then TMDbClient.get_popular_movies tmdb (int_or (tmdb_popular config))
     else TMDbClient.get_popular_series tmdb (int_or (tmdb_popular config)))
    items;
  (* TMDb Discover *)
  items ← extend_if (truthy_dict (tmdb_discover config))
    (_fetch_tmdb_discover (dict_or (tmdb_discover config)) media_type)
    items;
  (* Trakt *)
  items ←
    match trakt with
    | Some tk =>
      items ← extend_if (truthy_int (trakt_trending config))
        (if movie
         then TraktClient.get_trending_movies tk (AInt (int_or (trakt_trending config)))
         else TraktClient.get_trending_series tk (AInt (int_or (trakt_trending config))))
        items;
      items ← extend_if (truthy_int (trakt_popular config))
        (if movie
         then TraktClient.get_popular_movies tk (AInt (int_or (trakt_popular config)))
         else TraktClient.get_popular_series tk (AInt (int_or (trakt_popular config))))
        items;
      extend_if (truthy_dict (trakt_chart config))
        (_fetch_trakt_chart (dict_or (trakt_chart config)) media_type)
        items
    | None => mret items
    end;
  (* Deduplicate by TMDb ID *)
  mret (deduplicate items).

(** The provider calls [_fetch_items] makes for a configuration, in the
    order it makes them, each with what the provider answers. *)
Definition call_if (cond : bool) (call : result (list MediaItem.t))
  : list (result (list MediaItem.t)) :=
  if cond then [call] else [].

Definition provider_calls (config : CollectionConfig.t) (media_type : MediaType)
  : list (result (list MediaItem.t)) :=
  let movie := MediaType_eqb media_type MOVIE in
  call_if (truthy_int (tmdb_trending_weekly config))
    (if movie
     then TMDbClient.get_trending_movies tmdb "week" (int_or (tmdb_trending_weekly config))
     else TMDbClient.get_trending_series tmdb "week" (int_or (tmdb_trending_weekly config)))
  ++ call_if (truthy_int (tmdb_trending_daily config))
    (if movie
     then TMDbClient.get_trending_movies tmdb "day" (int_or (tmdb_trending_daily config))
     else TMDbClient.get_trending_series tmdb "day" (int_or (tmdb_trending_daily config)))
  ++ call_if (truthy_int (tmdb_popular config))
    (if movie
     then TMDbClient.get_popular_movies tmdb (int_or (tmdb_popular config))
     else TMDbClient.get_popular_series tmdb (int_or (tmdb_popular config)))
  ++ call_if (truthy_dict (tmdb_discover config))
    (_fetch_tmdb_discover (dict_or (tmdb_discover config)) media_type)
  ++ match trakt with
     | Some tk =>
       call_if (truthy_int (trakt_trending config))
         (if movie
          then TraktClient.get_trending_movies tk (AInt (int_or (trakt_trending config)))
          else TraktClient.get_trending_series tk (AInt (int_or (trakt_trending config))))
       ++ call_if (truthy_int (trakt_popular config))
         (if movie
          then TraktClient.get_popular_movies tk (AInt (int_or (trakt_popular config)))
          else TraktClient.get_popular_series tk (AInt (int_or (trakt_popular config))))
       ++ call_if (truthy_dict (trakt_chart config))
         (_fetch_trakt_chart (dict_or (trakt_chart config)) media_type)
     | None => []
     end.

End WithClients.

(** The concatenation of the answers, or the first error among them. *)
Fixpoint gather (calls : list (result (list MediaItem.t))) : result (list MediaItem.t) :=
  match calls with
  | [] => Ok []
  | call :: rest => items ← call; more ← gather rest; mret (items ++ more)
  end.

Definition has_primary_id (item : MediaItem.t) : bool :=
  truthy_int (MediaItem.tmdb_id item).

(** The deduplication loop read from the left: what is kept of [l] once
    the identifiers in [seen] have been met. *)
Fixpoint kept (seen : gset Z) (l : list MediaItem.t) : list MediaItem.t :=
  match l with
  | [] => []
  | item :: r =>
    match MediaItem.tmdb_id item with
    | Some i =>
      if negb (i =? 0) && bool_decide (i ∉ seen)
      then item :: kept ({[ i ]} ∪ seen) r
      else kept seen r
    | None => kept seen r
    end
  end.

(** [items.extend] over a series of calls. *)
Definition extend_all (calls : list (result (list MediaItem.t)))
    (items : list MediaItem.t) : result (list MediaItem.t) :=
  more ← gather calls; mret (items ++ more).

End Fetch.

(** ** [CollectionBuilder._apply_filters] *)

Module Filters.
Import CollectionFilter.

(** [str(g).isdigit()] and [int(g)] for a genre given as a string (ASCII
    digits). *)
Definition is_digit (c : ascii) : bool :=
  let n := nat_of_ascii c in ((48 <=? n) && (n <=? 57))%nat.

Fixpoint all_digits (s : string) : bool :=
  match s with
  | EmptyString => true
  | String c r => is_digit c && all_digits r
  end.

Definition isdigit (s : string) : bool :=
  match s with EmptyString => false | _ => all_digits s end.

Fixpoint int_of_digits (acc : Z) (s : string) : Z :=
  match s with
  | EmptyString => acc
  | String c r => int_of_digits (10 * acc + (Z.of_nat (nat_of_ascii c) - 48)) r
  end.

(** [g if isinstance(g, int) else int(g) if str(g).isdigit() else 0],
    for genre strings written in ASCII (TMDb numbers and Trakt names):
    [isdigit] and [int] are those of ASCII digits. *)
Definition genre_id (g : Genre) : Z :=
  match g with
  | GInt n => n
  | GStr s => if isdigit s then int_of_digits 0 s else 0
  end.

Definition in_ints (x : Z) (l : list Z) : bool := existsb (Z.eqb x) l.
Definition in_strs (x : string) (l : list string) : bool := existsb (String.eqb x) l.

Definition Qltb (a b : Q) : bool := negb (Qle_bool b a).

Definition unwrap_int (x : option Z) : Z := match x with Some n => n | None => 0 end.
Definition unwrap_float (x : option Q) : Q := match x with Some q => q | None => 0%Q end.
Definition unwrap_str (x : option string) : string := match x with Some s => s | None => "" end.

(** The body of the loop: [true] when the item reaches
    [filtered.append(item)], [false] when some test hits [continue]. *)
Definition keeps (filters : CollectionFilter.t) (item : MediaItem.t) : bool :=
  (* Year filters *)
  if truthy_int (year_gte filters) && truthy_int (MediaItem.year item)
     && (unwrap_int (MediaItem.year item) <? unwrap_int (year_gte filters))
  then false
  else if truthy_int (year_lte filters) && truthy_int (MediaItem.year item)
     && (unwrap_int (year_lte filters) <? unwrap_int (MediaItem.year item))
  then false
  (* Rating filters *)
  else if truthy_float (vote_average_gte filters) && truthy_float (MediaItem.vote_average item)
     && Qltb (unwrap_float (MediaItem.vote_average item)) (unwrap_float (vote_average_gte filters))
  then false
  else if truthy_float (critic_rating_gte filters) && truthy_float (MediaItem.vote_average item)
     && Qltb (unwrap_float (MediaItem.vote_average item)) (unwrap_float (critic_rating_gte filters))
  then false
  (* Vote count filters *)
  else if truthy_int (tmdb_vote_count_gte filters) && truthy_int (MediaItem.vote_count item)
     && (unwrap_int (MediaItem.vote_count item) <? unwrap_int (tmdb_vote_count_gte filters))
  then false
  (* Country filters *)
  else if truthy_list (country_not filters) && truthy_str (MediaItem.original_country item)
     && in_strs (unwrap_str (MediaItem.original_country item)) (country_not filters)
  then false
  else if truthy_list (origin_country_not filters) && truthy_str (MediaItem.original_country item)
     && in_strs (unwrap_str (MediaItem.original_country item)) (origin_country_not filters)
  then false
  (* Language filter *)
  else if truthy_list (original_language_not filters)
     && truthy_str (MediaItem.original_language item)
     && in_strs (unwrap_str (MediaItem.original_language item)) (original_language_not filters)
  then false
  (* Genre filters *)
  else if truthy_list (without_genres filters) && truthy_list (MediaItem.genres item)
     && (let item_genre_ids := map genre_id (MediaItem.genres item) in
         existsb (fun g => in_ints g item_genre_ids) (without_genres filters))
  then false
  else if truthy_list (with_genres filters) && truthy_list (MediaItem.genres item)
     && (let item_genre_ids := map genre_id (MediaItem.genres item) in
         negb (existsb (fun g => in_ints g item_genre_ids) (with_genres filters)))
  then false
  else true.

Definition _apply_filters (items : list MediaItem.t) (config : CollectionConfig.t)
  : list MediaItem.t :=
  let filters := CollectionConfig.filters config in
  let filtered := List.filter (keeps filters) items in
  (* Apply limit *)
  if truthy_int (CollectionConfig.limit config)
  then slice_to filtered (unwrap_int (CollectionConfig.limit config))
  else filtered.

(** The same filter with the tests on one attribute switched off. *)
Definition without_year_filters (f : t) : t :=
  mk None None (vote_average_gte f) (critic_rating_gte f) (tmdb_vote_count_gte f)
     (country_not f) (origin_country_not f) (original_language_not f)
     (with_genres f) (without_genres f).

Definition without_rating_filters (f : t) : t :=
  mk (year_gte f) (year_lte f) None None (tmdb_vote_count_gte f)
     (country_not f) (origin_country_not f) (original_language_not f)
     (with_genres f) (without_genres f).

Definition without_vote_count_filter (f : t) : t :=
  mk (year_gte f) (year_lte f) (vote_average_gte f) (critic_rating_gte f) None
     (country_not f) (origin_country_not f) (original_language_not f)
     (with_genres f) (without_genres f).

Definition without_country_filters (f : t) : t :=
  mk (year_gte f) (year_lte f) (vote_average_gte f) (critic_rating_gte f)
     (tmdb_vote_count_gte f) [] [] (original_language_not f)
     (with_genres f) (without_genres f).

Definition without_language_filter (f : t) : t :=
  mk (year_gte f) (year_lte f) (vote_average_gte f) (critic_rating_gte f)
     (tmdb_vote_count_gte f) (country_not f) (origin_country_not f) []
     (with_genres f) (without_genres f).

Definition without_genre_filters (f : t) : t :=
  mk (year_gte f) (year_lte f) (vote_average_gte f) (critic_rating_gte f)
     (tmdb_vote_count_gte f) (country_not f) (origin_country_not f)
     (original_language_not f) [] [].

End Filters.

(** ** Collection items and [_sort_items_for_collection] *)

(** [datetime.date], as its proleptic Gregorian ordinal ([toordinal()]):
    dates compare as their ordinals do. *)
Module date.
Definition t : Type := Z.
Definition min : t := 1.

Definition days_before_year (y : Z) : Z :=
  let y := y - 1 in y * 365 + y / 4 - y / 100 + y / 400.

(** The year of a [date] is read into a C [int]. *)
Definition fits_c_int (n : Z) : bool := (- 2 ^ 31 <=? n) && (n <? 2 ^ 31).
Definition fits_c_long (n : Z) : bool := (- 2 ^ 63 <=? n) && (n <? 2 ^ 63).

(** [date(year, 1, 1)]; outside [MINYEAR..MAXYEAR] the [ValueError]
    whose message names the year, and for a year that does not fit a C
    [int] an [OverflowError] (messages as CPython 3.11 words them). *)
Definition of_year (y : Z) : result t :=
  if negb (fits_c_int y) then
    Raise (OverflowError
             (if negb (fits_c_long y) then "Python int too large to convert to C long"
              else if 0 <? y then "signed integer is greater than maximum"
              else "signed integer is less than minimum"))
  else if (1 <=? y) && (y <=? 9999) then Ok (days_before_year y + 1)
  else Raise (ValueError (String.append "year "
                            (String.append (str_int y) " is out of range"))).
End date.

Module CollectionItem.
Record t : Type := mk {
  title : string;
  year : option Z;
  tmdb_id : option Z;
  imdb_id : option string;
  tvdb_id : option Z;
  jellyfin_id : option string;
  media_type : string;
  matched : bool;
  in_library : bool;
  sort_name : option string;
  premiere_date : option date.t;
  community_rating : option Q;
  critic_rating : option Q;
  date_created : option date.t
}.
End CollectionItem.

(** Python's [<] and [==] on the key types the builder sorts by. *)
Class PyOrd (K : Type) : Type := {
  py_lt : K -> K -> bool;
  py_eq : K -> K -> bool
}.

#[global] Instance PyOrd_str : PyOrd string :=
  {| py_lt := String.ltb; py_eq := String.eqb |}.
#[global] Instance PyOrd_int : PyOrd Z :=
  {| py_lt := Z.ltb; py_eq := Z.eqb |}.
#[global] Instance PyOrd_float : PyOrd Q :=
  {| py_lt := Filters.Qltb; py_eq := Qeq_bool |}.
(** Tuples compare lexicographically: the first differing component
    decides. *)
#[global] Instance PyOrd_tuple {K1 K2} `{PyOrd K1} `{PyOrd K2} : PyOrd (K1 * K2) :=
  {| py_lt a b := if py_eq (fst a) (fst b) then py_lt (snd a) (snd b)
                  else py_lt (fst a) (fst b);
     py_eq a b := py_eq (fst a) (fst b) && py_eq (snd a) (snd b) |}.

Module Sort.

Section Sorted.
Context {K A : Type} `{PyOrd K}.

(** [sorted()] is a stable sort that compares keys with [<] only;
    insertion from the right, each element placed before the first one
    that is not smaller, is such a sort. *)
Fixpoint insert (x : K * A) (l : list (K * A)) : list (K * A) :=
  match l with
  | [] => [x]
  | y :: r => if py_lt (fst y) (fst x) then y :: insert x r else x :: y :: r
  end.

Fixpoint isort (l : list (K * A)) : list (K * A) :=
  match l with
  | [] => []
  | x :: r => insert x (isort r)
  end.

(** The keys are computed first, once per element and in order; the
    first key that raises aborts the sort. *)
Fixpoint decorate (key : A -> result K) (l : list A) : result (list (K * A)) :=
  match l with
  | [] => Ok []
  | x :: r => k ← key x; d ← decorate key r; mret ((k, x) :: d)
  end.

(** [sorted(items, key=key, reverse=reverse)]: with [reverse] the list
    is reversed before and after sorting, which keeps the sort stable. *)
Definition py_sorted (key : A -> result K) (reverse : bool) (items : list A)
  : result (list A) :=
  d ← decorate key items;
  mret (map snd (if reverse then rev (isort (rev d)) else isort d)).

End Sorted.

(** The same sort on the items themselves, for a key function that
    does not raise. *)
Section SortedBy.
Context {K A : Type} `{PyOrd K} (k : A -> K).

Fixpoint insert_by (x : A) (l : list A) : list A :=
  match l with
  | [] => [x]
  | y :: r => if py_lt (k y) (k x) then y :: insert_by x r else x :: y :: r
  end.

Fixpoint isort_by (l : list A) : list A :=
  match l with
  | [] => []
  | x :: r => insert_by x (isort_by r)
  end.

Definition sorted_by (reverse : bool) (l : list A) : list A :=
  if reverse then rev (isort_by (rev l)) else isort_by l.

(** [x] may stand before [y] in ascending order: [y] is not smaller. *)
Definition key_le (x y : A) : Prop := py_lt (k y) (k x) = false.

(** [x] and [y] have equal keys: neither is smaller. *)
Definition key_tie (x y : A) : bool :=
  negb (py_lt (k x) (k y)) && negb (py_lt (k y) (k x)).

End SortedBy.

(** What the sort relies on: [<] is a strict weak order and [==] is
    its incomparability. *)
Class LawfulOrd (K : Type) `{PyOrd K} : Prop := {
  lt_asym : forall a b : K, py_lt a b = true -> py_lt b a = false;
  lt_negtrans : forall a b c : K,
    py_lt b a = false -> py_lt c b = false -> py_lt c a = false;
  eq_tie : forall a b : K, py_eq a b = negb (py_lt a b) && negb (py_lt b a)
}.

(** [random.shuffle]: Fisher-Yates from the last index down, the [k]-th
    draw being [randbelow(i + 1)]. *)
Definition swap {A} (l : list A) (i j : nat) : list A :=
  match l !! i, l !! j with
  | Some a, Some b => <[ i := b ]> (<[ j := a ]> l)
  | _, _ => l
  end.

Fixpoint shuffle_from {A} (draws : list nat) (i : nat) (x : list A) : list A :=
  match i with
  | O => x
  | S i' =>
    let j := (hd O draws mod (i + 1))%nat in
    shuffle_from (tl draws) i' (swap x i j)
  end.

Definition shuffle {A} (draws : list nat) (x : list A) : list A :=
  shuffle_from draws (length x - 1)%nat x.

Import CollectionItem.

Definition sort_key_name `{Unicode} (x : CollectionItem.t) : result string :=
  Ok (lower (or_str (sort_name x) (title x))).

Definition sort_key_premiere (x : CollectionItem.t) : result (date.t * string) :=
  d ← match premiere_date x with
      | Some d => Ok d
      | None => if truthy_int (year x) then date.of_year (Filters.unwrap_int (year x))
                else Ok date.min
      end;
  mret (d, title x).

Definition float_or_0 (x : option Q) : Q :=
  if truthy_float x then Filters.unwrap_float x else 0%Q.

Definition sort_key_rating (x : CollectionItem.t) : result (Q * string) :=
  Ok (Qopp (float_or_0 (community_rating x)), title x).

Definition sort_key_critic (x : CollectionItem.t) : result (Q * string) :=
  Ok (Qopp (float_or_0 (critic_rating x)), title x).

Definition sort_key_created (x : CollectionItem.t) : result (date.t * string) :=
  Ok (match date_created x with Some d => d | None => date.min end, title x).

(** [draws] is what the random generator answers during the call. *)
Definition _sort_items_for_collection `{Unicode} (draws : list nat)
    (items : list CollectionItem.t) (order : CollectionOrder)
  : result (list CollectionItem.t) :=
  match order with
  | CUSTOM => Ok items
  | RANDOM => Ok (shuffle draws items)
  | SORT_NAME => py_sorted sort_key_name false items
  | PREMIERE_DATE => py_sorted sort_key_premiere true items
  | COMMUNITY_RATING => py_sorted sort_key_rating false items
  | CRITIC_RATING => py_sorted sort_key_critic false items
  | DATE_CREATED => py_sorted sort_key_created true items
  end.

End Sort.

(** ** The Jellyfin server, as the builder sees it *)

Module JellyfinClient.

Record collection : Type := mk_collection {
  Name : string;
  Id : string;
  Items : list string;          (* members, in the order they were added *)
  Overview : option string;
  SortName : option string;
  DisplayOrder : string;
  Poster : option string
}.

(** The server's collections, in the order [get_collections] lists
    them. *)
Definition t : Type := list collection.

Definition set_items (f : list string -> list string) (c : collection) : collection :=
  mk_collection (Name c) (Id c) (f (Items c)) (Overview c) (SortName c)
    (DisplayOrder c) (Poster c).

Definition on_collection (id : string) (f : collection -> collection) (s : t) : t :=
  map (fun c => if String.eqb (Id c) id then f c else c) s.

Definition mem (x : string) (l : list string) : bool := existsb (String.eqb x) l.

(** Modelled from the spec: the library service of section 6, whose
    client module [jfc.clients.jellyfin] is not among the sources.
    [get_collection_members], [create_collection -> collection_id],
    [add_to_collection], [remove_from_collection] and
    [set_display_metadata] act on the membership and display data of one
    collection; members are kept in insertion order, which is the
    order the server displays. *)
Definition get_collections (s : t) : list collection := s.

Definition get_collection_items (id : string) (s : t) : list string :=
  match List.find (fun c => String.eqb (Id c) id) s with
  | Some c => Items c
  | None => []
  end.

Definition create_collection (name : string) (s : t) : string * t :=
  let id := fresh (map Id s) in
  (id, s ++ [mk_collection name id [] None None "Default" None]).

Definition add_items (ids : list string) (members : list string) : list string :=
  fold_left (fun acc x => if mem x acc then acc else acc ++ [x]) ids members.

Definition add_to_collection (id : string) (ids : list string) (s : t) : t :=
  on_collection id (set_items (add_items ids)) s.

Definition remove_from_collection (id : string) (ids : list string) (s : t) : t :=
  on_collection id (set_items (List.filter (fun x => negb (mem x ids)))) s.

Definition update_collection_metadata (id : string) (overview sort_name : option string)
    (display_order : string) (s : t) : t :=
  on_collection id
    (fun c => mk_collection (Name c) (Id c) (Items c) overview sort_name
                display_order (Poster c)) s.

Definition upload_collection_poster (id : string) (path : string) (s : t) : t :=
  on_collection id
    (fun c => mk_collection (Name c) (Id c) (Items c) (Overview c) (SortName c)
                (DisplayOrder c) (Some path)) s.

End JellyfinClient.

(** The acquisition services: what [add_movie] / [add_series] answer
    (they return or raise; the builder ignores the value returned). *)
Module RadarrClient.
Record t : Type := mk {
  add_movie : Z -> option string -> option string -> option (list string) -> result unit
}.
End RadarrClient.

Module SonarrClient.
Record t : Type := mk {
  add_series : Z -> option string -> option string -> option (list string) -> result unit
}.
End SonarrClient.

(** The report of one collection; [match_rate] (a float quotient),
    [duration_seconds] and the fields this module never writes are left
    out. *)
Module CollectionReport.
Record t : Type := mk {
  name : string;
  library : string;
  schedule : string;
  source_provider : string;
  items_fetched : nat;
  items_after_filter : nat;
  items_matched : nat;
  items_missing : nat;
  items_added_to_collection : nat;
  items_removed_from_collection : nat;
  collection_existed : bool;
  items_sent_to_radarr : nat;
  items_sent_to_sonarr : nat;
  radarr_titles : list string;
  sonarr_titles : list string;
  fetched_titles : list string;
  matched_titles : list string;
  missing_titles : list string;
  added_titles : list string
}.

Definition create (name library schedule source_provider : string) : t :=
  mk name library schedule source_provider 0 0 0 0 0 0 false 0 0 [] [] [] [] [] [].

Definition set_collection_existed (b : bool) (r : t) : t :=
  mk (name r) (library r) (schedule r) (source_provider r) (items_fetched r)
    (items_after_filter r) (items_matched r) (items_missing r)
    (items_added_to_collection r) (items_removed_from_collection r) b
    (items_sent_to_radarr r) (items_sent_to_sonarr r) (radarr_titles r)
    (sonarr_titles r) (fetched_titles r) (matched_titles r) (missing_titles r)
    (added_titles r).

Definition append_added_titles (l : list string) (r : t) : t :=
  mk (name r) (library r) (schedule r) (source_provider r) (items_fetched r)
    (items_after_filter r) (items_matched r) (items_missing r)
    (items_added_to_collection r) (items_removed_from_collection r)
    (collection_existed r) (items_sent_to_radarr r) (items_sent_to_sonarr r)
    (radarr_titles r) (sonarr_titles r) (fetched_titles r) (matched_titles r)
    (missing_titles r) (added_titles r ++ l).

Definition set_sync_counts (added removed : nat) (r : t) : t :=
  mk (name r) (library r) (schedule r) (source_provider r) (items_fetched r)
    (items_after_filter r) (items_matched r) (items_missing r)
    added removed
    (collection_existed r) (items_sent_to_radarr r) (items_sent_to_sonarr r)
    (radarr_titles r) (sonarr_titles r) (fetched_titles r) (matched_titles r)
    (missing_titles r) (added_titles r).

Definition append_radarr_title (x : string) (r : t) : t :=
  mk (name r) (library r) (schedule r) (source_provider r) (items_fetched r)
    (items_after_filter r) (items_matched r) (items_missing r)
    (items_added_to_collection r) (items_removed_from_collection r)
    (collection_existed r) (items_sent_to_radarr r) (items_sent_to_sonarr r)
    (radarr_titles r ++ [x]) (sonarr_titles r) (fetched_titles r) (matched_titles r)
    (missing_titles r) (added_titles r).

Definition append_sonarr_title (x : string) (r : t) : t :=
  mk (name r) (library r) (schedule r) (source_provider r) (items_fetched r)
    (items_after_filter r) (items_matched r) (items_missing r)
    (items_added_to_collection r) (items_removed_from_collection r)
    (collection_existed r) (items_sent_to_radarr r) (items_sent_to_sonarr r)
    (radarr_titles r) (sonarr_titles r ++ [x]) (fetched_titles r) (matched_titles r)
    (missing_titles r) (added_titles r).

Definition set_arr_counts (radarr sonarr : nat) (r : t) : t :=
  mk (name r) (library r) (schedule r) (source_provider r) (items_fetched r)
    (items_after_filter r) (items_matched r) (items_missing r)
    (items_added_to_collection r) (items_removed_from_collection r)
    (collection_existed r) radarr sonarr
    (radarr_titles r) (sonarr_titles r) (fetched_titles r) (matched_titles r)
    (missing_titles r) (added_titles r).
End CollectionReport.

Module Collection.
Record t : Type := mk {
  config : CollectionConfig.t;
  library_name : string;
  items : list CollectionItem.t;
  total_items : nat;
  matched_items : nat;
  missing_items : nat
}.

Definition count (p : CollectionItem.t -> bool) (l : list CollectionItem.t) : nat :=
  length (List.filter p l).

(** Modelled from the spec: [Collection.update_stats], whose module
    [jfc.models.collection] is missing; an item is "matched" iff a library
    item is present, and the unit test counts three items, two of them
    matched, as total 3, matched 2, missing 1. *)
Definition update_stats (c : t) : t :=
  mk (config c) (library_name c) (items c)
    (length (items c))
    (count CollectionItem.matched (items c))
    (count (fun i => negb (CollectionItem.matched i)) (items c)).
End Collection.

(** ** [CollectionBuilder.sync_collection] *)

Module Sync.
Import CollectionConfig CollectionItem.

(** A request that changes something outside the process. *)
Inductive Call : Type :=
| JfCreateCollection (name : string)
| JfAddToCollection (id : string) (ids : list string)
| JfRemoveFromCollection (id : string) (ids : list string)
| JfUpdateCollectionMetadata (id : string) (overview sort_name : option string)
    (display_order : string)
| JfUploadCollectionPoster (id path : string)
| SonarrAddSeries (tvdb_id : Z) (root_folder quality_profile : option string)
    (tags : option (list string))
| RadarrAddMovie (tmdb_id : Z) (root_folder quality_profile : option string)
    (tags : option (list string)).

Definition is_membership_call (c : Call) : bool :=
  match c with
  | JfAddToCollection _ _ | JfRemoveFromCollection _ _ => true
  | _ => false
  end.

(** What a call of [sync_collection] reads and writes: the server, the
    requests issued so far (oldest first), the report object it is
    handed, and the [jellyfin_id] attribute of the collection object. *)
Record State : Type := mk_state {
  jellyfin : JellyfinClient.t;
  calls : list Call;
  report : CollectionReport.t;
  jellyfin_id : option string
}.

Record CollectionBuilder : Type := mk_builder {
  tmdb : TMDbClient.t;
  trakt : option TraktClient.t;
  radarr : option RadarrClient.t;
  sonarr : option SonarrClient.t;
  dry_run : bool
}.

(** What lies outside the builder during one call: the draws of the
    random generator, the poster directory of the settings, whether
    the upload of a poster file goes through ([_upload_poster] turns
    every failure into [False]), and the order in which the interpreter
    lists a set of identifiers. *)
Record Env : Type := mk_env {
  draws : list nat;
  posters_path : string;
  poster_uploads : string -> string -> bool;
  set_order : gset string -> list string
}.

Definition _get_jellyfin_display_order (order : CollectionOrder) : string :=
  match order with
  | CUSTOM => "Default"
  | SORT_NAME => "SortName"
  | PREMIERE_DATE => "PremiereDate"
  | DATE_CREATED => "DateCreated"
  | COMMUNITY_RATING => "CommunityRating"
  | CRITIC_RATING => "CommunityRating"
  | RANDOM => "Default"
  end.

Definition log (c : Call) (st : State) : State :=
  mk_state (jellyfin st) (calls st ++ [c]) (report st) (jellyfin_id st).

Definition on_jellyfin (f : JellyfinClient.t -> JellyfinClient.t) (st : State) : State :=
  mk_state (f (jellyfin st)) (calls st) (report st) (jellyfin_id st).

Definition on_report (f : CollectionReport.t -> CollectionReport.t) (st : State) : State :=
  mk_state (jellyfin st) (calls st) (f (report st)) (jellyfin_id st).

Definition set_jellyfin_id (id : string) (st : State) : State :=
  mk_state (jellyfin st) (calls st) (report st) (Some id).

Definition add_to_collection (id : string) (ids : list string) (st : State) : State :=
  on_jellyfin (JellyfinClient.add_to_collection id ids) (log (JfAddToCollection id ids) st).

Definition remove_from_collection (id : string) (ids : list string) (st : State) : State :=
  on_jellyfin (JellyfinClient.remove_from_collection id ids)
    (log (JfRemoveFromCollection id ids) st).

Section WithBuilder.
Context `{U : Unicode}.
Variable self : CollectionBuilder.
Variable env : Env.

Definition _upload_poster (collection : Collection.t) (st : State) : bool * State :=
  let config := Collection.config collection in
  if negb (truthy_str (poster config)) || negb (truthy_str (jellyfin_id st))
  then (false, st)
  else
    let id := Filters.unwrap_str (jellyfin_id st) in
    let poster_path :=
      String.append (posters_path env)
        (String.append "/" (Filters.unwrap_str (poster config))) in
    if poster_uploads env id poster_path
    then (true, on_jellyfin (JellyfinClient.upload_collection_poster id poster_path)
                  (log (JfUploadCollectionPoster id poster_path) st))
    else (false, st).

(** [a or b] on two optional strings. *)
Definition or_opt (a b : option string) : option string :=
  if truthy_str a then a else b.

Definition tags_of (tag : option string) : option (list string) :=
  if truthy_str tag then Some [Filters.unwrap_str tag] else None.

(** The loop of [_add_missing_to_arr] over the missing items, with the
    two counters. *)
Fixpoint add_missing_loop (config : CollectionConfig.t)
    (missing : list CollectionItem.t) (radarr_count sonarr_count : nat)
    (st : State) : result (nat * nat) * State :=
  match missing with
  | [] => (Ok (radarr_count, sonarr_count), st)
  | item :: rest =>
    let is_series := String.eqb (media_type item) "series" in
    match (if is_series then sonarr self else None) with
    | Some sn =>
      let tags := tags_of (or_opt (item_sonarr_tag config) (sonarr_tag config)) in
      let looked_up :=
        if negb (truthy_int (tvdb_id item)) && truthy_int (tmdb_id item)
        then
          series_details ← TMDbClient.get_series_details (tmdb self)
                             (Filters.unwrap_int (tmdb_id item));
          mret (match series_details with
                | Some tv => tv
                | None => tvdb_id item
                end)
        else Ok (tvdb_id item) in
      match looked_up with
      | Raise e => (Raise e, st)
      | Ok tv =>
        if negb (truthy_int tv)
        then add_missing_loop config rest radarr_count sonarr_count st
        else
          let tvdb := Filters.unwrap_int tv in
          let st := log (SonarrAddSeries tvdb (sonarr_root_folder config)
                           (sonarr_quality_profile config) tags) st in
          match SonarrClient.add_series sn tvdb (sonarr_root_folder config)
                  (sonarr_quality_profile config) tags with
          | Ok _ =>
            add_missing_loop config rest radarr_count (S sonarr_count)
              (on_report (CollectionReport.append_sonarr_title (title item)) st)
          | Raise _ => add_missing_loop config rest radarr_count sonarr_count st
          end
      end
    | None =>
      match (if negb is_series && truthy_int (tmdb_id item) then radarr self else None) with
      | Some rd =>
        let tags := tags_of (or_opt (item_radarr_tag config) (radarr_tag config)) in
        let tmdb := Filters.unwrap_int (tmdb_id item) in
        let st := log (RadarrAddMovie tmdb (radarr_root_folder config)
                         (radarr_quality_profile config) tags) st in
        match RadarrClient.add_movie rd tmdb (radarr_root_folder config)
                (radarr_quality_profile config) tags with
        | Ok _ =>
          add_missing_loop config rest (S radarr_count) sonarr_count
            (on_report (CollectionReport.append_radarr_title (title item)) st)
        | Raise _ => add_missing_loop config rest radarr_count sonarr_count st
        end
      | None => add_missing_loop config rest radarr_count sonarr_count st
      end
    end
  end.

Definition _add_missing_to_arr (collection : Collection.t) (st : State)
  : result (nat * nat) * State :=
  let missing := List.filter (fun item => negb (in_library item))
                   (Collection.items collection) in
  match missing with
  | [] => (Ok (O, O), st)
  | _ => add_missing_loop (Collection.config collection) missing O O st
  end.

Definition nonempty (s : gset string) : bool := negb (bool_decide (s = ∅)).

(** [next((c for c in jellyfin_collections if c["Name"] == name), None)] *)
Definition find_by_name (name : string) (jellyfin_collections : list JellyfinClient.collection)
  : option JellyfinClient.collection :=
  List.find (fun c => String.eqb (JellyfinClient.Name c) name) jellyfin_collections.

(** [[item.jellyfin_id for item in sorted_items if item.jellyfin_id]] *)
Definition matched_ids (sorted_items : list CollectionItem.t) : list string :=
  omap (fun item => if truthy_str (CollectionItem.jellyfin_id item)
                    then CollectionItem.jellyfin_id item else None) sorted_items.

(** The block of [sync_collection] that changes the membership: clear
    and re-add in sorted order when a reorder is needed, plain add and
    remove otherwise. *)
Definition apply_changes (order : CollectionOrder) (existed : bool) (cid : string)
    (current_ids : gset string) (target_ids_list : list string) (st : State) : State :=
  let target_ids : gset string := list_to_set target_ids_list in
  let to_add := target_ids ∖ current_ids in
  let to_remove := current_ids ∖ target_ids in
  (* Determine if we need to reorder (clear and re-add all) *)
  let needs_reorder :=
    negb (CollectionOrder_eqb order CUSTOM)
    && (nonempty to_add || nonempty to_remove || negb existed) in
  if needs_reorder && truthy_list target_ids_list then
    (* Clear all items and re-add in sorted order *)
    let st := if nonempty current_ids
              then remove_from_collection cid
                     (list_of_set (set_order env) current_ids) st
              else st in
    add_to_collection cid target_ids_list st
  else
    (* Simple add/remove (no reordering needed) *)
    let st := if nonempty to_add
              then add_to_collection cid (list_of_set (set_order env) to_add) st
              else st in
    if nonempty to_remove
    then remove_from_collection cid (list_of_set (set_order env) to_remove) st
    else st.

(** The end of [sync_collection], once the membership is settled: the
    counts in the report, the display metadata, the poster, the missing
    items, and the returned pair. *)
Definition finish_sync (collection : Collection.t) (add_missing_to_arr : bool)
    (cid : string) (added removed : nat) (st : State) : result (nat * nat) * State :=
  let config := Collection.config collection in
  (* Update report *)
  let st := on_report (CollectionReport.set_sync_counts added removed) st in
  (* Update metadata (including DisplayOrder for Jellyfin sorting) *)
  let display_order := _get_jellyfin_display_order (collection_order config) in
  let st := on_jellyfin
    (JellyfinClient.update_collection_metadata cid (summary config)
       (sort_title config) display_order)
    (log (JfUpdateCollectionMetadata cid (summary config) (sort_title config)
            display_order) st) in
  (* Upload poster if configured *)
  let st := if truthy_str (poster config)
            then snd (_upload_poster collection st) else st in
  (* Add missing items to Radarr/Sonarr *)
  if add_missing_to_arr then
    match _add_missing_to_arr collection st with
    | (Raise e, st) => (Raise e, st)
    | (Ok (radarr_count, sonarr_count), st) =>
      (Ok (added, removed),
       on_report (CollectionReport.set_arr_counts radarr_count sonarr_count) st)
    end
  else (Ok (added, removed), st).

(** The start of [sync_collection]: find the collection by name or
    create it; [existing is not None] and the state with
    [collection.jellyfin_id] set. *)
Definition get_or_create (config : CollectionConfig.t) (st : State) : bool * State :=
  let jellyfin_collections := JellyfinClient.get_collections (jellyfin st) in
  let existing := find_by_name (name config) jellyfin_collections in
  let st := on_report
    (CollectionReport.set_collection_existed
       (match existing with Some _ => true | None => false end)) st in
  match existing with
  | Some c => (true, set_jellyfin_id (JellyfinClient.Id c) st)
  | None =>
    let '(id, jf) := JellyfinClient.create_collection (name config) (jellyfin st) in
    (false,
     set_jellyfin_id id (on_jellyfin (fun _ => jf) (log (JfCreateCollection (name config)) st)))
  end.

Definition sync_collection (collection : Collection.t) (add_missing_to_arr : bool)
    (st : State) : result (nat * nat) * State :=
  let config := Collection.config collection in
  if dry_run self then (Ok (O, O), st)
  else
    (* Get or create Jellyfin collection *)
    let '(existed, st) := get_or_create config st in
    let cid := Filters.unwrap_str (jellyfin_id st) in
    (* Get current items in collection *)
    let current_ids : gset string :=
      list_to_set (JellyfinClient.get_collection_items cid (jellyfin st)) in
    (* Sort items according to collection_order *)
    match Sort._sort_items_for_collection (draws env) (Collection.items collection)
            (collection_order config) with
    | Raise e => (Raise e, st)
    | Ok sorted_items =>
      (* Get target items in sorted order (only matched ones) *)
      let target_ids_list := matched_ids sorted_items in
      let target_ids : gset string := list_to_set target_ids_list in
      (* Calculate changes *)
      let to_add := target_ids ∖ current_ids in
      let to_remove := current_ids ∖ target_ids in
      (* Track added/removed titles for report *)
      let st := on_report
        (CollectionReport.append_added_titles
           (map title
              (List.filter
                 (fun item => match CollectionItem.jellyfin_id item with
                              | Some j => bool_decide (j ∈ to_add)
                              | None => false
                              end)
                 (Collection.items collection)))) st in
      let st := apply_changes (collection_order config) existed cid current_ids
                  target_ids_list st in
      finish_sync collection add_missing_to_arr cid (size to_add) (size to_remove) st
    end.

End WithBuilder.
End Sync.

(** ** The media matcher: title normalisation and the match predicate

    [jfc.services.media_matcher] is not among the sources; only its unit
    tests are.  Its two pure functions are modelled from the
    specification (sections 4.1 and 4.3). *)

Module LibraryItem.
Record t : Type := mk {
  jellyfin_id : string;
  title : string;
  year : option Z;
  media_type : MediaType;
  tmdb_id : option Z;
  imdb_id : option string;
  tvdb_id : option Z;
  library_id : string;
  library_name : string
}.
End LibraryItem.

Module MediaMatcher.

Definition chars : Type := list ascii.

(** Whitespace: tab, line feed, vertical tab, form feed, carriage
    return, the four separators 28..31 and the space. *)
Definition is_space (c : ascii) : bool :=
  let n := nat_of_ascii c in
  ((9 <=? n) && (n <=? 13) || (28 <=? n) && (n <=? 32))%nat.

(** Letters and digits; a byte outside the ASCII range belongs to an
    encoded letter and counts as one. *)
Definition is_alnum (c : ascii) : bool :=
  let n := nat_of_ascii c in
  ((48 <=? n) && (n <=? 57) || (65 <=? n) && (n <=? 90)
   || (97 <=? n) && (n <=? 122) || (128 <=? n))%nat.

Definition articles : list chars :=
  map list_ascii_of_string ["the"; "a"; "an"; "le"; "la"; "les"; "un"; "une"].

(** [Some rest] when [l] is [word] followed by a whitespace character
    and [rest] (the whitespace included). *)
Fixpoint after_word (word l : chars) : option chars :=
  match word, l with
  | [], c :: _ => if is_space c then Some l else None
  | [], [] => None
  | w :: word', c :: l' => if Ascii.eqb w c then after_word word' l' else None
  | _ :: _, [] => None
  end.

Fixpoint leading_article (arts : list chars) (l : chars) : option chars :=
  match arts with
  | [] => None
  | a :: rest =>
    match after_word a l with
    | Some r => Some r
    | None => leading_article rest l
    end
  end.

Definition strip_article (l : chars) : chars :=
  match leading_article articles l with
  | Some r => r
  | None => l
  end.

Definition replace_punct (c : ascii) : ascii :=
  if is_alnum c || is_space c then c else " "%char.

(** Every run of whitespace becomes one space and trailing whitespace
    goes; a leading run leaves one space, which [collapse] removes. *)
Fixpoint squeeze (l : chars) : chars :=
  match l with
  | [] => []
  | c :: r =>
    let r' := squeeze r in
    if is_space c then
      match r' with
      | [] => []
      | d :: _ => if Ascii.eqb d " " then r' else " "%char :: r'
      end
    else c :: r'
  end.

Definition collapse (l : chars) : chars :=
  match squeeze l with
  | c :: r => if Ascii.eqb c " " then r else c :: r
  | [] => []
  end.

Definition normalize_chars (l : chars) : chars :=
  collapse (map replace_punct (strip_article (map lower_ascii l))).

(** Modelled from the spec: [MediaMatcher._normalize_title], whose
    module is missing.  Section 4.1: lower-case; strip a single leading
    article when it is the very first word, followed by whitespace;
    replace every character that is neither alphanumeric nor whitespace
    by a space; collapse whitespace and trim.  The article list is the
    one of the spec and of the unit tests (English and French).  Case
    and character classes are those of ASCII - an accented letter is kept
    as it is - so this is that normaliser on titles written in ASCII. *)
Definition _normalize_title (title : string) : string :=
  string_of_list_ascii (normalize_chars (list_ascii_of_string title)).

(** The attributes the match predicate looks at; catalog items and
    library items both carry them. *)
Class Identified (A : Type) : Type := {
  the_title : A -> string;
  the_year : A -> option Z;
  primary_id : A -> option Z;
  secondary_id : A -> option string;
  tertiary_id : A -> option Z
}.

#[global] Instance MediaItem_Identified : Identified MediaItem.t :=
  {| the_title := MediaItem.title; the_year := MediaItem.year;
     primary_id := MediaItem.tmdb_id; secondary_id := MediaItem.imdb_id;
     tertiary_id := MediaItem.tvdb_id |}.

#[global] Instance LibraryItem_Identified : Identified LibraryItem.t :=
  {| the_title := LibraryItem.title; the_year := LibraryItem.year;
     primary_id := LibraryItem.tmdb_id; secondary_id := LibraryItem.imdb_id;
     tertiary_id := LibraryItem.tvdb_id |}.

(** Both sides carry the identifier and it is the same. *)
Definition same_id {K} (eqb : K -> K -> bool) (x y : option K) : bool :=
  match x, y with
  | Some i, Some j => eqb i j
  | _, _ => false
  end.

(** An absent year is a wildcard; two present years may differ by
    one. *)
Definition years_agree (x y : option Z) : bool :=
  match x, y with
  | Some a, Some b => Z.abs (a - b) <=? 1
  | _, _ => true
  end.

(** Modelled from the spec: the match predicate of section 4.3, over
    the title normaliser [normalize] that it is given: true if any of
    (i) both carry the same primary ID, (ii) the same secondary ID,
    (iii) the same tertiary ID, (iv) normalized titles are equal and the
    years agree, an absent year being a wildcard and not a mismatch. *)
Definition is_match_by {A B} `{Identified A} `{Identified B}
    (normalize : string -> string) (a : A) (b : B) : bool :=
  if same_id Z.eqb (primary_id a) (primary_id b) then true
  else if same_id String.eqb (secondary_id a) (secondary_id b) then true
  else if same_id Z.eqb (tertiary_id a) (tertiary_id b) then true
  else String.eqb (normalize (the_title a)) (normalize (the_title b))
       && years_agree (the_year a) (the_year b).

(** Modelled from the spec: [MediaMatcher._is_match], whose module is
    missing: the match predicate of section 4.3 over
    [_normalize_title]. *)
Definition _is_match {A B} `{Identified A} `{Identified B} (a : A) (b : B) : bool :=
  is_match_by _normalize_title a b.

(** Vocabulary for the properties of the normal form: a character that
    lower-casing and punctuation replacement leave alone, and a text
    whose whitespace is single spaces between words only. *)
Definition settled (c : ascii) : bool :=
  (is_alnum c || is_space c) && Ascii.eqb (lower_ascii c) c.

Fixpoint squeezed (l : chars) : bool :=
  match l with
  | [] => true
  | c :: r =>
    if is_space c then
      Ascii.eqb c " "
      && match r with [] => false | d :: _ => negb (is_space d) end
      && squeezed r
    else squeezed r
  end.

Definition no_leading_space (l : chars) : bool :=
  match l with
  | c :: _ => negb (Ascii.eqb c " ")
  | [] => true
  end.

(** The normal form starts with an article followed by a space. *)
Definition has_leading_article (title : string) : bool :=
  match leading_article articles (list_ascii_of_string title) with
  | Some _ => true
  | None => false
  end.

End MediaMatcher.

Module MatcherSamples.

Definition catalog (title : string) (year : option Z) (tmdb_id : option Z) : MediaItem.t :=
  MediaItem.mk title year MOVIE tmdb_id None None [] None None None None.

Definition library (title : string) (year : option Z) (tmdb_id : option Z) : LibraryItem.t :=
  LibraryItem.mk "jf-1" title year MOVIE tmdb_id None None "lib-1" "Films".

End MatcherSamples.

(** ** [CollectionBuilder.build_collection] *)

Module Build.
Import CollectionConfig.

Definition _get_source_provider `{Unicode} (config : CollectionConfig.t)
  : result string :=
  let sources := [] in
  let sources :=
    if truthy_int (tmdb_trending_weekly config) || truthy_int (tmdb_trending_daily config)
    then sources ++ ["TMDb Trending"] else sources in
  let sources :=
    if truthy_int (tmdb_popular config) then sources ++ ["TMDb Popular"] else sources in
  let sources :=
    if truthy_dict (tmdb_discover config) then sources ++ ["TMDb Discover"] else sources in
  let sources :=
    if truthy_int (trakt_trending config) then sources ++ ["Trakt Trending"] else sources in
  let sources :=
    if truthy_int (trakt_popular config) then sources ++ ["Trakt Popular"] else sources in
  sources ←
    (if truthy_dict (trakt_chart config) then
       match dict_get_default (Fetch.dict_or (trakt_chart config)) "chart" (AStr "unknown") with
       | AStr chart => Ok (sources ++ [String.append "Trakt " (capitalize chart)])
       | _ => Raise (AttributeError "capitalize")
       end
     else Ok sources);
  let sources :=
    if truthy_dict (plex_search config) then sources ++ ["Library Search"] else sources in
  mret (if truthy_list sources then String.concat ", " sources else "Unknown").

Section WithBuilder.
Context `{U : Unicode}.
Variable self : Sync.CollectionBuilder.
(** [self.matcher.find_in_library(item, library_id)]: what the matcher
    answers for each item during the cycle. *)
Variable find_in_library : MediaItem.t -> string -> result (option LibraryItem.t).

(** The matching loop: the collection items and the matched and missing
    titles. *)
Fixpoint match_items (library_id : string) (filtered_items : list MediaItem.t)
  : result (list CollectionItem.t * list string * list string) :=
  match filtered_items with
  | [] => Ok ([], [], [])
  | item :: rest =>
    lib_item ← find_in_library item library_id;
    let collection_item :=
      CollectionItem.mk (MediaItem.title item) (MediaItem.year item)
        (MediaItem.tmdb_id item) (MediaItem.imdb_id item) (MediaItem.tvdb_id item)
        (option_map LibraryItem.jellyfin_id lib_item)
        (MediaType_value (MediaItem.media_type item))
        (match lib_item with Some _ => true | None => false end)
        (match lib_item with Some _ => true | None => false end)
        None None None None None in
    '(items, matched, missing) ← match_items library_id rest;
    mret (collection_item :: items,
          (if lib_item is Some _ then MediaItem.title item :: matched else matched),
          (if lib_item is Some _ then missing else MediaItem.title item :: missing))
  end.

Definition build_collection (config : CollectionConfig.t)
    (library_name library_id : string) (media_type : MediaType)
  : result (Collection.t * CollectionReport.t) :=
  (* Initialize report *)
  source_provider ← _get_source_provider config;
  let report :=
    CollectionReport.create (name config) library_name (schedule config) source_provider in
  (* Fetch items from providers *)
  items ← Fetch._fetch_items (Sync.tmdb self) (Sync.trakt self) config media_type;
  (* Apply filters *)
  let filtered_items := Filters._apply_filters items config in
  (* Match items to library *)
  '(collection_items, matched_titles, missing_titles) ←
     match_items library_id filtered_items;
  let collection :=
    Collection.update_stats (Collection.mk config library_name collection_items 0 0 0) in
  (* Update report stats *)
  mret (collection,
        CollectionReport.mk (name config) library_name (schedule config) source_provider
          (length items) (length filtered_items)
          (Collection.matched_items collection) (Collection.missing_items collection)
          0 0 false 0 0 [] []
          (map MediaItem.title items) matched_titles missing_titles []).

End WithBuilder.
End Build.


(** ** Sample data, following the unit tests and the scenarios of
    section 8 of the specification *)

(** An implementation of the Unicode tables for the examples.  Besides
    ASCII it knows the letters of the Latin-1 supplement, which UTF-8
    writes in two bytes, the first of them 195: [À]..[Þ] (without [×])
    lower-case to [à]..[þ].  Any other character it leaves alone, which is
    what Python does on the texts of the examples and not on every
    text. *)
Module Latin1.

Definition is_upper (d : ascii) : bool :=
  let n := nat_of_ascii d in ((128 <=? n) && (n <=? 158) && negb (n =? 151))%nat.

Definition is_lower (d : ascii) : bool :=
  let n := nat_of_ascii d in ((160 <=? n) && (n <=? 190) && negb (n =? 183))%nat.

Fixpoint lower (s : string) : string :=
  match s with
  | EmptyString => EmptyString
  | String c r =>
    if (nat_of_ascii c =? 195)%nat then
      match r with
      | String d r' =>
        if is_upper d then String c (String (ascii_of_nat (nat_of_ascii d + 32)) (lower r'))
        else String c (lower r)
      | EmptyString => String c EmptyString
      end
    else String (lower_ascii c) (lower r)
  end.

Definition capitalize (s : string) : string :=
  match s with
  | EmptyString => EmptyString
  | String c r =>
    if (nat_of_ascii c =? 195)%nat then
      match r with
      | String d r' =>
        if is_lower d then String c (String (ascii_of_nat (nat_of_ascii d - 32)) (lower r'))
        else String c (lower r)
      | EmptyString => String c EmptyString
      end
    else String (upper_ascii c) (lower r)
  end.

End Latin1.

#[global] Instance latin1 : Unicode :=
  {| lower_unicode := Latin1.lower; capitalize_unicode := Latin1.capitalize |}.

Module Samples.

Definition movie (title : string) (year : option Z) (tmdb_id : option Z) : MediaItem.t :=
  MediaItem.mk title year MOVIE tmdb_id None None [] None None None None.

Definition config (name : string) (order : CollectionOrder)
    (tmdb_trending_weekly tmdb_popular : option Z) : CollectionConfig.t :=
  CollectionConfig.mk name "daily" None None None order CollectionFilter.default None
    tmdb_trending_weekly None tmdb_popular None None None None None
    None None None None None None None None.

(** A TMDb client whose trending and popular movie feeds answer as
    given and whose other endpoints return nothing. *)
Definition tmdb_client (trending popular : result (list MediaItem.t)) : TMDbClient.t :=
  TMDbClient.mk (fun _ _ => trending) (fun _ _ => Ok []) (fun _ => popular)
    (fun _ => Ok []) (fun _ => Ok []) (fun _ => Ok []) (fun _ => Ok None).

(** The catalog of the end-to-end scenario: two items share id 1. *)
Definition item_A : MediaItem.t := movie "A" (Some 2020) (Some 1).
Definition item_A_dup : MediaItem.t := movie "A-dup" (Some 2020) (Some 1).
Definition item_B : MediaItem.t := movie "B" (Some 2021) (Some 2).

(** Two items without a primary ID and with the same title. *)
Definition orphan_1 : MediaItem.t := movie "Old Movie" (Some 2020) None.
Definition orphan_2 : MediaItem.t := movie "Old Movie" (Some 1990) None.

Definition unavailable : exn := HTTPStatusError "503 Service Unavailable".

Definition builder (tmdb : TMDbClient.t) (dry_run : bool) : Sync.CollectionBuilder :=
  Sync.mk_builder tmdb None None None dry_run.

End Samples.

Module FilterSamples.

(** A filter whose only constraint is a minimal vote count. *)
Definition vote_count_filter (n : Z) : CollectionFilter.t :=
  CollectionFilter.mk None None None None (Some n) [] [] [] [] [].

(** An item that carries none of the attributes the filters test. *)
Definition bare (item : MediaItem.t) : Prop :=
  MediaItem.year item = None
  ∧ MediaItem.vote_average item = None
  ∧ MediaItem.vote_count item = None
  ∧ MediaItem.original_country item = None
  ∧ MediaItem.original_language item = None
  ∧ MediaItem.genres item = [].

Definition with_filters (f : CollectionFilter.t) (limit : option Z) : CollectionConfig.t :=
  CollectionConfig.mk "Filtered" "daily" None None None CUSTOM f limit
    None None None None None None None None
    None None None None None None None None.

(** A rated item on which TMDb reports no vote count. *)
Definition unrated_count : MediaItem.t :=
  MediaItem.mk "Dune: Part Two" (Some 2024) MOVIE (Some 693134) (Some "tt15239678") None
    [GInt 878; GInt 12] (Some 8.5%Q) None (Some "en") (Some "US").

End FilterSamples.

(** ** Vocabulary for the ordering policies *)

Module Ordering.
Import CollectionItem Sort.

(** The values the sort keys are built from. *)
Definition name_of `{Unicode} (x : CollectionItem.t) : string :=
  lower (or_str (sort_name x) (title x)).

Definition premiere_of (x : CollectionItem.t) : date.t :=
  match premiere_date x with
  | Some d => d
  | None => if truthy_int (year x)
            then date.days_before_year (Filters.unwrap_int (year x)) + 1
            else date.min
  end.

Definition rating_of (x : CollectionItem.t) : Q := float_or_0 (community_rating x).
Definition critic_of (x : CollectionItem.t) : Q := float_or_0 (critic_rating x).

Definition created_of (x : CollectionItem.t) : date.t :=
  match date_created x with Some d => d | None => date.min end.

(** The key functions, where they are defined. *)
Definition key_name `{Unicode} (x : CollectionItem.t) : string := name_of x.
Definition key_premiere (x : CollectionItem.t) : date.t * string := (premiere_of x, title x).
Definition key_rating (x : CollectionItem.t) : Q * string := (Qopp (rating_of x), title x).
Definition key_critic (x : CollectionItem.t) : Q * string := (Qopp (critic_of x), title x).
Definition key_created (x : CollectionItem.t) : date.t * string := (created_of x, title x).

(** The policies that sort. *)
Definition sorts (order : CollectionOrder) : bool :=
  match order with CUSTOM | RANDOM => false | _ => true end.

(** The key of [x] can be computed: only [date(x.year, 1, 1)] can
    raise. *)
Definition key_defined (order : CollectionOrder) (x : CollectionItem.t) : bool :=
  match order with
  | PREMIERE_DATE => is_ok (sort_key_premiere x)
  | _ => true
  end.

Definition str_le (a b : string) : Prop := String.leb a b = true.

(** [x] may stand before [y]: by name ascending; by date descending,
    equal dates by title descending; by rating descending, equal ratings
    by title ascending. *)
Definition in_order `{Unicode} (order : CollectionOrder) (x y : CollectionItem.t) : Prop :=
  match order with
  | SORT_NAME => str_le (name_of x) (name_of y)
  | PREMIERE_DATE =>
    premiere_of y < premiere_of x
    ∨ (premiere_of x = premiere_of y ∧ str_le (title y) (title x))
  | COMMUNITY_RATING =>
    (rating_of y < rating_of x)%Q
    ∨ ((rating_of x == rating_of y)%Q ∧ str_le (title x) (title y))
  | CRITIC_RATING =>
    (critic_of y < critic_of x)%Q
    ∨ ((critic_of x == critic_of y)%Q ∧ str_le (title x) (title y))
  | DATE_CREATED =>
    created_of y < created_of x
    ∨ (created_of x = created_of y ∧ str_le (title y) (title x))
  | CUSTOM | RANDOM => True
  end.

(** [x] and [y] have the same sort key. *)
Definition same_rank `{Unicode} (order : CollectionOrder) (x y : CollectionItem.t)
  : bool :=
  match order with
  | SORT_NAME => String.eqb (name_of x) (name_of y)
  | PREMIERE_DATE => (premiere_of x =? premiere_of y) && String.eqb (title x) (title y)
  | COMMUNITY_RATING => Qeq_bool (rating_of x) (rating_of y) && String.eqb (title x) (title y)
  | CRITIC_RATING => Qeq_bool (critic_of x) (critic_of y) && String.eqb (title x) (title y)
  | DATE_CREATED => (created_of x =? created_of y) && String.eqb (title x) (title y)
  | CUSTOM | RANDOM => true
  end.

(** The sorted list for a sorting policy whose keys are all defined. *)
Definition sorted_items `{Unicode} (order : CollectionOrder)
    (items : list CollectionItem.t)
  : list CollectionItem.t :=
  match order with
  | SORT_NAME => sorted_by key_name false items
  | PREMIERE_DATE => sorted_by key_premiere true items
  | COMMUNITY_RATING => sorted_by key_rating false items
  | CRITIC_RATING => sorted_by key_critic false items
  | DATE_CREATED => sorted_by key_created true items
  | CUSTOM | RANDOM => items
  end.

End Ordering.

Module SortSamples.

Definition entry (title : string) (jellyfin_id : option string) : CollectionItem.t :=
  CollectionItem.mk title None None None None jellyfin_id "movie"
    (match jellyfin_id with Some _ => true | None => false end)
    (match jellyfin_id with Some _ => true | None => false end)
    None None None None None.

Definition rated (title : string) (year : Z) (rating : Q) : CollectionItem.t :=
  CollectionItem.mk title (Some year) None None None (Some title) "movie" true true
    None None (Some rating) None None.

(** Two titles that differ in case only. *)
Definition dune_lower : CollectionItem.t := entry "dune" (Some "jf-1").
Definition dune_upper : CollectionItem.t := entry "Dune" (Some "jf-2").

(** And two that differ in the case of an accented letter. *)
Definition eclair_lower : CollectionItem.t := entry "éclair" (Some "jf-3").
Definition eclair_upper : CollectionItem.t := entry "Éclair" (Some "jf-4").

End SortSamples.

Module SyncSamples.
Import SortSamples.

(** A server on which the collection "Trending" exists and holds the two
    library items, B before A. *)
Definition trending_remote : JellyfinClient.collection :=
  JellyfinClient.mk_collection "Trending" "col-1" ["jf-2"; "jf-1"] None None "Default" None.

Definition server : JellyfinClient.t := [trending_remote].

(** A server on which "Trending" holds the library item A only. *)
Definition server_behind : JellyfinClient.t :=
  [JellyfinClient.mk_collection "Trending" "col-1" ["jf-1"] None None "Default" None].

Definition env : Sync.Env :=
  Sync.mk_env [] "/config/posters" (fun _ _ => true) (fun s => elements s).

(** An interpreter that lists a set the other way round. *)
Definition env_reversed : Sync.Env :=
  Sync.mk_env [] "/config/posters" (fun _ _ => true) (fun s => rev (elements s)).

(** A server on which "Trending" holds two items that have left the
    target. *)
Definition server_stale : JellyfinClient.t :=
  [JellyfinClient.mk_collection "Trending" "col-1" ["jf-8"; "jf-9"] None None "Default" None].

(** The collection computed for this cycle: A and B are in the library,
    C is missing. *)
Definition trending (order : CollectionOrder) : Collection.t :=
  Collection.mk (Samples.config "Trending" order (Some 20) None) "Films"
    [entry "A" (Some "jf-1"); entry "B" (Some "jf-2"); entry "C" None] 3 2 1.

(** The same collection under the name policy, with a poster file
    configured. *)
Definition trending_poster : Collection.t :=
  Collection.mk
    (CollectionConfig.mk "Trending" "daily" None None (Some "trending.jpg") SORT_NAME
       CollectionFilter.default None (Some 20) None None None None None None None
       None None None None None None None None)
    "Films" [entry "A" (Some "jf-1"); entry "B" (Some "jf-2"); entry "C" None] 3 2 1.

Definition report0 : CollectionReport.t :=
  CollectionReport.create "Trending" "Films" "daily" "TMDb Trending".

Definition state0 (jf : JellyfinClient.t) : Sync.State := Sync.mk_state jf [] report0 None.

Definition builder (dry_run : bool) : Sync.CollectionBuilder :=
  Samples.builder (Samples.tmdb_client (Ok []) (Ok [])) dry_run.

End SyncSamples.

(** ** Vocabulary for the synchronisation properties *)

Module SyncSpec.
Import JellyfinClient Sync.

(** What identifies a collection, and what it holds. *)
Definition ident (c : collection) : string * string := (Name c, Id c).
Definition view (c : collection) : string * string * list string :=
  (Name c, Id c, Items c).

(** A collection with this id exists on the server. *)
Definition live (id : string) (jf : JellyfinClient.t) : bool :=
  existsb (fun c => String.eqb (Id c) id) jf.

(** The members of a collection, as a set. *)
Definition members (id : string) (jf : JellyfinClient.t) : gset string :=
  list_to_set (get_collection_items id jf).

(** The membership requests among the calls issued so far. *)
Definition membership_calls (st : State) : list Call :=
  List.filter is_membership_call (calls st).

(** The requests [sync_collection] issues after the metadata update:
    the upload of the poster of collection [cid] when a poster is
    configured, and the Radarr and Sonarr requests when the missing items
    are to be acquired; no other. *)
Definition follows_metadata (cid : string) (poster arr : bool) (c : Call) : bool :=
  match c with
  | JfUploadCollectionPoster id _ => poster && String.eqb id cid
  | SonarrAddSeries _ _ _ _ | RadarrAddMovie _ _ _ _ => arr
  | _ => false
  end.

(** From [st] to [st'] no collection was created or renamed, no
    membership changed and no membership request was issued. *)
Definition same_membership (st st' : State) : Prop :=
  map view (jellyfin st') = map view (jellyfin st)
  ∧ membership_calls st' = membership_calls st.

(** The target of a cycle: the identifiers of the matched items, in
    target order. *)
Definition target_of `{Unicode} (draws : list nat) (collection : Collection.t)
  : result (list string) :=
  sorted_items ← Sort._sort_items_for_collection draws (Collection.items collection)
                   (CollectionConfig.collection_order (Collection.config collection));
  mret (matched_ids sorted_items).

End SyncSpec.

(** ** Further vocabulary *)

Module FetchSpec.
Import CollectionConfig.

(** Two configurations ask the same of TMDb. *)
Definition same_tmdb_options (c1 c2 : CollectionConfig.t) : Prop :=
  tmdb_trending_weekly c1 = tmdb_trending_weekly c2
  ∧ tmdb_trending_daily c1 = tmdb_trending_daily c2
  ∧ tmdb_popular c1 = tmdb_popular c2
  ∧ tmdb_discover c1 = tmdb_discover c2.

(** A configuration that names no provider feed; a Trakt chart of a kind
    other than watched, trending or popular counts as none. *)
Definition known_chart (chart_config : dict) : bool :=
  let chart := dict_get_default chart_config "chart" (AStr "watched") in
  Fetch.Any_is_str chart "watched" || Fetch.Any_is_str chart "trending"
  || Fetch.Any_is_str chart "popular".

Definition no_feed (config : CollectionConfig.t) : Prop :=
  truthy_int (tmdb_trending_weekly config) = false
  ∧ truthy_int (tmdb_trending_daily config) = false
  ∧ truthy_int (tmdb_popular config) = false
  ∧ truthy_dict (tmdb_discover config) = false
  ∧ truthy_int (trakt_trending config) = false
  ∧ truthy_int (trakt_popular config) = false
  ∧ (truthy_dict (trakt_chart config) = false
     ∨ known_chart (Fetch.dict_or (trakt_chart config)) = false).

(** A configuration whose only feed is a Trakt chart. *)
Definition chart_only (chart : dict) : CollectionConfig.t :=
  CollectionConfig.mk "Chart" "daily" None None None CUSTOM CollectionFilter.default None
    None None None None None None (Some chart) None
    None None None None None None None None.

(** A Trakt client that fails on every call. *)
Definition trakt_down : TraktClient.t :=
  TraktClient.mk (fun _ => Raise Samples.unavailable) (fun _ => Raise Samples.unavailable)
    (fun _ => Raise Samples.unavailable) (fun _ => Raise Samples.unavailable)
    (fun _ _ => Raise Samples.unavailable) (fun _ _ => Raise Samples.unavailable).

End FetchSpec.

Module FilterSpec.
Import CollectionFilter.

(** The limit of the configuration is absent, zero or positive. *)
Definition limit_not_negative (config : CollectionConfig.t) : Prop :=
  match CollectionConfig.limit config with
  | Some n => 0 <= n
  | None => True
  end.

(** What a filter demands of the attributes an item carries. *)
Definition respects (f : CollectionFilter.t) (x : MediaItem.t) : Prop :=
  (∀ y g, MediaItem.year x = Some y → y ≠ 0 →
     year_gte f = Some g → g ≠ 0 → g <= y)
  ∧ (∀ y g, MediaItem.year x = Some y → y ≠ 0 →
       year_lte f = Some g → g ≠ 0 → y <= g)
  ∧ (∀ v g, MediaItem.vote_average x = Some v → ¬ (v == 0)%Q →
       vote_average_gte f = Some g → ¬ (g == 0)%Q → (g <= v)%Q)
  ∧ (∀ v g, MediaItem.vote_average x = Some v → ¬ (v == 0)%Q →
       critic_rating_gte f = Some g → ¬ (g == 0)%Q → (g <= v)%Q)
  ∧ (∀ n g, MediaItem.vote_count x = Some n → n ≠ 0 →
       tmdb_vote_count_gte f = Some g → g ≠ 0 → g <= n)
  ∧ (∀ c, MediaItem.original_country x = Some c → c ≠ "" →
       (c ∉ country_not f) ∧ (c ∉ origin_country_not f))
  ∧ (∀ l, MediaItem.original_language x = Some l → l ≠ "" → l ∉ original_language_not f)
  ∧ (∀ g, g ∈ MediaItem.genres x → Filters.genre_id g ∉ without_genres f)
  ∧ (with_genres f ≠ [] → MediaItem.genres x ≠ [] →
       ∃ g, g ∈ MediaItem.genres x ∧ Filters.genre_id g ∈ with_genres f).

Definition titled (title : string) (year : Z) (tmdb_id : Z) (genres : list Genre)
    (language : string) : MediaItem.t :=
  MediaItem.mk title (Some year) MOVIE (Some tmdb_id) None None genres None None
    (Some language) None.

(** Films released from 2015 on, not in Japanese, not animated, at
    most two of them. *)
Definition recent_live_action : CollectionConfig.t :=
  FilterSamples.with_filters
    (CollectionFilter.mk (Some 2015) None None None None [] [] ["ja"] [] [16]) (Some 2).

Definition catalog : list MediaItem.t :=
  [titled "Dune: Part Two" 2024 693134 [GInt 878; GInt 12] "en";
   titled "Your Name" 2016 372058 [GInt 16; GInt 18] "ja";
   titled "Heat" 1995 949 [GInt 80] "en";
   titled "Oppenheimer" 2023 872585 [GStr "18"; GStr "36"] "en";
   titled "The Batman" 2022 414906 [GInt 80] "en"].

End FilterSpec.

Module SortSpec.
Import CollectionItem.

(** [date(x.year, 1, 1)] is evaluated and fails: the item has no premiere
    date and a year that is not zero and lies outside 1..9999. *)
Definition year_out_of_range (x : CollectionItem.t) : bool :=
  match premiere_date x, year x with
  | None, Some y => (y <? 0) || (9999 <? y)
  | _, _ => false
  end.

Definition dated (title : string) (year : option Z) (premiere_date : option date.t)
  : CollectionItem.t :=
  CollectionItem.mk title year None None None (Some title) "movie" true true
    None premiere_date None None None.

End SortSpec.

Module GenreSpec.
Import CollectionFilter.

(** The genres of the item are names in ASCII, as Trakt gives them
    ([science-fiction]), not TMDb numbers: none is an int or a string of
    digits. *)
Definition named_genres (x : MediaItem.t) : bool :=
  truthy_list (MediaItem.genres x)
  && forallb (fun g => match g with
                       | GStr s => isascii s && negb (Filters.isdigit s)
                       | GInt _ => false
                       end) (MediaItem.genres x).

(** The same filter without its list of excluded genres. *)
Definition without_excluded_genres (f : CollectionFilter.t) : CollectionFilter.t :=
  mk (year_gte f) (year_lte f) (vote_average_gte f) (critic_rating_gte f)
     (tmdb_vote_count_gte f) (country_not f) (origin_country_not f)
     (original_language_not f) (with_genres f) [].

Definition from_trakt (title : string) (tmdb_id : Z) (genres : list string) : MediaItem.t :=
  MediaItem.mk title None MOVIE (Some tmdb_id) None None (map GStr genres) None None
    None None.

Definition trakt_catalog : list MediaItem.t :=
  [from_trakt "Your Name" 372058 ["anime"; "drama"];
   from_trakt "Heat" 949 ["crime"; "thriller"]].

Definition no_animation : CollectionConfig.t :=
  FilterSamples.with_filters
    (CollectionFilter.mk None None None None None [] [] [] [] [16]) None.

Definition unfiltered : CollectionConfig.t :=
  FilterSamples.with_filters
    (CollectionFilter.mk None None None None None [] [] [] [] []) None.

Definition only_crime : CollectionConfig.t :=
  FilterSamples.with_filters
    (CollectionFilter.mk None None None None None [] [] [] [80] []) None.

End GenreSpec.

Module BuildSpec.
Import CollectionConfig.

(** The configuration names no source at all. *)
Definition names_no_source (config : CollectionConfig.t) : bool :=
  negb (truthy_int (tmdb_trending_weekly config))
  && negb (truthy_int (tmdb_trending_daily config))
  && negb (truthy_int (tmdb_popular config))
  && negb (truthy_dict (tmdb_discover config))
  && negb (truthy_int (trakt_trending config))
  && negb (truthy_int (trakt_popular config))
  && negb (truthy_dict (trakt_chart config))
  && negb (truthy_dict (plex_search config)).

(** The configuration has a Trakt chart whose kind is written as a
    number. *)
Definition chart_kind_not_a_string (config : CollectionConfig.t) : bool :=
  truthy_dict (trakt_chart config)
  && match dict_get (Fetch.dict_or (trakt_chart config)) "chart" with
     | Some (AStr _) | None => false
     | Some _ => true
     end.

(** A configuration whose only option is a library search. *)
Definition search_only : CollectionConfig.t :=
  CollectionConfig.mk "Search" "daily" None None None CUSTOM CollectionFilter.default None
    None None None None None None None (Some [("genre", AStr "Action")])
    None None None None None None None None.

(** A matcher that finds the items with an even TMDb ID and no other. *)
Definition finds_even (item : MediaItem.t) (library_id : string)
  : result (option LibraryItem.t) :=
  Ok (match MediaItem.tmdb_id item with
      | Some i =>
        if Z.even i
        then Some (LibraryItem.mk (String.append "jf-" (MediaItem.title item))
                     (MediaItem.title item) (MediaItem.year item) MOVIE (Some i) None None
                     library_id "Films")
        else None
      | None => None
      end).

End BuildSpec.

Module SyncView.
Import JellyfinClient Sync SyncSpec.

(** The members the server reports for the collection of this name
    before the run; none when there is no such collection. *)
Definition current_of (name : string) (jf : JellyfinClient.t) : gset string :=
  match find_by_name name jf with
  | Some c => members (Id c) jf
  | None => ∅
  end.

Definition exists_on (name : string) (jf : JellyfinClient.t) : bool :=
  match find_by_name name jf with Some _ => true | None => false end.

(** The identifier the run works on: that of the collection found by
    name, or the one the server hands out for a new collection. *)
Definition id_of (name : string) (jf : JellyfinClient.t) : string :=
  match find_by_name name jf with
  | Some c => Id c
  | None => fst (create_collection name jf)
  end.

(** The titles a run appends to [report.added_titles]: those of the
    items of the collection whose Jellyfin id is to be added. *)
Definition added_titles_of (collection : Collection.t) (to_add : gset string)
  : list string :=
  map CollectionItem.title
    (List.filter (fun item => match CollectionItem.jellyfin_id item with
                              | Some j => bool_decide (j ∈ to_add)
                              | None => false
                              end) (Collection.items collection)).

(** A membership request names the collection [cid], adds members of
    [target] only and removes members of [current] only. *)
Definition within (cid : string) (target current : gset string) (c : Call) : Prop :=
  match c with
  | JfAddToCollection id ids => id = cid ∧ ∀ x, x ∈ ids → x ∈ target
  | JfRemoveFromCollection id ids => id = cid ∧ ∀ x, x ∈ ids → x ∈ current
  | _ => False
  end.

(** A membership request leaves alone what is both on the server and in
    the target. *)
Definition spares (target current : gset string) (c : Call) : Prop :=
  match c with
  | JfAddToCollection _ ids => ∀ x, x ∈ ids → x ∉ current
  | JfRemoveFromCollection _ ids => ∀ x, x ∈ ids → x ∉ target
  | _ => True
  end.

(** A collection to be shown by premiere date, one of whose items has
    neither a premiere date nor a usable year. *)
Definition undated : Collection.t :=
  Collection.mk (Samples.config "Trending" PREMIERE_DATE (Some 20) None) "Films"
    [SortSpec.dated "Dune" (Some 2021) None; SortSpec.dated "Lost" (Some (-1)) None] 2 2 0.

End SyncView.

Module ArrSpec.
Import Sync CollectionItem.

Definition is_series (item : CollectionItem.t) : bool :=
  String.eqb (media_type item) "series".

(** The items of the collection that are not in the library. *)
Definition missing_of (collection : Collection.t) : list CollectionItem.t :=
  List.filter (fun item => negb (in_library item)) (Collection.items collection).

(** A request to Radarr or Sonarr made for one of [items]: a movie
    request carries the TMDb ID of a missing item that is not a series, a
    series request is made for a missing series, and either carries the
    folder and profile of the configuration. *)
Definition requested_for (config : CollectionConfig.t) (items : list CollectionItem.t)
    (c : Call) : Prop :=
  match c with
  | RadarrAddMovie tmdb_id root_folder quality_profile _ =>
    (∃ item, item ∈ items ∧ in_library item = false ∧ is_series item = false
             ∧ CollectionItem.tmdb_id item = Some tmdb_id)
    ∧ tmdb_id ≠ 0
    ∧ root_folder = CollectionConfig.radarr_root_folder config
    ∧ quality_profile = CollectionConfig.radarr_quality_profile config
  | SonarrAddSeries tvdb_id root_folder quality_profile _ =>
    (∃ item, item ∈ items ∧ in_library item = false ∧ is_series item = true)
    ∧ tvdb_id ≠ 0
    ∧ root_folder = CollectionConfig.sonarr_root_folder config
    ∧ quality_profile = CollectionConfig.sonarr_quality_profile config
  | _ => False
  end.

(** What the loop of [_add_missing_to_arr] has done when it stops:
    the requests [more] it made, the titles [rt] and [stl] it reported as
    sent to Radarr and to Sonarr, and the counters. *)
Definition loop_post (config : CollectionConfig.t) (items missing : list CollectionItem.t)
    (rc sc : nat) (st : State) (out : result (nat * nat) * State)
    (more : list Call) (rt stl : list string) : Prop :=
  calls (snd out) = calls st ++ more
  ∧ Forall (requested_for config items) more
  ∧ CollectionReport.radarr_titles (report (snd out))
    = CollectionReport.radarr_titles (report st) ++ rt
  ∧ CollectionReport.sonarr_titles (report (snd out))
    = CollectionReport.sonarr_titles (report st) ++ stl
  ∧ sublist rt (map CollectionItem.title
                  (List.filter (fun x => negb (is_series x)) missing))
  ∧ sublist stl (map CollectionItem.title (List.filter is_series missing))
  ∧ (∀ rc' sc', fst out = Ok (rc', sc') →
       rc' = (rc + length rt)%nat ∧ sc' = (sc + length stl)%nat)
  ∧ (length rt + length stl <= length more)%nat
  ∧ (length more <= length missing)%nat.

(** Every lookup of series details on TMDb answers. *)
Definition lookups_answer (self : CollectionBuilder) : Prop :=
  ∀ tmdb_id, is_ok (TMDbClient.get_series_details (tmdb self) tmdb_id) = true.

(** The TMDb id [_add_missing_to_arr] looks up for an item, if it looks
    one up: that of a series with a TMDb id and no TVDB id, when a Sonarr
    client is configured. *)
Definition looked_up (self : CollectionBuilder) (item : CollectionItem.t) : option Z :=
  match sonarr self with
  | Some _ =>
    if is_series item && negb (truthy_int (tvdb_id item)) && truthy_int (tmdb_id item)
    then Some (Filters.unwrap_int (tmdb_id item)) else None
  | None => None
  end.

(** The lookup made for the item, if any, answers. *)
Definition lookup_answers (self : CollectionBuilder) (item : CollectionItem.t) : bool :=
  match looked_up self item with
  | Some id => is_ok (TMDbClient.get_series_details (tmdb self) id)
  | None => true
  end.

Definition missing_movie (title : string) (tmdb_id : Z) : CollectionItem.t :=
  CollectionItem.mk title None (Some tmdb_id) None None None "movie" false false
    None None None None None.

Definition missing_series (title : string) (tmdb_id : Z) (tvdb_id : option Z)
  : CollectionItem.t :=
  CollectionItem.mk title None (Some tmdb_id) None tvdb_id None "series" false false
    None None None None None.

(** A Radarr that accepts movies with an even TMDb ID and fails on the
    others; a Sonarr that fails on every series. *)
Definition radarr_even : RadarrClient.t :=
  RadarrClient.mk (fun tmdb_id _ _ _ =>
    if Z.even tmdb_id then Ok tt else Raise (HTTPStatusError "400 Bad Request")).

Definition sonarr_down : SonarrClient.t :=
  SonarrClient.mk (fun _ _ _ _ => Raise Samples.unavailable).

Definition arr_builder : CollectionBuilder :=
  mk_builder (Samples.tmdb_client (Ok []) (Ok [])) None (Some radarr_even)
    (Some sonarr_down) false.

(** The same builder with a TMDb whose series details fail. *)
Definition arr_builder_no_details : CollectionBuilder :=
  mk_builder
    (TMDbClient.mk (fun _ _ => Ok []) (fun _ _ => Ok []) (fun _ => Ok [])
       (fun _ => Ok []) (fun _ => Ok []) (fun _ => Ok [])
       (fun _ => Raise Samples.unavailable))
    None (Some radarr_even) (Some sonarr_down) false.

Definition wanted : Collection.t :=
  Collection.mk (Samples.config "Wanted" CUSTOM (Some 20) None) "Films"
    [SortSamples.entry "A" (Some "jf-1"); missing_movie "B" 2; missing_movie "C" 3;
     missing_series "D" 4 (Some 40); missing_series "E" 5 None] 5 1 4.

End ArrSpec.

Module PipelineSpec.

(** The Jellyfin id of the library item the matcher finds for a catalog
    item, if it finds one. *)
Definition found_id (find_in_library : MediaItem.t -> string -> result (option LibraryItem.t))
    (library_id : string) (x : MediaItem.t) : option string :=
  match find_in_library x library_id with
  | Ok (Some lib) => Some (LibraryItem.jellyfin_id lib)
  | _ => None
  end.

End PipelineSpec.

(** ** The lookups of the Radarr and Sonarr clients

    [jfc.clients.radarr.RadarrClient] and
    [jfc.clients.sonarr.SonarrClient] resolve the quality profile, the
    root folder and the tags of a request with the same three methods, word
    for word. *)

Module Radarr.

(** The fields the client reads of an entry of [/api/v3/qualityprofile]
    and of [/api/v3/tag]. *)
Record profile : Type := mk_profile { name : string; id : Z }.
Record tag : Type := mk_tag { label : string; tag_id : Z }.

(** What the server answers to the requests of these methods, after
    [response.raise_for_status()]: the profiles, the [path] of each root
    folder, the tags, and the id of a tag it is asked to create. *)
Record server : Type := mk_server {
  get_quality_profiles : result (list profile);
  get_root_folders : result (list string);
  get_tags : result (list tag);
  post_tag : string -> result Z
}.

(** The ids the client caches. *)
Record client : Type := mk_client {
  _quality_profile_id : option Z;
  _tag_id : option Z
}.

Definition get_quality_profile_id `{Unicode} (srv : server) (name' : string)
    (self : client)
  : result (option Z) * client :=
  if truthy_int (_quality_profile_id self) then (Ok (_quality_profile_id self), self)
  else
    match get_quality_profiles srv with
    | Raise e => (Raise e, self)
    | Ok profiles =>
      match List.find (fun p => String.eqb (lower (name p)) (lower name')) profiles with
      | Some p => (Ok (Some (id p)), mk_client (Some (id p)) (_tag_id self))
      | None => (Ok None, self)
      end
    end.

(** [path.startswith(folder["path"])] *)
Definition startswith (path folder : string) : bool := String.prefix folder path.

Definition get_root_folder_path (srv : server) (path : string) : result (option string) :=
  folders ← get_root_folders srv;
  mret (match List.find (fun folder => String.eqb folder path || startswith path folder)
                folders with
        | Some folder => Some folder
        | None =>
          (* Return first folder if path not found *)
          match folders with
          | folder :: _ => Some folder
          | [] => None
          end
        end).

Definition get_or_create_tag `{Unicode} (srv : server) (name' : string) (self : client)
  : result Z * client :=
  if truthy_int (_tag_id self) then (Ok (Filters.unwrap_int (_tag_id self)), self)
  else
    match get_tags srv with
    | Raise e => (Raise e, self)
    | Ok tags =>
      match List.find (fun t => String.eqb (lower (label t)) (lower name')) tags with
      | Some t => (Ok (tag_id t), mk_client (_quality_profile_id self) (Some (tag_id t)))
      | None =>
        (* Create tag *)
        match post_tag srv name' with
        | Raise e => (Raise e, self)
        | Ok tag_id' => (Ok tag_id', mk_client (_quality_profile_id self) (Some tag_id'))
        end
      end
    end.

(** The loop of [add_movie] and [add_series] over [tags or
    [self.default_tag]], collecting [tag_ids]. *)
Fixpoint tag_ids_loop `{Unicode} (srv : server) (names : list string) (tag_ids : list Z)
    (self : client) : result (list Z) * client :=
  match names with
  | [] => (Ok tag_ids, self)
  | tag_name :: rest =>
    match get_or_create_tag srv tag_name self with
    | (Raise e, self) => (Raise e, self)
    | (Ok tag_id', self) => tag_ids_loop srv rest (tag_ids ++ [tag_id']) self
    end
  end.

Definition tag_ids_of `{Unicode} (srv : server) (tags : option (list string))
    (default_tag : string)
    (self : client) : result (list Z) * client :=
  tag_ids_loop srv (match tags with
                    | Some (t :: r) => t :: r
                    | _ => [default_tag]
                    end) [] self.

(** A client that has cached nothing yet. *)
Definition new_client : client := mk_client None None.

(** A server with two profiles, two root folders and one tag. *)
Definition sample_server : server :=
  mk_server (Ok [mk_profile "HD-1080p" 4; mk_profile "Ultra-HD" 6])
    (Ok ["/data/movies"; "/data/movies-4k"])
    (Ok [mk_tag "jfc" 7])
    (fun _ => Ok 8).

(** A server whose two profiles differ in case only, accents included. *)
Definition accented_server : server :=
  mk_server (Ok [mk_profile "HD FRANÇAIS" 9; mk_profile "hd français" 10])
    (Ok []) (Ok []) (fun _ => Ok 8).

End Radarr.

(** ** Run summaries ([jfc.models.report]) *)

Module LibraryReport.

(** A collection report together with its [success] flag, which
    [CollectionReport.t] leaves out. *)
Record t : Type := mk {
  name : string;
  media_type : string;
  collections : list (CollectionReport.t * bool)
}.

(** [sum(f(c) for c in self.collections)] *)
Definition sum_of {A} (f : A -> nat) (l : list A) : nat :=
  fold_left (fun acc c => (acc + f c)%nat) l O.

Definition total_collections (self : t) : nat := length (collections self).

Definition successful_collections (self : t) : nat :=
  sum_of (fun _ => 1%nat) (List.filter (fun c => snd c) (collections self)).

Definition failed_collections (self : t) : nat :=
  sum_of (fun _ => 1%nat) (List.filter (fun c => negb (snd c)) (collections self)).

Definition total_items_added (self : t) : nat :=
  sum_of (fun c => CollectionReport.items_added_to_collection (fst c)) (collections self).

Definition total_items_removed (self : t) : nat :=
  sum_of (fun c => CollectionReport.items_removed_from_collection (fst c))
    (collections self).

Definition total_radarr_requests (self : t) : nat :=
  sum_of (fun c => CollectionReport.items_sent_to_radarr (fst c)) (collections self).

Definition total_sonarr_requests (self : t) : nat :=
  sum_of (fun c => CollectionReport.items_sent_to_sonarr (fst c)) (collections self).

End LibraryReport.

Module RunReport.
Import LibraryReport.

Record t : Type := mk {
  run_id : string;
  scheduled : bool;
  dry_run : bool;
  libraries : list LibraryReport.t
}.

Definition total_collections (self : t) : nat :=
  sum_of LibraryReport.total_collections (libraries self).
Definition successful_collections (self : t) : nat :=
  sum_of LibraryReport.successful_collections (libraries self).
Definition failed_collections (self : t) : nat :=
  sum_of LibraryReport.failed_collections (libraries self).
Definition total_items_added (self : t) : nat :=
  sum_of LibraryReport.total_items_added (libraries self).
Definition total_items_removed (self : t) : nat :=
  sum_of LibraryReport.total_items_removed (libraries self).
Definition total_radarr_requests (self : t) : nat :=
  sum_of LibraryReport.total_radarr_requests (libraries self).
Definition total_sonarr_requests (self : t) : nat :=
  sum_of LibraryReport.total_sonarr_requests (libraries self).

(** The collection reports of a run, library after library. *)
Definition all_collections (self : t) : list (CollectionReport.t * bool) :=
  concat (map collections (libraries self)).

End RunReport.

Module ReportView.
Import CollectionReport.

(** The part of a collection report that [build_collection] fills
    in. *)
Definition build_part (r : CollectionReport.t) :=
  (name r, library r, schedule r, source_provider r, items_fetched r,
   items_after_filter r, items_matched r, items_missing r,
   fetched_titles r, matched_titles r, missing_titles r).

(** The part that the end of [sync_collection] - the counts, the
    metadata, the poster and the requests to Radarr and Sonarr - has no
    business with. *)
Definition settled_part (r : CollectionReport.t) :=
  (build_part r, collection_existed r, added_titles r).

End ReportView.

Module EmptySpec.
Import SortSamples.

(** A collection none of whose items is in the library. *)
Definition unmatched : Collection.t :=
  Collection.mk (Samples.config "Trending" SORT_NAME (Some 20) None) "Films"
    [entry "A" None; entry "B" None] 2 0 2.

End EmptySpec.
(** * Properties *)

(* stdpp's solvers clear hypotheses by name. *)
Set Warnings "-clear-no-such-hyp".

(** ** The result monad *)

Module ResultFacts.

Lemma bind_Ok {A B} (x : A) (k : A → result B) : (Ok x ≫= k) = k x.
Proof. reflexivity. Qed.

Lemma bind_Raise {A B} e (k : A → result B) : (Raise e ≫= k) = Raise e.
Proof. reflexivity. Qed.

End ResultFacts.

(** ** Listing a set *)

Module SetFacts.

Lemma size_list_to_set_le (l : list string) :
  (size (list_to_set l : gset string) <= length l)%nat.
Proof.
  induction l as [|x l IH]; [done|]. rewrite list_to_set_cons. simpl.
  destruct (decide (x ∈ (list_to_set l : gset string))) as [Hx|Hx].
  - replace ({[x]} ∪ list_to_set l) with (list_to_set l : gset string) by set_solver. lia.
  - rewrite size_union by set_solver. rewrite size_singleton. lia.
Qed.

Lemma NoDup_of_size (l : list string) :
  size (list_to_set l : gset string) = length l → NoDup l.
Proof.
  induction l as [|x l IH]; [constructor|]. rewrite list_to_set_cons. simpl. intros Hs.
  destruct (decide (x ∈ (list_to_set l : gset string))) as [Hx|Hx].
  - replace ({[x]} ∪ list_to_set l) with (list_to_set l : gset string) in Hs
      by set_solver.
    pose proof (size_list_to_set_le l). lia.
  - rewrite size_union, size_singleton in Hs by set_solver.
    constructor; [by rewrite elem_of_list_to_set in Hx|]. apply IH. lia.
Qed.

(** Whatever order the interpreter answers, [list(s)] is the elements of
    [s], each once. *)
Lemma list_of_set_perm order (s : gset string) : list_of_set order s ≡ₚ elements s.
Proof.
  unfold list_of_set. destruct (_ && _) eqn:E; [|done].
  apply andb_true_iff in E. destruct E as [E1 E2].
  apply bool_decide_eq_true in E1. apply Nat.eqb_eq in E2.
  rewrite <- E1 at 2. symmetry. apply elements_list_to_set.
  apply NoDup_of_size. by rewrite E1.
Qed.

Lemma elem_of_list_of_set order (s : gset string) x : x ∈ list_of_set order s ↔ x ∈ s.
Proof. by rewrite list_of_set_perm, elem_of_elements. Qed.

Lemma list_to_set_list_of_set order (s : gset string) :
  (list_to_set (list_of_set order s) : gset string) = s.
Proof. apply set_eq. intros x. by rewrite elem_of_list_to_set, elem_of_list_of_set. Qed.

Lemma NoDup_list_of_set order (s : gset string) : NoDup (list_of_set order s).
Proof. rewrite list_of_set_perm. apply NoDup_elements. Qed.

Lemma length_list_of_set order (s : gset string) : length (list_of_set order s) = size s.
Proof. by rewrite list_of_set_perm. Qed.

End SetFacts.
Export SetFacts.
Export ResultFacts.

(** ** Fetching and deduplication *)

Module FetchFacts.
Import Fetch.

Lemma fold_dedup_step l seen acc :
  snd (fold_left dedup_step l (seen, acc)) = acc ++ kept seen l.
Proof.
  revert seen acc. induction l as [|item r IH]; intros seen acc; simpl.
  - by rewrite app_nil_r.
  - destruct (MediaItem.tmdb_id item) as [i|]; [|apply IH].
    destruct (negb (i =? 0) && bool_decide (i ∉ seen)); [|apply IH].
    rewrite IH, <- app_assoc. done.
Qed.

Lemma deduplicate_kept l : deduplicate l = kept ∅ l.
Proof. unfold deduplicate. by rewrite fold_dedup_step. Qed.

Lemma kept_sublist seen l : sublist (kept seen l) l.
Proof.
  revert seen. induction l as [|item r IH]; intros seen; simpl; [constructor|].
  destruct (MediaItem.tmdb_id item) as [i|]; [|by constructor].
  destruct (negb (i =? 0) && bool_decide (i ∉ seen)); by constructor.
Qed.

Lemma kept_has_id seen l x :
  x ∈ kept seen l →
  ∃ i, MediaItem.tmdb_id x = Some i ∧ i ≠ 0 ∧ i ∉ seen.
Proof.
  revert seen. induction l as [|item r IH]; intros seen; simpl.
  - intros Hin. by apply elem_of_nil in Hin.
  - destruct (MediaItem.tmdb_id item) as [i|] eqn:Hid; [|apply IH].
    destruct (negb (i =? 0) && bool_decide (i ∉ seen)) eqn:Hc; [|apply IH].
    apply andb_true_iff in Hc. destruct Hc as [Hnz Hns].
    apply negb_true_iff in Hnz. apply Z.eqb_neq in Hnz.
    apply bool_decide_eq_true in Hns.
    intros Hin. apply elem_of_cons in Hin. destruct Hin as [->|Hin]; [by eauto|].
    destruct (IH _ Hin) as (j & ? & ? & ?). exists j. set_solver.
Qed.

Lemma kept_NoDup seen l : NoDup (MediaItem.tmdb_id <$> kept seen l).
Proof.
  revert seen. induction l as [|item r IH]; intros seen; simpl; [constructor|].
  destruct (MediaItem.tmdb_id item) as [i|] eqn:Hid; [|apply IH].
  destruct (negb (i =? 0) && bool_decide (i ∉ seen)); [|apply IH].
  rewrite fmap_cons. apply NoDup_cons. split; [|apply IH].
  rewrite Hid. intros Hin. apply list_elem_of_fmap in Hin.
  destruct Hin as (y & Hy & Hin).
  destruct (kept_has_id _ _ _ Hin) as (j & Hj & _ & Hns).
  rewrite Hj in Hy. simplify_eq. set_solver.
Qed.

Lemma kept_first seen pre x post i :
  MediaItem.tmdb_id x = Some i → i ≠ 0 → i ∉ seen →
  (∀ y, y ∈ pre → MediaItem.tmdb_id y ≠ MediaItem.tmdb_id x) →
  x ∈ kept seen (pre ++ x :: post).
Proof.
  intros Hid Hnz. revert seen.
  induction pre as [|y pre IH]; intros seen Hns Hpre; simpl.
  - rewrite Hid.
    assert (negb (i =? 0) && bool_decide (i ∉ seen) = true) as ->.
    { apply andb_true_iff. split; [by apply negb_true_iff, Z.eqb_neq|].
      by apply bool_decide_eq_true. }
    by left.
  - assert (∀ y', y' ∈ pre → MediaItem.tmdb_id y' ≠ MediaItem.tmdb_id x) as Hpre'
      by (intros; apply Hpre; by right).
    assert (MediaItem.tmdb_id y ≠ Some i) as Hy
      by (rewrite <- Hid; apply Hpre; by left).
    destruct (MediaItem.tmdb_id y) as [j|]; [|by apply IH].
    destruct (negb (j =? 0) && bool_decide (j ∉ seen)); [|by apply IH].
    right. apply IH; [|done]. set_solver.
Qed.

Lemma has_primary_id_spec x :
  has_primary_id x = true ↔ ∃ i, MediaItem.tmdb_id x = Some i ∧ i ≠ 0.
Proof.
  unfold has_primary_id, truthy_int. destruct (MediaItem.tmdb_id x) as [i|].
  - rewrite negb_true_iff, Z.eqb_neq. naive_solver.
  - naive_solver.
Qed.

(** [_fetch_items] is the deduplication of what the provider calls
    return, or the first error one of them raises. *)
Lemma gather_app a b :
  gather (a ++ b) = (x ← gather a; y ← gather b; mret (x ++ y)).
Proof.
  induction a as [|call a IH]; simpl.
  - destruct (gather b); done.
  - destruct call as [items|e]; simpl; [|done].
    rewrite IH. destruct (gather a); simpl; [|done].
    destruct (gather b); simpl; [|done].
    unfold mret, result_ret. by rewrite app_assoc.
Qed.

Lemma extend_if_all cond call items :
  extend_if cond call items = extend_all (call_if cond call) items.
Proof.
  unfold extend_if, extend_all, call_if. destruct cond; simpl.
  - destruct call; simpl; [|done]. by rewrite app_nil_r.
  - unfold mret, result_ret. by rewrite app_nil_r.
Qed.

Lemma extend_all_seq a b items :
  (items' ← extend_all a items; extend_all b items') = extend_all (a ++ b) items.
Proof.
  unfold extend_all. rewrite gather_app.
  destruct (gather a); simpl; [|done].
  destruct (gather b); simpl; [|done].
  unfold mret, result_ret. by rewrite app_assoc.
Qed.

Lemma extend_all_seq_k {B} a b items (k : list MediaItem.t → result B) :
  (items' ← extend_all a items; items'' ← extend_all b items'; k items'')
  = (items'' ← extend_all (a ++ b) items; k items'').
Proof.
  rewrite <- extend_all_seq.
  destruct (extend_all a items); simpl; done.
Qed.

Lemma extend_fuse {B} a cond call items (k : list MediaItem.t → result B) :
  (items' ← extend_all a items; items'' ← extend_if cond call items'; k items'')
  = (items'' ← extend_all (a ++ call_if cond call) items; k items'').
Proof.
  rewrite <- extend_all_seq.
  destruct (extend_all a items) as [items'|]; simpl; [|done].
  by rewrite extend_if_all.
Qed.

Lemma extend_fuse_last a cond call items :
  (items' ← extend_all a items; extend_if cond call items')
  = extend_all (a ++ call_if cond call) items.
Proof. rewrite <- extend_all_seq. destruct (extend_all a items); [apply extend_if_all|done]. Qed.

Lemma extend_all_nil_l calls : extend_all calls [] = gather calls.
Proof. unfold extend_all. by destruct (gather calls). Qed.

(** [_fetch_items] is the deduplication of what the provider calls
    return, or the first error one of them raises. *)
Lemma _fetch_items_gather tmdb trakt config media_type :
  _fetch_items tmdb trakt config media_type =
  (items ← gather (provider_calls tmdb trakt config media_type);
   mret (deduplicate items)).
Proof.
  unfold _fetch_items, provider_calls. cbv zeta.
  rewrite extend_if_all, !extend_fuse.
  rewrite <- extend_all_nil_l, !app_assoc.
  destruct trakt as [tk|].
  - rewrite <- (extend_all_seq_k _ (_ ++ _)).
    destruct (extend_all _ []) as [items|e]; rewrite ?bind_Ok, ?bind_Raise; [|done].
    by rewrite extend_if_all, extend_fuse, extend_fuse_last, <- !app_assoc.
  - rewrite app_nil_r.
    destruct (extend_all _ []) as [items|e]; rewrite ?bind_Ok, ?bind_Raise; done.
Qed.

End FetchFacts.

Module FetchTheorems.
Import Fetch FetchFacts Samples.

(** C1, as stated, fails: an item that lacks a primary ID is not kept.
    Two items without [tmdb_id] come back from the popular feed and
    [_fetch_items] returns the empty list. *)
Lemma fetch_items_drops_items_without_primary_id :
  _fetch_items (tmdb_client (Ok []) (Ok [orphan_1; orphan_2])) None
    (config "Popular" CUSTOM None (Some 20)) MOVIE = Ok []
  ∧ MediaItem.tmdb_id orphan_1 = None
  ∧ orphan_1 ∉ deduplicate [orphan_1; orphan_2].
Proof.
  split; [reflexivity|]. split; [reflexivity|].
  rewrite deduplicate_kept. simpl. apply not_elem_of_nil.
Qed.

(** C1, amended: when the provider calls return [items] in all,
    [_fetch_items] returns a list [out] that keeps the original relative
    order, holds no two items with the same [tmdb_id], holds only items
    that carry a primary ID (the others are dropped), and holds every
    first occurrence of a primary ID. *)
Theorem fetch_items_first_occurrence_wins tmdb trakt config media_type items :
  gather (provider_calls tmdb trakt config media_type) = Ok items →
  ∃ out,
    _fetch_items tmdb trakt config media_type = Ok out
    ∧ out = deduplicate items
    ∧ sublist out items
    ∧ NoDup (MediaItem.tmdb_id <$> out)
    ∧ (∀ x, x ∈ out → has_primary_id x = true)
    ∧ (∀ pre x post,
         items = pre ++ x :: post →
         has_primary_id x = true →
         (∀ y, y ∈ pre → MediaItem.tmdb_id y ≠ MediaItem.tmdb_id x) →
         x ∈ out).
Proof.
  intros Hg. exists (deduplicate items).
  rewrite _fetch_items_gather, Hg, bind_Ok.
  split; [reflexivity|]. split; [reflexivity|]. rewrite deduplicate_kept.
  split; [apply kept_sublist|]. split; [apply kept_NoDup|]. split.
  - intros x Hx. apply has_primary_id_spec.
    destruct (kept_has_id _ _ _ Hx) as (i & ? & ? & _). eauto.
  - intros pre x post -> Hx Hpre.
    apply has_primary_id_spec in Hx as (i & Hi & Hnz).
    eapply kept_first; eauto. set_solver.
Qed.

Lemma fetch_items_first_occurrence_wins_witness :
  ∃ out,
    _fetch_items (tmdb_client (Ok [item_A; item_A_dup]) (Ok [item_B])) None
      (config "Trending" CUSTOM (Some 20) (Some 20)) MOVIE = Ok out
    ∧ out = deduplicate [item_A; item_A_dup; item_B]
    ∧ sublist out [item_A; item_A_dup; item_B]
    ∧ NoDup (MediaItem.tmdb_id <$> out)
    ∧ (∀ x, x ∈ out → has_primary_id x = true)
    ∧ (∀ pre x post,
         [item_A; item_A_dup; item_B] = pre ++ x :: post →
         has_primary_id x = true →
         (∀ y, y ∈ pre → MediaItem.tmdb_id y ≠ MediaItem.tmdb_id x) →
         x ∈ out).
Proof.
  apply (fetch_items_first_occurrence_wins
           (tmdb_client (Ok [item_A; item_A_dup]) (Ok [item_B])) None
           (config "Trending" CUSTOM (Some 20) (Some 20)) MOVIE
           [item_A; item_A_dup; item_B]).
  reflexivity.
Defined.

(** The end-to-end scenario of the specification: after deduplication
    exactly the items with id 1 (title "A") and id 2 (title "B")
    remain. *)
Example deduplicate_scenario :
  deduplicate [item_A; item_A_dup; item_B] = [item_A; item_B].
Proof. rewrite deduplicate_kept. reflexivity. Qed.

Lemma gather_first_error pre e post :
  Forall (fun call => is_ok call = true) pre →
  gather (pre ++ Raise e :: post) = Raise e.
Proof.
  induction 1 as [|call pre Hok _ IH]; simpl; [done|].
  destruct call; [|done]. simpl. by rewrite IH.
Qed.

(** C4, as stated, fails: the trending feed answers with an HTTP error
    while the popular feed would return an item; [_fetch_items] raises
    that error, and so does [build_collection]. *)
Lemma fetch_items_source_error_aborts :
  let self := builder (tmdb_client (Raise unavailable) (Ok [item_B])) false in
  let cfg := config "Trending" CUSTOM (Some 20) (Some 20) in
  _fetch_items (Sync.tmdb self) (Sync.trakt self) cfg MOVIE = Raise unavailable
  ∧ Build.build_collection self (fun _ _ => Ok None) cfg "Films" "lib-001" MOVIE
    = Raise unavailable.
Proof. split; reflexivity. Qed.

(** C4, amended: when a provider call raises and the calls made before
    it returned, [_fetch_items] raises that same error - no item list is
    returned - and [build_collection], once the report is initialised,
    raises it too. *)
Theorem fetch_items_propagates_source_error `{U : Unicode}
    self config media_type pre e post :
  provider_calls (Sync.tmdb self) (Sync.trakt self) config media_type
    = pre ++ Raise e :: post →
  Forall (fun call => is_ok call = true) pre →
  _fetch_items (Sync.tmdb self) (Sync.trakt self) config media_type = Raise e
  ∧ ∀ find_in_library library_name library_id,
      is_ok (Build._get_source_provider config) = true →
      Build.build_collection self find_in_library config library_name library_id
        media_type = Raise e.
Proof.
  intros Hcalls Hpre.
  assert (_fetch_items (Sync.tmdb self) (Sync.trakt self) config media_type = Raise e) as Hf.
  { by rewrite _fetch_items_gather, Hcalls, gather_first_error. }
  split; [done|]. intros find library_name library_id Hsrc.
  unfold Build.build_collection.
  destruct (Build._get_source_provider config); [|done].
  rewrite bind_Ok, Hf. reflexivity.
Qed.

Lemma fetch_items_propagates_source_error_witness :
  let self := builder (tmdb_client (Ok [item_A]) (Raise unavailable)) false in
  let cfg := config "Trending" CUSTOM (Some 20) (Some 20) in
  _fetch_items (Sync.tmdb self) (Sync.trakt self) cfg MOVIE = Raise unavailable
  ∧ ∀ find_in_library library_name library_id,
      is_ok (Build._get_source_provider cfg) = true →
      Build.build_collection self find_in_library cfg library_name library_id MOVIE
        = Raise unavailable.
Proof.
  intros self cfg.
  apply (fetch_items_propagates_source_error self cfg MOVIE [Ok [item_A]] unavailable []).
  - reflexivity.
  - repeat constructor.
Defined.

End FetchTheorems.

(** ** Filters *)

Module FilterTheorems.
Import Filters FilterSamples.

Lemma keeps_without_year f item :
  MediaItem.year item = None → keeps f item = keeps (without_year_filters f) item.
Proof.
  intros H. unfold keeps, without_year_filters; simpl. rewrite H; simpl.
  by rewrite ?andb_false_r.
Qed.

Lemma keeps_without_rating f item :
  MediaItem.vote_average item = None →
  keeps f item = keeps (without_rating_filters f) item.
Proof.
  intros H. unfold keeps, without_rating_filters; simpl. rewrite H; simpl.
  by rewrite ?andb_false_r.
Qed.

Lemma keeps_without_vote_count f item :
  MediaItem.vote_count item = None →
  keeps f item = keeps (without_vote_count_filter f) item.
Proof.
  intros H. unfold keeps, without_vote_count_filter; simpl. rewrite H; simpl.
  by rewrite ?andb_false_r.
Qed.

Lemma keeps_without_country f item :
  MediaItem.original_country item = None →
  keeps f item = keeps (without_country_filters f) item.
Proof.
  intros H. unfold keeps, without_country_filters; simpl. rewrite H; simpl.
  by rewrite ?andb_false_r.
Qed.

Lemma keeps_without_language f item :
  MediaItem.original_language item = None →
  keeps f item = keeps (without_language_filter f) item.
Proof.
  intros H. unfold keeps, without_language_filter; simpl. rewrite H; simpl.
  by rewrite ?andb_false_r.
Qed.

Lemma keeps_without_genres f item :
  MediaItem.genres item = [] →
  keeps f item = keeps (without_genre_filters f) item.
Proof.
  intros H. unfold keeps, without_genre_filters; simpl. rewrite H; simpl.
  by rewrite ?andb_false_r.
Qed.

Lemma keeps_bare f item : bare item → keeps f item = true.
Proof.
  intros (Hy & Hr & Hc & Ho & Hl & Hg).
  rewrite keeps_without_year, keeps_without_rating, keeps_without_vote_count,
    keeps_without_country, keeps_without_language, keeps_without_genres by done.
  reflexivity.
Qed.

Lemma _apply_filters_unlimited items config :
  truthy_int (CollectionConfig.limit config) = false →
  _apply_filters items config = List.filter (keeps (CollectionConfig.filters config)) items.
Proof. intros H. unfold _apply_filters. by rewrite H. Qed.

(** C8: [_apply_filters] never excludes an item because of an attribute
    the item does not carry.  For each attribute, when the item lacks it
    the verdict of the filter chain is the verdict of the chain with the
    tests on that attribute switched off; an item that carries none of
    the tested attributes passes every filter configuration and, no
    limit being set, is in the output; and an item with no [vote_count]
    passes a [vote_count_gte] filter. *)
Theorem apply_filters_absence_never_excludes (f : CollectionFilter.t) (item : MediaItem.t) :
  (MediaItem.year item = None → keeps f item = keeps (without_year_filters f) item)
  ∧ (MediaItem.vote_average item = None →
       keeps f item = keeps (without_rating_filters f) item)
  ∧ (MediaItem.vote_count item = None →
       keeps f item = keeps (without_vote_count_filter f) item)
  ∧ (MediaItem.original_country item = None →
       keeps f item = keeps (without_country_filters f) item)
  ∧ (MediaItem.original_language item = None →
       keeps f item = keeps (without_language_filter f) item)
  ∧ (MediaItem.genres item = [] →
       keeps f item = keeps (without_genre_filters f) item)
  ∧ (bare item →
       ∀ items limit, truthy_int limit = false → item ∈ items →
         item ∈ _apply_filters items (with_filters f limit))
  ∧ (MediaItem.vote_count item = None →
       ∀ n items, item ∈ items →
         item ∈ _apply_filters items (with_filters (vote_count_filter n) None)).
Proof.
  split; [apply keeps_without_year|]. split; [apply keeps_without_rating|].
  split; [apply keeps_without_vote_count|]. split; [apply keeps_without_country|].
  split; [apply keeps_without_language|]. split; [apply keeps_without_genres|].
  split.
  - intros Hb items limit Hl Hin. rewrite _apply_filters_unlimited by done.
    apply list_elem_of_In, filter_In. split; [by apply list_elem_of_In|].
    by apply keeps_bare.
  - intros Hc n items Hin. rewrite _apply_filters_unlimited by done.
    apply list_elem_of_In, filter_In. split; [by apply list_elem_of_In|].
    simpl. by rewrite keeps_without_vote_count.
Qed.

Lemma apply_filters_absence_never_excludes_witness :
  _apply_filters [unrated_count] (with_filters (vote_count_filter 500) None)
  = [unrated_count]
  ∧ unrated_count ∈
      _apply_filters [unrated_count] (with_filters (vote_count_filter 500) None).
Proof.
  split; [reflexivity|].
  destruct (apply_filters_absence_never_excludes (vote_count_filter 500) unrated_count)
    as (_ & _ & _ & _ & _ & _ & _ & H).
  apply (H eq_refl 500 [unrated_count]). by left.
Defined.

End FilterTheorems.

(** ** Title normalisation *)

Module NormalizeFacts.
Import MediaMatcher.

Ltac by_cases_on c := destruct c as [[] [] [] [] [] [] [] []]; vm_compute; congruence.

Lemma lower_ascii_idem c : lower_ascii (lower_ascii c) = lower_ascii c.
Proof. by_cases_on c. Qed.

Lemma settled_lower c : settled c = true → lower_ascii c = c.
Proof. by_cases_on c. Qed.

Lemma settled_replace c : settled c = true → replace_punct c = c.
Proof. by_cases_on c. Qed.

Lemma replace_lowered_settled c : settled (replace_punct (lower_ascii c)) = true.
Proof. by_cases_on c. Qed.

Lemma space_not_eqb c : is_space c = false → Ascii.eqb c " " = false.
Proof. by_cases_on c. Qed.

Lemma after_word_suffix w l r : after_word w l = Some r → ∃ p, l = p ++ r.
Proof.
  revert l. induction w as [|a w IH]; intros [|c l]; simpl; try done.
  - destruct (is_space c); [|done]. intros [= <-]. by exists [].
  - destruct (Ascii.eqb a c); [|done]. intros Hr.
    destruct (IH _ Hr) as [p ->]. by exists (c :: p).
Qed.

Lemma leading_article_suffix arts l r :
  leading_article arts l = Some r → ∃ p, l = p ++ r.
Proof.
  induction arts as [|a arts IH]; simpl; [done|].
  destruct (after_word a l) eqn:E; [|done].
  intros [= <-]. by eapply after_word_suffix.
Qed.

Lemma strip_article_Forall (P : ascii → Prop) l :
  Forall P l → Forall P (strip_article l).
Proof.
  unfold strip_article. destruct (leading_article articles l) eqn:E; [|done].
  destruct (leading_article_suffix _ _ _ E) as [p ->].
  intros H. by apply Forall_app in H as [_ ?].
Qed.

Lemma squeeze_Forall (P : ascii → Prop) l :
  P " "%char → Forall P l → Forall P (squeeze l).
Proof.
  intros Hsp. induction 1 as [|c r Hc _ IH]; simpl; [constructor|].
  destruct (is_space c); [|by constructor].
  destruct (squeeze r) as [|d r']; [constructor|].
  destruct (Ascii.eqb d " "); [done|by constructor].
Qed.

Lemma collapse_Forall (P : ascii → Prop) l :
  P " "%char → Forall P l → Forall P (collapse l).
Proof.
  intros Hsp Hl. unfold collapse.
  pose proof (squeeze_Forall P l Hsp Hl) as H.
  destruct (squeeze l) as [|c r]; [constructor|].
  destruct (Ascii.eqb c " "); [by inversion H|done].
Qed.

(** Every whitespace character [squeeze] leaves is a space. *)
Lemma squeeze_spaces l :
  Forall (fun c => is_space c = true → c = " "%char) (squeeze l).
Proof.
  induction l as [|c r IH]; simpl; [constructor|].
  destruct (is_space c) eqn:Hc.
  - destruct (squeeze r) as [|d r']; [constructor|].
    destruct (Ascii.eqb d " "); [done|by constructor].
  - constructor; [congruence|done].
Qed.

Lemma squeeze_squeezed l : squeezed (squeeze l) = true.
Proof.
  induction l as [|c r IH]; simpl; [done|].
  pose proof (squeeze_spaces r) as Hsp.
  destruct (is_space c) eqn:Hc.
  - destruct (squeeze r) as [|d r'] eqn:E; [done|].
    destruct (Ascii.eqb d " ") eqn:Hd; [done|].
    change (squeezed (" "%char :: d :: r')) with (negb (is_space d) && squeezed (d :: r')).
    rewrite IH, andb_true_r. apply negb_true_iff.
    destruct (is_space d) eqn:Hsd; [|done].
    inversion Hsp as [|? ? Hd' _]; subst. rewrite (Hd' Hsd) in Hd. done.
  - simpl. by rewrite Hc.
Qed.

Lemma squeezed_fixed l : squeezed l = true → squeeze l = l.
Proof.
  induction l as [|c r IH]; simpl; [done|].
  destruct (is_space c) eqn:Hc.
  - intros H. apply andb_true_iff in H. destruct H as [H Hr].
    apply andb_true_iff in H. destruct H as [Heq Hd].
    apply Ascii.eqb_eq in Heq. subst c. rewrite (IH Hr).
    destruct r as [|d r']; [done|].
    apply negb_true_iff in Hd. by rewrite (space_not_eqb _ Hd).
  - intros Hr. by rewrite (IH Hr).
Qed.

Lemma collapse_normal l :
  squeezed (collapse l) = true ∧ no_leading_space (collapse l) = true.
Proof.
  unfold collapse. pose proof (squeeze_squeezed l) as H.
  destruct (squeeze l) as [|c r]; [done|].
  destruct (Ascii.eqb c " ") eqn:Hc.
  - apply Ascii.eqb_eq in Hc. subst c.
    change (squeezed (" "%char :: r))
      with (match r with [] => false | d :: _ => negb (is_space d) end && squeezed r) in H.
    apply andb_true_iff in H. destruct H as [Hd Hr]. split; [done|].
    destruct r as [|d r']; [done|]. simpl.
    apply negb_true_iff in Hd. by rewrite (space_not_eqb _ Hd).
  - split; [done|]. simpl. by rewrite Hc.
Qed.

Lemma collapse_fixed l :
  squeezed l = true → no_leading_space l = true → collapse l = l.
Proof.
  intros Hs Hl. unfold collapse. rewrite (squeezed_fixed _ Hs).
  destruct l as [|c r]; [done|]. simpl in Hl.
  apply negb_true_iff in Hl. by rewrite Hl.
Qed.

Lemma map_fixed {A} (f : A → A) (P : A → Prop) l :
  (∀ x, P x → f x = x) → Forall P l → map f l = l.
Proof.
  intros Hf. induction 1 as [|x r Hx _ IH]; simpl; [done|].
  by rewrite (Hf _ Hx), IH.
Qed.

Lemma normalize_chars_settled l :
  Forall (fun c => settled c = true) (normalize_chars l).
Proof.
  unfold normalize_chars. apply collapse_Forall; [done|].
  apply Forall_map.
  apply (strip_article_Forall (fun c => settled (replace_punct c) = true)).
  apply Forall_map, Forall_forall. intros c _. apply replace_lowered_settled.
Qed.

(** A normal form that does not start with an article is a fixed point
    of the normaliser. *)
Lemma normalize_chars_fixed l :
  leading_article articles (normalize_chars l) = None →
  normalize_chars (normalize_chars l) = normalize_chars l.
Proof.
  intros Hart. pose proof (normalize_chars_settled l) as Hs.
  set (n := normalize_chars l) in *.
  unfold normalize_chars at 1.
  rewrite (map_fixed lower_ascii _ n settled_lower Hs).
  unfold strip_article. rewrite Hart.
  rewrite (map_fixed replace_punct _ n settled_replace Hs).
  destruct (collapse_normal (map replace_punct (strip_article (map lower_ascii l)))).
  by apply collapse_fixed.
Qed.

End NormalizeFacts.

Module MatcherTheorems.
Import MediaMatcher NormalizeFacts MatcherSamples.

(** C7, as stated, fails: only one leading article is stripped, so a
    title with two of them is normalised to a text that still starts with
    an article, and normalising again strips it. *)
Lemma normalize_title_not_idempotent :
  _normalize_title "The The Movie" = "the movie"
  ∧ _normalize_title (_normalize_title "The The Movie") = "movie"
  ∧ _normalize_title (_normalize_title "The The Movie")
    ≠ _normalize_title "The The Movie".
Proof. split; [reflexivity|]. split; [reflexivity|]. vm_compute. congruence. Qed.

(** C7, amended: normalisation is idempotent on every title whose
    normal form does not itself begin with an article followed by a
    space; it ignores case, [normalize("THE Movie")] and
    [normalize("the movie")] both being ["movie"], and
    [normalize("Movie: Part 2")] is ["movie part 2"]. *)
Theorem normalize_title_idempotent_off_articles :
  (∀ x, has_leading_article (_normalize_title x) = false →
        _normalize_title (_normalize_title x) = _normalize_title x)
  ∧ _normalize_title "THE Movie" = "movie"
  ∧ _normalize_title "the movie" = "movie"
  ∧ _normalize_title "Movie: Part 2" = "movie part 2".
Proof.
  split; [|by repeat split].
  intros x. unfold has_leading_article, _normalize_title.
  rewrite !list_ascii_of_string_of_list_ascii.
  destruct (leading_article _ _) eqn:Hart; [done|]. intros _.
  by rewrite normalize_chars_fixed.
Qed.

Lemma normalize_title_idempotent_off_articles_witness :
  _normalize_title (_normalize_title "Movie - The Sequel")
  = _normalize_title "Movie - The Sequel".
Proof.
  destruct normalize_title_idempotent_off_articles as [H _].
  apply (H "Movie - The Sequel"). reflexivity.
Defined.

Lemma same_id_sym {K} (eqb : K → K → bool) x y :
  (∀ i j, eqb i j = eqb j i) → same_id eqb x y = same_id eqb y x.
Proof. intros Hs. destruct x, y; simpl; auto. Qed.

Lemma years_agree_sym x y : years_agree x y = years_agree y x.
Proof.
  destruct x as [a|], y as [b|]; simpl; try done.
  by replace (b - a)%Z with (- (a - b))%Z by lia; rewrite Z.abs_opp.
Qed.

Lemma same_id_spec {K} (eqb : K → K → bool) x y :
  (∀ i j, eqb i j = true ↔ i = j) →
  same_id eqb x y = true ↔ ∃ i, x = Some i ∧ y = Some i.
Proof.
  intros Heq. destruct x as [i|], y as [j|]; simpl; [|naive_solver..].
  rewrite Heq. naive_solver.
Qed.

Lemma years_agree_spec x y :
  years_agree x y = true ↔
  ∀ a b, x = Some a → y = Some b → (Z.abs (a - b) <= 1)%Z.
Proof.
  destruct x as [a|], y as [b|]; simpl; [|naive_solver..].
  rewrite Z.leb_le. naive_solver.
Qed.

(** C9: the match predicate is symmetric. *)
Theorem is_match_symmetric {A B} `{Identified A} `{Identified B} (a : A) (b : B) :
  _is_match a b = _is_match b a.
Proof.
  unfold _is_match, is_match_by.
  rewrite (same_id_sym Z.eqb (primary_id a)) by apply Z.eqb_sym.
  rewrite (same_id_sym String.eqb (secondary_id a)) by apply String.eqb_sym.
  rewrite (same_id_sym Z.eqb (tertiary_id a)) by apply Z.eqb_sym.
  by rewrite String.eqb_sym, years_agree_sym.
Qed.

(** C5: whatever the title normaliser answers - that of section 4.1
    on every text, accented or not, or the one modelled here -
    [is_match(a, b)] holds exactly when the two items carry the same
    primary ID, or the same secondary ID, or the same tertiary ID, or
    their normalized titles are equal and their years agree - an absent
    year on either side agrees with anything, two present years agree
    when they differ by at most 1.  A shared primary ID matches under
    different titles, a year difference of 1 matches and a year difference
    of 3 with equal titles does not. *)
Theorem is_match_characterisation (normalize : string → string) :
  (∀ (a : MediaItem.t) (b : LibraryItem.t),
     is_match_by normalize a b = true ↔
       (∃ i, MediaItem.tmdb_id a = Some i ∧ LibraryItem.tmdb_id b = Some i)
     ∨ (∃ s, MediaItem.imdb_id a = Some s ∧ LibraryItem.imdb_id b = Some s)
     ∨ (∃ i, MediaItem.tvdb_id a = Some i ∧ LibraryItem.tvdb_id b = Some i)
     ∨ (normalize (MediaItem.title a) = normalize (LibraryItem.title b)
        ∧ ∀ ya yb, MediaItem.year a = Some ya → LibraryItem.year b = Some yb →
            (Z.abs (ya - yb) <= 1)%Z))
  ∧ (∀ (a : MediaItem.t) (b : LibraryItem.t),
       _is_match a b = is_match_by _normalize_title a b)
  ∧ is_match_by normalize (catalog "Movie" None (Some 123))
      (library "Different Title" None (Some 123)) = true
  ∧ is_match_by normalize (catalog "Movie" (Some 2023) None)
      (library "Movie" (Some 2024) None) = true
  ∧ is_match_by normalize (catalog "Movie" (Some 2020) None)
      (library "Movie" (Some 2023) None) = false
  ∧ is_match_by normalize (catalog "Movie" None None)
      (library "Movie" (Some 2023) None) = true
  ∧ is_match_by normalize (catalog "Movie" (Some 2023) None)
      (library "Movie" None None) = true.
Proof.
  split; [|split; [done|]].
  - intros a b. unfold is_match_by.
    pose proof (same_id_spec Z.eqb (primary_id a) (primary_id b) Z.eqb_eq) as H1.
    pose proof (same_id_spec String.eqb (secondary_id a) (secondary_id b) String.eqb_eq)
      as H2.
    pose proof (same_id_spec Z.eqb (tertiary_id a) (tertiary_id b) Z.eqb_eq) as H3.
    pose proof (years_agree_spec (the_year a) (the_year b)) as H4.
    simpl in *.
    destruct (same_id Z.eqb (MediaItem.tmdb_id a) _); [naive_solver|].
    destruct (same_id String.eqb (MediaItem.imdb_id a) _); [naive_solver|].
    destruct (same_id Z.eqb (MediaItem.tvdb_id a) _); [naive_solver|].
    rewrite andb_true_iff, String.eqb_eq, H4.
    split; [naive_solver|].
    intros [Hc|[Hc|[Hc|Hc]]]; [| | |done].
    + apply H1 in Hc. done.
    + apply H2 in Hc. done.
    + apply H3 in Hc. done.
  - unfold is_match_by. simpl. rewrite !String.eqb_refl. by repeat split.
Qed.

End MatcherTheorems.

(** ** Sorting *)

Module SortFacts.
Import Sort.

Section StableSort.
Context {K A : Type} `{LawfulOrd K} (k : A → K).

Local Abbreviation dec := (fun x : A => (k x, x)).

Lemma insert_decorated x l :
  insert (dec x) (map dec l) = map dec (insert_by k x l).
Proof.
  induction l as [|y r IH]; simpl; [done|].
  destruct (py_lt (k y) (k x)); simpl; [by rewrite IH|done].
Qed.

Lemma isort_decorated l : isort (map dec l) = map dec (isort_by k l).
Proof.
  induction l as [|x r IH]; simpl; [done|].
  by rewrite IH, insert_decorated.
Qed.

Lemma map_snd_dec (l : list A) : map snd (map dec l) = l.
Proof. rewrite map_map. simpl. apply map_id. Qed.

Lemma decorate_total (key : A → result K) l :
  (∀ x, x ∈ l → key x = Ok (k x)) → decorate key l = Ok (map dec l).
Proof.
  induction l as [|x r IH]; intros Hk; simpl; [done|].
  rewrite (Hk x) by (by left). rewrite bind_Ok, IH; [done|].
  intros y Hy. apply Hk. by right.
Qed.

Lemma decorate_Ok_inv (key : A → result K) l d :
  decorate key l = Ok d → ∀ x, x ∈ l → is_ok (key x) = true.
Proof.
  revert d. induction l as [|x r IH]; intros d; simpl.
  - intros _ y Hy. by apply elem_of_nil in Hy.
  - destruct (key x) eqn:Hx; [|done]. rewrite bind_Ok.
    destruct (decorate key r) eqn:Hr; [|done]. intros _ y Hy.
    apply elem_of_cons in Hy. destruct Hy as [->|Hy]; [by rewrite Hx|].
    by eapply IH.
Qed.

Lemma py_sorted_total (key : A → result K) reverse l :
  (∀ x, x ∈ l → key x = Ok (k x)) →
  py_sorted key reverse l = Ok (sorted_by k reverse l).
Proof.
  intros Hk. unfold py_sorted, sorted_by. rewrite (decorate_total key l Hk), bind_Ok.
  destruct reverse.
  - by rewrite <- map_rev, isort_decorated, <- map_rev, map_snd_dec.
  - by rewrite isort_decorated, map_snd_dec.
Qed.

Lemma insert_by_perm x l : Permutation (insert_by k x l) (x :: l).
Proof.
  induction l as [|y r IH]; simpl; [done|].
  destruct (py_lt (k y) (k x)); [|done].
  rewrite IH. apply perm_swap.
Qed.

Lemma isort_by_perm l : Permutation (isort_by k l) l.
Proof.
  induction l as [|x r IH]; simpl; [done|].
  by rewrite insert_by_perm, IH.
Qed.

Lemma key_le_trans x y z : key_le k x y → key_le k y z → key_le k x z.
Proof. unfold key_le. intros Hxy Hyz. by eapply lt_negtrans. Qed.

Lemma key_le_total x y : key_le k x y ∨ key_le k y x.
Proof.
  unfold key_le. destruct (py_lt (k y) (k x)) eqn:E; [|by left].
  right. by apply lt_asym.
Qed.

Lemma insert_by_sorted x l :
  StronglySorted (key_le k) l → StronglySorted (key_le k) (insert_by k x l).
Proof.
  induction 1 as [|y r Hr IH Hy]; simpl; [by repeat constructor|].
  destruct (py_lt (k y) (k x)) eqn:E.
  - constructor; [done|].
    rewrite (Forall_forall (key_le k y)). intros z Hz.
    rewrite insert_by_perm in Hz. apply elem_of_cons in Hz.
    destruct Hz as [->|Hz].
    + unfold key_le. by apply lt_asym.
    + rewrite Forall_forall in Hy. by apply Hy.
  - constructor; [by constructor|].
    constructor; [done|].
    eapply Forall_impl; [exact Hy|]. intros z Hz. by eapply key_le_trans.
Qed.

Lemma isort_by_sorted l : StronglySorted (key_le k) (isort_by k l).
Proof.
  induction l as [|x r IH]; simpl; [constructor|]. by apply insert_by_sorted.
Qed.

Lemma key_tie_lt x y z :
  key_tie k z x = true → key_tie k z y = true → py_lt (k y) (k x) = false.
Proof.
  unfold key_tie. rewrite !andb_true_iff, !negb_true_iff.
  intros [Hzx Hxz] [Hzy Hyz]. by apply (lt_negtrans _ (k z)).
Qed.

Lemma insert_by_stable z x l :
  List.filter (key_tie k z) (insert_by k x l) = List.filter (key_tie k z) (x :: l).
Proof.
  induction l as [|y r IH]; [done|].
  cbn [insert_by]. destruct (py_lt (k y) (k x)) eqn:E; [|done].
  cbn [List.filter] in *. rewrite IH.
  destruct (key_tie k z y) eqn:Hy, (key_tie k z x) eqn:Hx; try done.
  by rewrite (key_tie_lt _ _ _ Hx Hy) in E.
Qed.

Lemma isort_by_stable z l :
  List.filter (key_tie k z) (isort_by k l) = List.filter (key_tie k z) l.
Proof.
  induction l as [|x r IH]; [done|].
  cbn [isort_by]. rewrite insert_by_stable. cbn [List.filter]. by rewrite IH.
Qed.

Lemma insert_by_head x l :
  Forall (key_le k x) l → insert_by k x l = x :: l.
Proof.
  destruct l as [|y r]; [done|]. intros Hl. inversion Hl as [|? ? Hy _]; subst.
  simpl. unfold key_le in Hy. by rewrite Hy.
Qed.

Lemma isort_by_fixed l : StronglySorted (key_le k) l → isort_by k l = l.
Proof.
  induction 1 as [|x r Hr IH Hx]; [done|].
  simpl. rewrite IH. by apply insert_by_head.
Qed.

Lemma StronglySorted_rev (R : A → A → Prop) l :
  StronglySorted R l → StronglySorted (flip R) (rev l).
Proof.
  induction 1 as [|x r Hr IH Hx]; simpl; [constructor|].
  apply StronglySorted_app_2; [|done|by repeat constructor].
  intros y z Hy Hz. apply list_elem_of_In in Hy. apply in_rev in Hy.
  apply list_elem_of_In in Hy.
  apply list_elem_of_singleton in Hz. subst z.
  rewrite Forall_forall in Hx. by apply Hx.
Qed.

Lemma filter_rev (p : A → bool) l : List.filter p (rev l) = rev (List.filter p l).
Proof.
  induction l as [|x r IH]; [done|].
  simpl. rewrite List.filter_app, IH. simpl. destruct (p x); simpl; [done|].
  by rewrite app_nil_r.
Qed.

(** What [sorted_by] guarantees: a permutation of the input, in
    ascending key order (descending with [reverse]), in which elements
    with equal keys keep the order they had; and a list already in that
    order is left as it is. *)
Lemma sorted_by_perm reverse l : Permutation (sorted_by k reverse l) l.
Proof.
  unfold sorted_by. destruct reverse; [|apply isort_by_perm].
  by rewrite <- Permutation_rev, isort_by_perm, <- Permutation_rev.
Qed.

Lemma sorted_by_ascending l : StronglySorted (key_le k) (sorted_by k false l).
Proof. apply isort_by_sorted. Qed.

Lemma sorted_by_descending l :
  StronglySorted (flip (key_le k)) (sorted_by k true l).
Proof. apply StronglySorted_rev, isort_by_sorted. Qed.

Lemma sorted_by_stable reverse z l :
  List.filter (key_tie k z) (sorted_by k reverse l) = List.filter (key_tie k z) l.
Proof.
  unfold sorted_by. destruct reverse; [|apply isort_by_stable].
  by rewrite filter_rev, isort_by_stable, filter_rev, rev_involutive.
Qed.

Lemma sorted_by_fixed_ascending l :
  StronglySorted (key_le k) l → sorted_by k false l = l.
Proof. apply isort_by_fixed. Qed.

Lemma sorted_by_fixed_descending l :
  StronglySorted (flip (key_le k)) l → sorted_by k true l = l.
Proof.
  intros Hl. unfold sorted_by. rewrite isort_by_fixed; [apply rev_involutive|].
  exact (StronglySorted_rev _ _ Hl).
Qed.

End StableSort.
End SortFacts.

(** ** Python's comparisons are strict weak orders *)

Module OrdFacts.
Import Sort.

Lemma str_ltb_lt a b : String.ltb a b = true ↔ OrderedTypeEx.String_as_OT.lt a b.
Proof.
  rewrite <- OrderedTypeEx.String_as_OT.cmp_lt.
  unfold String.ltb, OrderedTypeEx.String_as_OT.cmp.
  destruct (String.compare a b); naive_solver.
Qed.

Lemma str_ltb_cases a b :
  String.ltb a b = true ∨ a = b ∨ String.ltb b a = true.
Proof.
  unfold String.ltb. rewrite (String.compare_antisym b a).
  destruct (String.compare a b) eqn:E; simpl; auto.
  apply String.compare_eq_iff in E. auto.
Qed.

Lemma str_ltb_irrefl a : String.ltb a a = false.
Proof.
  unfold String.ltb.
  pose proof (String.compare_antisym a a) as E.
  destruct (String.compare a a); done.
Qed.

Lemma str_ltb_trans a b c :
  String.ltb a b = true → String.ltb b c = true → String.ltb a c = true.
Proof.
  rewrite !str_ltb_lt. apply OrderedTypeEx.String_as_OT.lt_trans.
Qed.

#[global] Instance LawfulOrd_str : LawfulOrd string.
Proof.
  split; simpl.
  - intros a b Hab. destruct (String.ltb b a) eqn:Hba; [|done].
    pose proof (str_ltb_trans _ _ _ Hab Hba) as E.
    by rewrite str_ltb_irrefl in E.
  - intros a b c Hba Hcb. destruct (String.ltb c a) eqn:Hca; [|done].
    destruct (str_ltb_cases c b) as [E|[->|E]]; [congruence|congruence|].
    pose proof (str_ltb_trans _ _ _ E Hca). congruence.
  - intros a b. destruct (String.eqb_spec a b) as [->|Hne].
    + by rewrite str_ltb_irrefl.
    + destruct (str_ltb_cases a b) as [E|[->|E]]; [|done|]; rewrite E; simpl;
        [done|by rewrite andb_false_r].
Qed.

#[global] Instance LawfulOrd_int : LawfulOrd Z.
Proof.
  split; simpl; intros; repeat
    match goal with
    | H : (_ <? _)%Z = _ |- _ => first [apply Z.ltb_lt in H | apply Z.ltb_ge in H]
    end.
  - apply Z.ltb_ge. lia.
  - apply Z.ltb_ge. lia.
  - destruct (Z.eqb_spec a b), (Z.ltb_spec a b), (Z.ltb_spec b a); simpl; lia.
Qed.

Lemma Qltb_true a b : Filters.Qltb a b = true ↔ (a < b)%Q.
Proof.
  unfold Filters.Qltb. rewrite negb_true_iff.
  destruct (Qle_bool b a) eqn:E.
  - apply Qle_bool_iff in E. split; [done|]. intros. lra.
  - split; [|done]. intros _. destruct (Qlt_le_dec a b) as [|Hle]; [done|].
    apply Qle_bool_iff in Hle. congruence.
Qed.

Lemma Qltb_false a b : Filters.Qltb a b = false ↔ (b <= a)%Q.
Proof.
  destruct (Filters.Qltb a b) eqn:E.
  - apply Qltb_true in E. split; [done|]. intros. lra.
  - split; [|done]. intros _. destruct (Qlt_le_dec a b) as [Hlt|]; [|done].
    apply Qltb_true in Hlt. congruence.
Qed.

#[global] Instance LawfulOrd_float : LawfulOrd Q.
Proof.
  split; simpl.
  - intros a b Hab. apply Qltb_true in Hab. apply Qltb_false. lra.
  - intros a b c Hba Hcb. apply Qltb_false in Hba, Hcb. apply Qltb_false. lra.
  - intros a b. destruct (Qeq_bool a b) eqn:E.
    + apply Qeq_bool_iff in E. symmetry. apply andb_true_iff.
      rewrite !negb_true_iff, !Qltb_false. lra.
    + symmetry. apply andb_false_iff. rewrite !negb_false_iff, !Qltb_true.
      destruct (Qlt_le_dec a b) as [|H1]; [by left|].
      destruct (Qlt_le_dec b a) as [|H2]; [by right|].
      assert (a == b)%Q as Hab by lra. apply Qeq_bool_iff in Hab. congruence.
Qed.

Lemma py_eq_sym {K} `{LawfulOrd K} (a b : K) : py_eq a b = py_eq b a.
Proof. rewrite !eq_tie. apply andb_comm. Qed.

Lemma py_eq_lt {K} `{LawfulOrd K} (a b : K) : py_eq a b = true → py_lt a b = false.
Proof. rewrite eq_tie, andb_true_iff, !negb_true_iff. naive_solver. Qed.

(** Keys tied with a third one compare alike against anything. *)
Lemma py_eq_lt_l {K} `{LawfulOrd K} (a b c : K) :
  py_eq a b = true → py_lt a c = py_lt b c.
Proof.
  rewrite eq_tie, andb_true_iff, !negb_true_iff. intros [Hab Hba].
  destruct (py_lt a c) eqn:Hac, (py_lt b c) eqn:Hbc; try done.
  - pose proof (lt_negtrans _ _ _ Hbc Hab). congruence.
  - pose proof (lt_negtrans _ _ _ Hac Hba). congruence.
Qed.

Lemma py_eq_lt_r {K} `{LawfulOrd K} (a b c : K) :
  py_eq a b = true → py_lt c a = py_lt c b.
Proof.
  rewrite eq_tie, andb_true_iff, !negb_true_iff. intros [Hab Hba].
  destruct (py_lt c a) eqn:Hca, (py_lt c b) eqn:Hcb; try done.
  - pose proof (lt_negtrans _ _ _ Hba Hcb). congruence.
  - pose proof (lt_negtrans _ _ _ Hab Hca). congruence.
Qed.

Lemma py_eq_trans {K} `{LawfulOrd K} (a b c : K) :
  py_eq a b = true → py_eq b c = true → py_eq a c = true.
Proof.
  intros Hab Hbc. rewrite eq_tie, (py_eq_lt_l a b c Hab), (py_eq_lt_r a b c Hab).
  by rewrite <- eq_tie.
Qed.

#[global] Instance LawfulOrd_tuple {K1 K2} `{LawfulOrd K1} `{LawfulOrd K2} :
  LawfulOrd (K1 * K2).
Proof.
  split.
  - intros [a1 a2] [b1 b2]; simpl. rewrite (py_eq_sym b1 a1).
    destruct (py_eq a1 b1); apply lt_asym.
  - intros [a1 a2] [b1 b2] [c1 c2]; simpl.
    destruct (py_eq b1 a1) eqn:Eba.
    + rewrite <- (py_eq_lt_r b1 a1 c1 Eba).
      destruct (py_eq c1 b1) eqn:Ecb.
      * rewrite (py_eq_trans _ _ _ Ecb Eba). apply lt_negtrans.
      * destruct (py_eq c1 a1) eqn:Eca; [|done].
        rewrite py_eq_sym in Eba.
        pose proof (py_eq_trans _ _ _ Eca Eba). congruence.
    + intros Hba. destruct (py_eq c1 b1) eqn:Ecb.
      * intros _. rewrite (py_eq_lt_l c1 b1 a1 Ecb), Hba.
        destruct (py_eq c1 a1) eqn:Eca; [|done].
        rewrite py_eq_sym in Ecb.
        pose proof (py_eq_trans _ _ _ Ecb Eca). congruence.
      * intros Hcb. pose proof (lt_negtrans _ _ _ Hba Hcb) as Hca. rewrite Hca.
        destruct (py_eq c1 a1) eqn:Eca; [|done].
        rewrite (py_eq_lt_l c1 a1 b1 Eca) in Hcb.
        rewrite eq_tie in Eba. rewrite Hba, Hcb in Eba. done.
  - intros [a1 a2] [b1 b2]; simpl. rewrite (py_eq_sym b1 a1).
    destruct (py_eq a1 b1) eqn:E; simpl; [apply eq_tie|].
    by rewrite <- eq_tie, E.
Qed.

End OrdFacts.

(** ** The ordering policies *)

Module SortTheorems.
Import Sort SortFacts OrdFacts Ordering SortSamples.

Section WithUnicode.
Context `{U : Unicode}.

Lemma str_ltb_false a b : String.ltb a b = false ↔ str_le b a.
Proof.
  unfold str_le, String.ltb, String.leb. rewrite (String.compare_antisym b a).
  destruct (String.compare a b); simpl; split; congruence.
Qed.

Lemma Qeq_bool_opp a b : Qeq_bool (- a) (- b) = Qeq_bool a b.
Proof.
  destruct (Qeq_bool a b) eqn:E.
  - apply Qeq_bool_iff in E. apply Qeq_bool_iff. lra.
  - destruct (Qeq_bool (- a) (- b)) eqn:E'; [|done].
    apply Qeq_bool_iff in E'. assert (a == b)%Q as H by lra.
    apply Qeq_bool_iff in H. congruence.
Qed.

Lemma date_tuple_le (d1 d2 : Z) (t1 t2 : string) :
  py_lt (d1, t1) (d2, t2) = false ↔ d2 < d1 ∨ (d1 = d2 ∧ str_le t2 t1).
Proof.
  simpl. destruct (Z.eqb_spec d1 d2) as [->|Hne].
  - rewrite str_ltb_false. split; [auto|]. intros [|[_ ?]]; [lia|done].
  - rewrite Z.ltb_ge. split; [intros; left; lia|]. intros [|[? _]]; lia.
Qed.

Lemma float_tuple_le (r1 r2 : Q) (t1 t2 : string) :
  py_lt (- r2, t2)%Q (- r1, t1)%Q = false ↔
  (r2 < r1)%Q ∨ ((r1 == r2)%Q ∧ str_le t1 t2).
Proof.
  simpl. rewrite Qeq_bool_opp. destruct (Qeq_bool r2 r1) eqn:E.
  - apply Qeq_bool_iff in E. rewrite str_ltb_false.
    split; [intros; right; split; [lra|done]|]. intros [|[_ ?]]; [lra|done].
  - rewrite Qltb_false. split.
    + intros Hle. left. destruct (Qlt_le_dec r2 r1) as [|Hge]; [done|].
      assert (r2 == r1)%Q as H by lra. apply Qeq_bool_iff in H. congruence.
    + intros [|[H _]]; [lra|]. symmetry in H. apply Qeq_bool_iff in H. congruence.
Qed.

Lemma StronglySorted_impl {A} (R R' : A → A → Prop) l :
  (∀ x y, R x y → R' x y) → StronglySorted R l → StronglySorted R' l.
Proof.
  intros HR. induction 1 as [|x r Hr IH Hx]; constructor; [done|].
  eapply Forall_impl; [exact Hx|]. auto.
Qed.

Lemma is_ok_decorate {K A} (key : A → result K) l :
  is_ok (decorate key l) = forallb (fun x => is_ok (key x)) l.
Proof.
  induction l as [|x r IH]; simpl; [done|].
  destruct (key x); simpl; [|done]. rewrite <- IH. by destruct (decorate key r).
Qed.

Lemma is_ok_py_sorted {K A} `{PyOrd K} (key : A → result K) reverse l :
  is_ok (py_sorted key reverse l) = forallb (fun x => is_ok (key x)) l.
Proof.
  rewrite <- is_ok_decorate. unfold py_sorted. by destruct (decorate key l).
Qed.

Lemma sort_key_premiere_defined x :
  is_ok (sort_key_premiere x) = true → sort_key_premiere x = Ok (key_premiere x).
Proof.
  unfold sort_key_premiere, key_premiere, premiere_of, date.of_year.
  destruct (CollectionItem.premiere_date x); [done|].
  destruct (truthy_int (CollectionItem.year x)); [|done].
  destruct (negb _); [done|]. by destruct (_ && _).
Qed.

(** When it returns, [_sort_items_for_collection] returns
    [sorted_items]; it returns exactly when every key is defined. *)
Lemma _sort_items_is_ok draws items order :
  sorts order = true →
  is_ok (_sort_items_for_collection draws items order)
  = forallb (key_defined order) items.
Proof.
  destruct order; try done; intros _; simpl; rewrite is_ok_py_sorted; try done;
    by induction items.
Qed.

Lemma _sort_items_sorted draws items order :
  sorts order = true →
  forallb (key_defined order) items = true →
  _sort_items_for_collection draws items order = Ok (sorted_items order items).
Proof.
  intros Hs Hk. rewrite forallb_forall in Hk.
  destruct order; try done; unfold _sort_items_for_collection, sorted_items;
    apply py_sorted_total; try done.
  intros x Hx. apply sort_key_premiere_defined, (Hk x). by apply list_elem_of_In.
Qed.

Lemma sorted_items_perm order items : Permutation (sorted_items order items) items.
Proof. destruct order; unfold sorted_items; try done; apply sorted_by_perm. Qed.

Lemma sorted_items_in_order order items :
  StronglySorted (in_order order) (sorted_items order items).
Proof.
  destruct order; unfold sorted_items, in_order.
  - apply StronglySorted_impl with (R := fun _ _ => True); [done|].
    induction items; constructor; [done|]. by apply Forall_forall.
  - eapply StronglySorted_impl; [|apply sorted_by_ascending].
    intros x y. unfold key_le, key_name. apply str_ltb_false.
  - eapply StronglySorted_impl; [|apply sorted_by_descending].
    intros x y. unfold flip, key_le, key_premiere. apply date_tuple_le.
  - eapply StronglySorted_impl; [|apply sorted_by_ascending].
    intros x y. unfold key_le, key_rating. apply float_tuple_le.
  - eapply StronglySorted_impl; [|apply sorted_by_ascending].
    intros x y. unfold key_le, key_critic. apply float_tuple_le.
  - eapply StronglySorted_impl; [|apply sorted_by_descending].
    intros x y. unfold flip, key_le, key_created. apply date_tuple_le.
  - apply StronglySorted_impl with (R := fun _ _ => True); [done|].
    induction items; constructor; [done|]. by apply Forall_forall.
Qed.

Lemma same_rank_tie order z :
  match order with
  | SORT_NAME => ∀ x, same_rank order z x = key_tie key_name z x
  | PREMIERE_DATE => ∀ x, same_rank order z x = key_tie key_premiere z x
  | COMMUNITY_RATING => ∀ x, same_rank order z x = key_tie key_rating z x
  | CRITIC_RATING => ∀ x, same_rank order z x = key_tie key_critic z x
  | DATE_CREATED => ∀ x, same_rank order z x = key_tie key_created z x
  | CUSTOM | RANDOM => True
  end.
Proof.
  destruct order; try done; intros x; unfold key_tie; rewrite <- eq_tie; simpl;
    by rewrite ?Qeq_bool_opp.
Qed.

Lemma sorted_items_stable order z items :
  List.filter (same_rank order z) (sorted_items order items)
  = List.filter (same_rank order z) items.
Proof.
  pose proof (same_rank_tie order z) as Ht.
  destruct order; unfold sorted_items; try done;
    rewrite !(filter_ext _ _ Ht); apply sorted_by_stable.
Qed.

Lemma sorted_items_fixed order items :
  StronglySorted (in_order order) items → sorted_items order items = items.
Proof.
  destruct order; unfold sorted_items, in_order; try done; intros Hs.
  - apply sorted_by_fixed_ascending.
    eapply StronglySorted_impl; [|exact Hs].
    intros x y. unfold key_le, key_name. apply str_ltb_false.
  - apply sorted_by_fixed_descending.
    eapply StronglySorted_impl; [|exact Hs].
    intros x y. unfold flip, key_le, key_premiere. apply date_tuple_le.
  - apply sorted_by_fixed_ascending.
    eapply StronglySorted_impl; [|exact Hs].
    intros x y. unfold key_le, key_rating. apply float_tuple_le.
  - apply sorted_by_fixed_ascending.
    eapply StronglySorted_impl; [|exact Hs].
    intros x y. unfold key_le, key_critic. apply float_tuple_le.
  - apply sorted_by_fixed_descending.
    eapply StronglySorted_impl; [|exact Hs].
    intros x y. unfold flip, key_le, key_created. apply date_tuple_le.
Qed.

End WithUnicode.

(** C6, as stated, fails for the name policy: two items whose names
    differ in case only have the same key, and the sort leaves them in
    the order they came in, whichever it is - the title does not break
    the tie. *)
Lemma sort_by_name_leaves_ties_in_input_order :
  _sort_items_for_collection [] [dune_lower; dune_upper] SORT_NAME
    = Ok [dune_lower; dune_upper]
  ∧ _sort_items_for_collection [] [dune_upper; dune_lower] SORT_NAME
    = Ok [dune_upper; dune_lower]
  ∧ name_of dune_lower = name_of dune_upper
  ∧ String.ltb (CollectionItem.title dune_upper) (CollectionItem.title dune_lower) = true.
Proof. by repeat split. Qed.

(** The same with an accented letter, [str.lower()] being given by the
    Latin-1 tables: "éclair" and "Éclair" have the same key. *)
Example sort_by_name_ties_accented :
  _sort_items_for_collection [] [eclair_lower; eclair_upper] SORT_NAME
    = Ok [eclair_lower; eclair_upper]
  ∧ _sort_items_for_collection [] [eclair_upper; eclair_lower] SORT_NAME
    = Ok [eclair_upper; eclair_lower]
  ∧ same_rank SORT_NAME eclair_lower eclair_upper = true.
Proof. vm_compute. by repeat split. Qed.

(** C6, amended: under a sorting policy [_sort_items_for_collection]
    returns exactly when every key can be computed, and what it returns
    is a permutation of the input, ordered by name ascending (the
    lower-cased sort name, or title), or by premiere date or creation date
    descending with equal dates by title descending, or by rating
    descending with equal ratings by title ascending; items with equal keys
    keep their input order (the sort is stable; under the name policy a tie
    is not broken by title); sorting the output again returns it
    unchanged. *)
Theorem sort_items_stable_by_key `{U : Unicode} order draws items :
  sorts order = true →
  is_ok (_sort_items_for_collection draws items order)
    = forallb (key_defined order) items
  ∧ ∀ out, _sort_items_for_collection draws items order = Ok out →
      Permutation out items
      ∧ StronglySorted (in_order order) out
      ∧ (∀ x, List.filter (same_rank order x) out
              = List.filter (same_rank order x) items)
      ∧ _sort_items_for_collection draws out order = Ok out.
Proof.
  intros Hs. split; [by apply _sort_items_is_ok|]. intros out Hout.
  assert (forallb (key_defined order) items = true) as Hk.
  { rewrite <- (_sort_items_is_ok draws) by done. by rewrite Hout. }
  rewrite (_sort_items_sorted draws items order Hs Hk) in Hout.
  injection Hout as <-.
  split; [apply sorted_items_perm|]. split; [apply sorted_items_in_order|].
  split; [intros x; apply sorted_items_stable|].
  rewrite _sort_items_sorted; [|done|].
  - f_equal. apply sorted_items_fixed, sorted_items_in_order.
  - rewrite forallb_forall in Hk. apply forallb_forall. intros x Hx. apply Hk.
    eapply Permutation_in; [apply sorted_items_perm|done].
Qed.

Lemma sort_items_stable_by_key_witness :
  let items := [rated "Oppenheimer" 2023 8.1%Q; rated "Dune" 2021 7.8%Q;
                rated "Arrival" 2016 7.8%Q; rated "Heat" 1995 8.3%Q] in
  _sort_items_for_collection [] items COMMUNITY_RATING
    = Ok [rated "Heat" 1995 8.3%Q; rated "Oppenheimer" 2023 8.1%Q;
          rated "Arrival" 2016 7.8%Q; rated "Dune" 2021 7.8%Q]
  ∧ ∀ out, _sort_items_for_collection [] items COMMUNITY_RATING = Ok out →
      Permutation out items
      ∧ StronglySorted (in_order COMMUNITY_RATING) out
      ∧ (∀ x, List.filter (same_rank COMMUNITY_RATING x) out
              = List.filter (same_rank COMMUNITY_RATING x) items)
      ∧ _sort_items_for_collection [] out COMMUNITY_RATING = Ok out.
Proof.
  intros items. split; [reflexivity|].
  apply (sort_items_stable_by_key COMMUNITY_RATING [] items). reflexivity.
Defined.

(** By date the newest comes first, and a year stands for its first of
    January. *)
Example sort_by_premiere_date :
  _sort_items_for_collection []
    [rated "Dune" 2021 7.8%Q; rated "Oppenheimer" 2023 8.1%Q; rated "Heat" 1995 8.3%Q]
    PREMIERE_DATE
  = Ok [rated "Oppenheimer" 2023 8.1%Q; rated "Dune" 2021 7.8%Q; rated "Heat" 1995 8.3%Q].
Proof. reflexivity. Qed.

End SortTheorems.

(** ** Synchronisation *)

Module JellyfinFacts.
Import JellyfinClient Sync SyncSpec.

Lemma mem_elem_of x l : mem x l = true ↔ x ∈ l.
Proof.
  unfold mem. rewrite existsb_exists. split.
  - intros (y & Hy & Heq). apply String.eqb_eq in Heq. subst. by apply list_elem_of_In.
  - intros Hx. exists x. split; [by apply list_elem_of_In|apply String.eqb_refl].
Qed.

Lemma add_items_set ids m :
  (list_to_set (add_items ids m) : gset string) = list_to_set m ∪ list_to_set ids.
Proof.
  unfold add_items. revert m. induction ids as [|x ids IH]; intros m; simpl.
  - set_solver.
  - rewrite IH. destruct (mem x m) eqn:E.
    + apply mem_elem_of in E. set_solver.
    + rewrite list_to_set_app_L. set_solver.
Qed.

Lemma remove_items_set ids m :
  (list_to_set (List.filter (fun x => negb (mem x ids)) m) : gset string)
  = list_to_set m ∖ list_to_set ids.
Proof.
  apply set_eq. intros x.
  rewrite elem_of_difference, !elem_of_list_to_set, <- (mem_elem_of x ids).
  rewrite (list_elem_of_In (List.filter _ m) x), filter_In, negb_true_iff.
  rewrite <- list_elem_of_In.
  destruct (mem x ids); naive_solver.
Qed.

Section Projection.
Context {P : Type} (p : collection → P).

Lemma on_collection_proj id f s :
  (∀ c, p (f c) = p c) → map p (on_collection id f s) = map p s.
Proof.
  intros Hf. unfold on_collection. rewrite map_map. apply map_ext.
  intros c. by destruct (String.eqb (Id c) id).
Qed.

End Projection.

Lemma view_ident s s' : map view s' = map view s → map ident s' = map ident s.
Proof.
  intros H. apply (f_equal (map (fun v : string * string * list string => fst v))) in H.
  by rewrite !map_map in H.
Qed.

Lemma find_by_name_ident n s s' :
  map ident s' = map ident s →
  option_map Id (find_by_name n s') = option_map Id (find_by_name n s).
Proof.
  revert s'. induction s as [|c s IH]; intros [|c' s']; simpl; try done.
  intros [= Hn Hi Hr]. rewrite Hn. destruct (String.eqb (Name c) n); simpl;
    [by rewrite Hi|].
  by apply IH.
Qed.

Lemma get_collection_items_view id s s' :
  map view s' = map view s → get_collection_items id s' = get_collection_items id s.
Proof.
  unfold get_collection_items.
  revert s'. induction s as [|c s IH]; intros [|c' s']; simpl; try done.
  intros [= Hn Hi Hm Hr]. rewrite Hi. destruct (String.eqb (Id c) id); [done|].
  by apply IH.
Qed.

Lemma live_ident id s s' : map ident s' = map ident s → live id s' = live id s.
Proof.
  unfold live.
  revert s'. induction s as [|c s IH]; intros [|c' s']; simpl; try done.
  intros [= Hn Hi Hr]. rewrite Hi. f_equal. by apply IH.
Qed.

(** Changing the members of a live collection. *)
Lemma get_items_set_items id g s :
  live id s = true →
  get_collection_items id (on_collection id (set_items g) s)
  = g (get_collection_items id s).
Proof.
  unfold live, get_collection_items, on_collection.
  induction s as [|c s IH]; simpl; [done|].
  destruct (String.eqb (Id c) id) eqn:E; simpl.
  - by rewrite E.
  - rewrite E. apply IH.
Qed.

Lemma members_add id ids s :
  live id s = true →
  members id (JellyfinClient.add_to_collection id ids s)
  = members id s ∪ list_to_set ids.
Proof.
  intros Hl. unfold members, JellyfinClient.add_to_collection.
  by rewrite get_items_set_items, add_items_set.
Qed.

Lemma members_remove id ids s :
  live id s = true →
  members id (JellyfinClient.remove_from_collection id ids s)
  = members id s ∖ list_to_set ids.
Proof.
  intros Hl. unfold members, JellyfinClient.remove_from_collection.
  by rewrite get_items_set_items, remove_items_set.
Qed.

Lemma ident_add id ids s :
  map ident (JellyfinClient.add_to_collection id ids s) = map ident s.
Proof. by apply on_collection_proj. Qed.

Lemma ident_remove id ids s :
  map ident (JellyfinClient.remove_from_collection id ids s) = map ident s.
Proof. by apply on_collection_proj. Qed.

Lemma view_update_metadata id o sn d s :
  map view (update_collection_metadata id o sn d s) = map view s.
Proof. by apply on_collection_proj. Qed.

Lemma view_upload_poster id path s :
  map view (upload_collection_poster id path s) = map view s.
Proof. by apply on_collection_proj. Qed.

(** A created collection is found by its name, is live and is empty. *)
Lemma find_by_name_app_None n s c :
  find_by_name n s = None → Name c = n → find_by_name n (s ++ [c]) = Some c.
Proof.
  unfold find_by_name. intros Hs Hn. induction s as [|c' s IH]; simpl in *.
  - by rewrite Hn, String.eqb_refl.
  - destruct (String.eqb (Name c') n); [done|]. by apply IH.
Qed.

Lemma live_app_fresh id s c : Id c = id → live id (s ++ [c]) = true.
Proof.
  intros Hc. unfold live. rewrite existsb_app. simpl.
  by rewrite Hc, String.eqb_refl, orb_true_r.
Qed.

End JellyfinFacts.

Module SyncFacts.
Import JellyfinClient Sync SyncSpec JellyfinFacts.

Lemma same_membership_refl st : same_membership st st.
Proof. by split. Qed.

Lemma same_membership_trans st1 st2 st3 :
  same_membership st1 st2 → same_membership st2 st3 → same_membership st1 st3.
Proof. intros [H1 H2] [H3 H4]. split; congruence. Qed.

Lemma membership_calls_log c st :
  is_membership_call c = false → membership_calls (log c st) = membership_calls st.
Proof.
  intros Hc. unfold membership_calls, log; simpl.
  rewrite List.filter_app; simpl. rewrite Hc. apply app_nil_r.
Qed.

Lemma membership_calls_on_jellyfin f st :
  membership_calls (on_jellyfin f st) = membership_calls st.
Proof. reflexivity. Qed.

Lemma membership_calls_on_report f st :
  membership_calls (on_report f st) = membership_calls st.
Proof. reflexivity. Qed.

Section WithBuilder.
Context `{U : Unicode}.
Variable self : CollectionBuilder.
Variable env : Env.

Lemma _upload_poster_frame collection st :
  same_membership st (snd (_upload_poster env collection st))
  ∧ report (snd (_upload_poster env collection st)) = report st.
Proof.
  unfold _upload_poster.
  destruct (_ || _); [by split; [apply same_membership_refl|]|].
  destruct (poster_uploads _ _ _); [|by split; [apply same_membership_refl|]].
  split; [|done]. split.
  - apply view_upload_poster.
  - unfold snd. rewrite membership_calls_on_jellyfin.
    by rewrite (membership_calls_log (JfUploadCollectionPoster _ _)).
Qed.

(** The acquisition requests leave the server alone and issue no
    membership request; whether they complete does not depend on the
    state. *)
Lemma add_missing_loop_frame config missing rc sc st :
  let out := add_missing_loop self config missing rc sc st in
  jellyfin (snd out) = jellyfin st
  ∧ membership_calls (snd out) = membership_calls st
  ∧ CollectionReport.items_added_to_collection (report (snd out))
    = CollectionReport.items_added_to_collection (report st)
  ∧ CollectionReport.items_removed_from_collection (report (snd out))
    = CollectionReport.items_removed_from_collection (report st).
Proof.
  cbv zeta. revert rc sc st.
  induction missing as [|item rest IH]; intros rc sc st; [done|].
  cbn [add_missing_loop].
  destruct (if String.eqb _ _ then sonarr self else None) as [sn|].
  - destruct (if _ && _ then _ else _) as [tv|e]; [|done].
    destruct (negb (truthy_int tv)); [apply IH|].
    destruct (SonarrClient.add_series _ _ _ _ _);
      match goal with
      | |- context [add_missing_loop self config rest ?a ?b ?s] =>
        destruct (IH a b s) as (-> & -> & -> & ->)
      end;
      rewrite ?membership_calls_on_report,
        (membership_calls_log (SonarrAddSeries _ _ _ _)) by done; done.
  - destruct (if _ && _ then radarr self else None) as [rd|]; [|apply IH].
    destruct (RadarrClient.add_movie _ _ _ _ _);
      match goal with
      | |- context [add_missing_loop self config rest ?a ?b ?s] =>
        destruct (IH a b s) as (-> & -> & -> & ->)
      end;
      rewrite ?membership_calls_on_report,
        (membership_calls_log (RadarrAddMovie _ _ _ _)) by done; done.
Qed.

Lemma add_missing_loop_result config missing rc sc st st' :
  is_ok (fst (add_missing_loop self config missing rc sc st))
  = is_ok (fst (add_missing_loop self config missing rc sc st')).
Proof.
  revert rc sc st st'.
  induction missing as [|item rest IH]; intros rc sc st st'; simpl; [done|].
  destruct (if String.eqb _ _ then sonarr self else None) as [sn|].
  - destruct (if _ && _ then _ else _) as [tv|e]; [|done].
    destruct (negb (truthy_int tv)); [apply IH|].
    destruct (SonarrClient.add_series _ _ _ _ _); apply IH.
  - destruct (if _ && _ then radarr self else None) as [rd|]; [|apply IH].
    destruct (RadarrClient.add_movie _ _ _ _ _); apply IH.
Qed.

Lemma _add_missing_to_arr_frame collection st :
  let out := _add_missing_to_arr self collection st in
  jellyfin (snd out) = jellyfin st
  ∧ membership_calls (snd out) = membership_calls st
  ∧ CollectionReport.items_added_to_collection (report (snd out))
    = CollectionReport.items_added_to_collection (report st)
  ∧ CollectionReport.items_removed_from_collection (report (snd out))
    = CollectionReport.items_removed_from_collection (report st).
Proof.
  unfold _add_missing_to_arr. destruct (List.filter _ _); [done|].
  apply add_missing_loop_frame.
Qed.

Lemma _add_missing_to_arr_result collection st st' :
  is_ok (fst (_add_missing_to_arr self collection st))
  = is_ok (fst (_add_missing_to_arr self collection st')).
Proof.
  unfold _add_missing_to_arr. destruct (List.filter _ _); [done|].
  apply add_missing_loop_result.
Qed.

Lemma finish_sync_frame collection add cid a r st :
  let out := finish_sync self env collection add cid a r st in
  same_membership st (snd out)
  ∧ CollectionReport.items_added_to_collection (report (snd out)) = a
  ∧ CollectionReport.items_removed_from_collection (report (snd out)) = r
  ∧ (∀ counts, fst out = Ok counts → counts = (a, r)).
Proof.
  cbv zeta. unfold finish_sync.
  set (st1 := on_jellyfin _ (log _ (on_report _ st))).
  assert (same_membership st st1 ∧ report st1
            = CollectionReport.set_sync_counts a r (report st)) as [H1 R1].
  { split; [|done]. split; [apply view_update_metadata|].
    unfold st1.
    change (membership_calls (on_jellyfin ?f ?s)) with (membership_calls s).
    rewrite (membership_calls_log (JfUpdateCollectionMetadata _ _ _ _)) by done.
    done. }
  set (st2 := if truthy_str _ then snd (_upload_poster env collection st1) else st1).
  assert (same_membership st st2 ∧ report st2 = report st1) as [H2 R2].
  { unfold st2. destruct (truthy_str _); [|done].
    destruct (_upload_poster_frame collection st1) as [Hp Hr].
    split; [by eapply same_membership_trans|done]. }
  destruct add.
  - pose proof (_add_missing_to_arr_frame collection st2) as (Hj & Hm & Ha & Hr).
    cbv zeta in Hj, Hm, Ha, Hr.
    destruct (_add_missing_to_arr self collection st2) as [[[rc sc]|e] st3];
      cbn [fst snd] in *.
    + split; [|split; [|split]].
      * destruct H2 as [H2 H2']. split.
        -- change (jellyfin (on_report ?f ?s)) with (jellyfin s). by rewrite Hj.
        -- change (membership_calls (on_report ?f ?s)) with (membership_calls s).
           by rewrite Hm.
      * change (report (on_report ?f ?s)) with (f (report s)).
        change (CollectionReport.items_added_to_collection
                  (CollectionReport.set_arr_counts ?x ?y ?rp))
          with (CollectionReport.items_added_to_collection rp).
        by rewrite Ha, R2, R1.
      * change (report (on_report ?f ?s)) with (f (report s)).
        change (CollectionReport.items_removed_from_collection
                  (CollectionReport.set_arr_counts ?x ?y ?rp))
          with (CollectionReport.items_removed_from_collection rp).
        by rewrite Hr, R2, R1.
      * by intros counts [= <-].
    + split; [|split; [|split]].
      * destruct H2 as [H2 H2']. split; [by rewrite Hj|by rewrite Hm].
      * by rewrite Ha, R2, R1.
      * by rewrite Hr, R2, R1.
      * done.
  - cbn [fst snd]. split; [done|]. rewrite R2, R1. split; [done|]. split; [done|].
    by intros counts [= <-].
Qed.

Lemma add_missing_loop_calls config missing rc sc st :
  ∃ more, calls (snd (add_missing_loop self config missing rc sc st)) = calls st ++ more.
Proof.
  revert rc sc st.
  induction missing as [|item rest IH]; intros rc sc st; [by exists []; rewrite app_nil_r|].
  cbn [add_missing_loop].
  destruct (if String.eqb _ _ then sonarr self else None) as [sn|].
  - destruct (if _ && _ then _ else _) as [tv|e]; [|by exists []; rewrite app_nil_r].
    destruct (negb (truthy_int tv)); [apply IH|].
    destruct (SonarrClient.add_series _ _ _ _ _);
      match goal with
      | |- context [add_missing_loop self config rest ?a ?b ?s] =>
        destruct (IH a b s) as [more ->]
      end; cbn [calls on_report log]; rewrite <- app_assoc; by eexists.
  - destruct (if _ && _ then radarr self else None) as [rd|]; [|apply IH].
    destruct (RadarrClient.add_movie _ _ _ _ _);
      match goal with
      | |- context [add_missing_loop self config rest ?a ?b ?s] =>
        destruct (IH a b s) as [more ->]
      end; cbn [calls on_report log]; rewrite <- app_assoc; by eexists.
Qed.

(** [finish_sync] always issues the metadata update, with the display
    order of the policy. *)
Lemma finish_sync_updates_metadata collection add cid a r st :
  JfUpdateCollectionMetadata cid
    (CollectionConfig.summary (Collection.config collection))
    (CollectionConfig.sort_title (Collection.config collection))
    (_get_jellyfin_display_order
       (CollectionConfig.collection_order (Collection.config collection)))
  ∈ calls (snd (finish_sync self env collection add cid a r st)).
Proof.
  unfold finish_sync.
  set (upd := JfUpdateCollectionMetadata _ _ _ _).
  set (st1 := on_jellyfin _ (log upd (on_report _ st))).
  assert (upd ∈ calls st1) as H1.
  { unfold st1. cbn [calls on_jellyfin log]. set_solver. }
  set (st2 := if truthy_str _ then snd (_upload_poster env collection st1) else st1).
  assert (upd ∈ calls st2) as H2.
  { unfold st2. destruct (truthy_str _); [|done]. unfold _upload_poster.
    destruct (_ || _); [done|]. destruct (poster_uploads _ _ _); [|done].
    cbn [snd calls on_jellyfin log]. set_solver. }
  destruct add; [|done].
  assert (upd ∈ calls (snd (_add_missing_to_arr self collection st2))) as H3.
  { unfold _add_missing_to_arr. destruct (List.filter _ _) as [|x l]; [done|].
    destruct (add_missing_loop_calls (Collection.config collection) (x :: l) 0 0 st2)
      as [more ->]. set_solver. }
  by destruct (_add_missing_to_arr self collection st2) as [[[? ?]|?] ?].
Qed.

(** The acquisition requests are Radarr and Sonarr requests. *)
Lemma add_missing_loop_arr_calls config missing rc sc st :
  ∃ more, calls (snd (add_missing_loop self config missing rc sc st)) = calls st ++ more
        ∧ ∀ cid poster, forallb (follows_metadata cid poster true) more = true.
Proof.
  revert rc sc st.
  induction missing as [|item rest IH]; intros rc sc st;
    [by exists []; rewrite app_nil_r|].
  cbn [add_missing_loop].
  destruct (if String.eqb _ _ then sonarr self else None) as [sn|].
  - destruct (if _ && _ then _ else _) as [tv|e]; [|by exists []; rewrite app_nil_r].
    destruct (negb (truthy_int tv)); [apply IH|].
    destruct (SonarrClient.add_series _ _ _ _ _);
      match goal with
      | |- context [add_missing_loop self config rest ?a ?b ?s] =>
        destruct (IH a b s) as (more & -> & Hall)
      end; cbn [calls on_report log]; rewrite <- app_assoc;
      (eexists; split; [done|]); intros cid poster; simpl; apply Hall.
  - destruct (if _ && _ then radarr self else None) as [rd|]; [|apply IH].
    destruct (RadarrClient.add_movie _ _ _ _ _);
      match goal with
      | |- context [add_missing_loop self config rest ?a ?b ?s] =>
        destruct (IH a b s) as (more & -> & Hall)
      end; cbn [calls on_report log]; rewrite <- app_assoc;
      (eexists; split; [done|]); intros cid poster; simpl; apply Hall.
Qed.

(** What [finish_sync] issues: the metadata update, then the poster
    upload for the collection [collection.jellyfin_id] names when a poster
    is configured, then the acquisition requests when asked for. *)
Lemma finish_sync_calls collection add cid a r st :
  jellyfin_id st = Some cid →
  ∃ rest,
    calls (snd (finish_sync self env collection add cid a r st))
    = calls st
      ++ JfUpdateCollectionMetadata cid
           (CollectionConfig.summary (Collection.config collection))
           (CollectionConfig.sort_title (Collection.config collection))
           (_get_jellyfin_display_order
              (CollectionConfig.collection_order (Collection.config collection)))
         :: rest
    ∧ forallb (follows_metadata cid
                 (truthy_str (CollectionConfig.poster (Collection.config collection)))
                 add) rest = true.
Proof.
  intros Hid. unfold finish_sync.
  set (upd := JfUpdateCollectionMetadata _ _ _ _).
  set (st1 := on_jellyfin _ (log upd (on_report _ st))).
  assert (calls st1 = calls st ++ [upd] ∧ jellyfin_id st1 = Some cid) as [H1 Hid1] by done.
  set (p := truthy_str (CollectionConfig.poster (Collection.config collection))).
  set (st2 := if p then snd (_upload_poster env collection st1) else st1).
  assert (∃ up, calls st2 = calls st ++ upd :: up
                ∧ ∀ arr, forallb (follows_metadata cid p arr) up = true)
    as (up & H2 & Hup).
  { unfold st2. destruct p eqn:Hp; [|by exists []].
    unfold _upload_poster. rewrite Hid1.
    destruct (_ || _); [by exists []|].
    destruct (poster_uploads _ _ _); [|by exists []].
    eexists [_]. cbn [snd calls on_jellyfin log Filters.unwrap_str].
    rewrite H1, <- app_assoc.
    split; [done|]. intros arr. simpl. by rewrite String.eqb_refl. }
  destruct add.
  - assert (∃ more, calls (snd (_add_missing_to_arr self collection st2))
                    = calls st2 ++ more
                    ∧ ∀ cid poster, forallb (follows_metadata cid poster true) more = true)
      as (more & H3 & Hmore).
    { unfold _add_missing_to_arr. destruct (List.filter _ _) as [|x l];
        [by exists []; rewrite app_nil_r|].
      apply add_missing_loop_arr_calls. }
    exists (up ++ more). split.
    + destruct (_add_missing_to_arr self collection st2) as [[[rc sc]|e] st3];
        cbn [fst snd] in *;
        change (calls (on_report ?f ?s)) with (calls s);
        rewrite H3, H2, <- app_assoc; done.
    + rewrite forallb_app, Hup, Hmore. done.
  - exists up. split; [done|apply Hup].
Qed.

(** Whether [finish_sync] returns depends on the acquisition requests
    alone. *)
Lemma finish_sync_result collection add cid a r st cid' a' r' st' :
  is_ok (fst (finish_sync self env collection add cid a r st))
  = is_ok (fst (finish_sync self env collection add cid' a' r' st')).
Proof.
  unfold finish_sync. destruct add; [|done].
  match goal with
  | |- is_ok (fst (let (_, _) := _add_missing_to_arr self collection ?s1 in _))
       = is_ok (fst (let (_, _) := _add_missing_to_arr self collection ?s2 in _)) =>
    pose proof (_add_missing_to_arr_result collection s1 s2) as H;
    destruct (_add_missing_to_arr self collection s1) as [[[? ?]|?] ?];
    destruct (_add_missing_to_arr self collection s2) as [[[? ?]|?] ?]; done
  end.
Qed.

Lemma nonempty_empty : nonempty ∅ = false.
Proof. done. Qed.

Lemma nonempty_false X : nonempty X = false → X = ∅.
Proof. unfold nonempty. rewrite negb_false_iff. apply bool_decide_eq_true. Qed.

(** With the remote membership equal to the target and the collection
    already there, the membership block does nothing. *)
Lemma apply_changes_in_sync order cid tl st :
  apply_changes env order true cid (list_to_set tl) tl st = st.
Proof.
  unfold apply_changes. rewrite difference_diag_L, nonempty_empty.
  by rewrite andb_false_r.
Qed.

Lemma live_add id ids st :
  live id (jellyfin (add_to_collection id ids st)) = live id (jellyfin st).
Proof. apply live_ident, ident_add. Qed.

Lemma live_remove id ids st :
  live id (jellyfin (remove_from_collection id ids st)) = live id (jellyfin st).
Proof. apply live_ident, ident_remove. Qed.

(** Whatever the branch, the membership block leaves the collection
    with the target as its members, and creates or renames nothing. *)
Lemma apply_changes_members order existed cid cur tl st :
  live cid (jellyfin st) = true →
  cur = members cid (jellyfin st) →
  let st' := apply_changes env order existed cid cur tl st in
  members cid (jellyfin st') = list_to_set tl
  ∧ map ident (jellyfin st') = map ident (jellyfin st).
Proof.
  intros Hl Hcur. cbv zeta. unfold apply_changes.
  set (tgt := list_to_set tl : gset string).
  destruct (_ && truthy_list tl).
  - set (st1 := if nonempty cur then _ else st).
    assert (members cid (jellyfin st1) = ∅ ∧ map ident (jellyfin st1) = map ident (jellyfin st))
      as [Hm Hi].
    { unfold st1. destruct (nonempty cur) eqn:E.
      - split; [|apply ident_remove].
        change (jellyfin (remove_from_collection ?i ?l ?s))
          with (JellyfinClient.remove_from_collection i l (jellyfin s)).
        rewrite members_remove by done. rewrite <- Hcur.
        rewrite list_to_set_list_of_set. set_solver.
      - split; [|done]. apply nonempty_false in E. by rewrite <- Hcur. }
    change (jellyfin (add_to_collection ?i ?l ?s))
      with (JellyfinClient.add_to_collection i l (jellyfin s)).
    split; [|by rewrite ident_add].
    rewrite members_add by (by rewrite (live_ident _ _ _ Hi)).
    rewrite Hm. set_solver.
  - set (st1 := if nonempty (tgt ∖ cur) then _ else st).
    assert (members cid (jellyfin st1) = cur ∪ (tgt ∖ cur)
            ∧ map ident (jellyfin st1) = map ident (jellyfin st)) as [Hm Hi].
    { unfold st1. destruct (nonempty (tgt ∖ cur)) eqn:E.
      - split; [|apply ident_add].
        change (jellyfin (add_to_collection ?i ?l ?s))
          with (JellyfinClient.add_to_collection i l (jellyfin s)).
        rewrite members_add by done. rewrite <- Hcur. by rewrite list_to_set_list_of_set.
      - split; [|done]. apply nonempty_false in E. rewrite E, <- Hcur. set_solver. }
    destruct (nonempty (cur ∖ tgt)) eqn:E.
    + change (jellyfin (remove_from_collection ?i ?l ?s))
        with (JellyfinClient.remove_from_collection i l (jellyfin s)).
      split; [|by rewrite ident_remove].
      rewrite members_remove by (by rewrite (live_ident _ _ _ Hi)).
      rewrite Hm, list_to_set_list_of_set. fold tgt. clearbody tgt.
      clear. apply set_eq. intros x.
      destruct (decide (x ∈ cur)), (decide (x ∈ tgt)); set_solver.
    + split; [|done]. rewrite Hm. apply nonempty_false in E.
      fold tgt. clearbody tgt. clear -E.
      apply set_eq. intros x.
      destruct (decide (x ∈ cur)), (decide (x ∈ tgt)); set_solver.
Qed.

Lemma get_items_empty id s :
  members id s = ∅ → get_collection_items id s = [].
Proof.
  unfold members. destruct (get_collection_items id s) as [|x l]; [done|].
  intros H. exfalso. assert (x ∈ (∅ : gset string)) as Hx; [|set_solver].
  rewrite <- H. set_solver.
Qed.

Lemma remove_all_items (l ids : list string) :
  (∀ y, y ∈ l → y ∈ ids) → List.filter (fun x => negb (mem x ids)) l = [].
Proof.
  induction l as [|y l IH]; intros He; [done|]. simpl.
  rewrite (proj2 (mem_elem_of y ids)) by (apply He; by left).
  simpl. apply IH. intros z Hz. apply He. by right.
Qed.

(** The reorder branch: under a policy other than custom, with a
    non-empty target and either a new collection or a membership change,
    the collection is cleared and the target re-added in target order. *)
Lemma apply_changes_reorder order existed cid cur tl st :
  order ≠ CUSTOM → tl ≠ [] →
  live cid (jellyfin st) = true →
  cur = members cid (jellyfin st) →
  existed = false ∨ cur ≠ list_to_set tl →
  let st' := apply_changes env order existed cid cur tl st in
  calls st' = calls st
              ++ (if nonempty cur
                  then [JfRemoveFromCollection cid (list_of_set (set_order env) cur)]
                  else [])
              ++ [JfAddToCollection cid tl]
  ∧ get_collection_items cid (jellyfin st') = JellyfinClient.add_items tl [].
Proof.
  intros Ho Htl Hl Hcur Hchange. cbv zeta. unfold apply_changes.
  assert (negb (CollectionOrder_eqb order CUSTOM) = true) as -> by (by destruct order).
  assert (truthy_list tl = true) as -> by (by destruct tl).
  assert (nonempty (list_to_set tl ∖ cur) || nonempty (cur ∖ list_to_set tl)
          || negb existed = true) as ->.
  { destruct Hchange as [->|Hne]; [by rewrite orb_true_r|].
    destruct (nonempty (list_to_set tl ∖ cur)) eqn:E1; [done|].
    destruct (nonempty (cur ∖ list_to_set tl)) eqn:E2; [done|].
    apply nonempty_false in E1, E2. exfalso. apply Hne.
    apply set_eq. intros x. clear -E1 E2.
    destruct (decide (x ∈ cur)), (decide (x ∈ (list_to_set tl : gset string)));
      set_solver. }
  cbn [andb].
  change (jellyfin (add_to_collection ?i ?l ?s))
    with (JellyfinClient.add_to_collection i l (jellyfin s)).
  change (calls (add_to_collection ?i ?l ?s)) with (calls s ++ [JfAddToCollection i l]).
  destruct (nonempty cur) eqn:E.
  - change (jellyfin (remove_from_collection ?i ?l ?s))
      with (JellyfinClient.remove_from_collection i l (jellyfin s)).
    change (calls (remove_from_collection ?i ?l ?s))
      with (calls s ++ [JfRemoveFromCollection i l]).
    split; [by rewrite <- app_assoc|].
    unfold JellyfinClient.add_to_collection, JellyfinClient.remove_from_collection.
    rewrite get_items_set_items
      by (rewrite (live_ident cid (jellyfin st)); [done|by apply on_collection_proj]).
    rewrite get_items_set_items by done.
    rewrite remove_all_items; [done|].
    intros y Hy. apply elem_of_list_of_set. rewrite Hcur. unfold members. set_solver.
  - split; [done|]. apply nonempty_false in E.
    unfold JellyfinClient.add_to_collection. rewrite get_items_set_items by done.
    rewrite get_items_empty; [done|]. by rewrite <- Hcur.
Qed.

Lemma find_by_name_live n s c :
  find_by_name n s = Some c → live (Id c) s = true.
Proof.
  unfold find_by_name, live. intros H. apply find_some in H as [Hin _].
  apply existsb_exists. exists c. split; [done|apply String.eqb_refl].
Qed.

(** After the first block the collection exists, is found by its name
    and is the one [collection.jellyfin_id] names. *)
Lemma get_or_create_found config st :
  let out := get_or_create config st in
  ∃ c, find_by_name (CollectionConfig.name config) (jellyfin (snd out)) = Some c
     ∧ jellyfin_id (snd out) = Some (Id c)
     ∧ live (Id c) (jellyfin (snd out)) = true.
Proof.
  cbv zeta. unfold get_or_create, get_collections.
  destruct (find_by_name _ (jellyfin st)) as [c|] eqn:E; simpl.
  - exists c. split; [done|]. split; [done|]. by eapply find_by_name_live.
  - eexists. split; [by apply find_by_name_app_None|].
    split; [done|]. by apply live_app_fresh.
Qed.

Lemma get_or_create_existing config st c :
  find_by_name (CollectionConfig.name config) (jellyfin st) = Some c →
  fst (get_or_create config st) = true
  ∧ jellyfin (snd (get_or_create config st)) = jellyfin st
  ∧ calls (snd (get_or_create config st)) = calls st
  ∧ jellyfin_id (snd (get_or_create config st)) = Some (Id c).
Proof.
  intros E. unfold get_or_create, get_collections. by rewrite E.
Qed.

End WithBuilder.
End SyncFacts.

Module SyncRuns.
Import JellyfinClient Sync SyncSpec JellyfinFacts SyncFacts.

Section WithBuilder.
Context `{U : Unicode}.
Variable self : CollectionBuilder.
Variable env : Env.

Lemma target_of_sorted draws collection tl :
  target_of draws collection = Ok tl →
  ∃ sorted_items,
    Sort._sort_items_for_collection draws (Collection.items collection)
      (CollectionConfig.collection_order (Collection.config collection)) = Ok sorted_items
    ∧ tl = matched_ids sorted_items.
Proof.
  unfold target_of. destruct (Sort._sort_items_for_collection _ _ _) as [s|]; [|done].
  rewrite bind_Ok. intros [= <-]. by exists s.
Qed.

Lemma find_by_name_same_id n s s' c :
  map ident s' = map ident s → find_by_name n s = Some c →
  ∃ c', find_by_name n s' = Some c' ∧ Id c' = Id c.
Proof.
  intros Hi Hc. pose proof (find_by_name_ident n s s' Hi) as H. rewrite Hc in H.
  destruct (find_by_name n s') as [c'|]; [|done]. exists c'. split; [done|].
  by injection H.
Qed.

(** A run that gets past the sort leaves the collection, found by its
    name, with exactly the target as members. *)
Lemma sync_collection_settles collection add st tl :
  dry_run self = false →
  target_of (draws env) collection = Ok tl →
  let out := sync_collection self env collection add st in
  ∃ c, find_by_name (CollectionConfig.name (Collection.config collection))
         (jellyfin (snd out)) = Some c
     ∧ members (Id c) (jellyfin (snd out)) = list_to_set tl.
Proof.
  intros Hdry Ht. cbv zeta. unfold sync_collection. rewrite Hdry.
  destruct (target_of_sorted _ _ _ Ht) as (sorted & Hs & ->). rewrite Hs.
  pose proof (get_or_create_found (Collection.config collection) st) as Hg.
  cbv zeta in Hg.
  destruct (get_or_create (Collection.config collection) st) as [existed st_a].
  destruct Hg as (c & Hfind & Hid & Hlive). cbn [snd] in *.
  rewrite Hid. cbn [Filters.unwrap_str].
  match goal with
  | |- context [apply_changes env ?o ?e ?i ?cur ?l ?s] =>
    pose proof (apply_changes_members env o e i cur l s Hlive eq_refl) as Ha;
    cbv zeta in Ha; set (st_c := apply_changes env o e i cur l s) in *
  end.
  destruct Ha as [Hm Hi].
  match goal with
  | |- context [finish_sync self env ?c ?a ?i ?x ?y st_c] =>
    pose proof (finish_sync_frame self env c a i x y st_c) as Hf;
    cbv zeta in Hf; destruct Hf as ([Hv _] & _);
    set (out := finish_sync self env c a i x y st_c) in *
  end.
  destruct (find_by_name_same_id _ _ _ c Hi Hfind) as (c1 & Hc1 & Hid1).
  destruct (find_by_name_same_id _ _ _ c1 (view_ident _ _ Hv) Hc1) as (c2 & Hc2 & Hid2).
  exists c2. split; [done|].
  unfold members. rewrite (get_collection_items_view _ _ _ Hv), Hid2, Hid1. exact Hm.
Qed.

(** A run on a collection that exists with the target as its members
    changes no membership: nothing to add, nothing to remove, no reorder,
    whatever the ordering policy. *)
Lemma sync_collection_in_sync collection add st c tl :
  dry_run self = false →
  find_by_name (CollectionConfig.name (Collection.config collection)) (jellyfin st)
    = Some c →
  target_of (draws env) collection = Ok tl →
  members (Id c) (jellyfin st) = list_to_set tl →
  let out := sync_collection self env collection add st in
  same_membership st (snd out)
  ∧ CollectionReport.items_added_to_collection (report (snd out)) = O
  ∧ CollectionReport.items_removed_from_collection (report (snd out)) = O
  ∧ (∀ counts, fst out = Ok counts → counts = (O, O)).
Proof.
  intros Hdry Hfind Ht Hm. cbv zeta. unfold sync_collection. rewrite Hdry.
  destruct (target_of_sorted _ _ _ Ht) as (sorted & Hs & ->). rewrite Hs.
  destruct (get_or_create_existing (Collection.config collection) st c Hfind)
    as (He & Hj & Hc & Hid).
  destruct (get_or_create (Collection.config collection) st) as [existed st_a].
  cbn [fst snd] in *. subst existed. rewrite Hid. cbn [Filters.unwrap_str].
  change (list_to_set (get_collection_items (Id c) (jellyfin st_a)))
    with (members (Id c) (jellyfin st_a)).
  rewrite Hj, Hm, !difference_diag_L, size_empty, apply_changes_in_sync.
  match goal with
  | |- context [finish_sync self env ?c ?a ?i ?x ?y ?s] =>
    pose proof (finish_sync_frame self env c a i x y s) as Hf;
    cbv zeta in Hf; destruct Hf as ([Hv Hmc] & Ha & Hr & Hcounts);
    set (out := finish_sync self env c a i x y s) in *
  end.
  split; [|done]. split.
  - rewrite Hv. change (jellyfin (on_report ?f ?s)) with (jellyfin s). by rewrite Hj.
  - rewrite Hmc. unfold membership_calls.
    change (calls (on_report ?f ?s)) with (calls s). by rewrite Hc.
Qed.

(** What such a run issues: the metadata update, followed by nothing but
    the poster upload and the acquisition requests. *)
Lemma sync_collection_in_sync_calls collection add st c tl :
  dry_run self = false →
  find_by_name (CollectionConfig.name (Collection.config collection)) (jellyfin st)
    = Some c →
  target_of (draws env) collection = Ok tl →
  members (Id c) (jellyfin st) = list_to_set tl →
  ∃ rest,
    calls (snd (sync_collection self env collection add st))
    = calls st
      ++ JfUpdateCollectionMetadata (Id c)
           (CollectionConfig.summary (Collection.config collection))
           (CollectionConfig.sort_title (Collection.config collection))
           (_get_jellyfin_display_order
              (CollectionConfig.collection_order (Collection.config collection)))
         :: rest
    ∧ forallb (follows_metadata (Id c)
                 (truthy_str (CollectionConfig.poster (Collection.config collection)))
                 add) rest = true.
Proof.
  intros Hdry Hfind Ht Hm. unfold sync_collection. rewrite Hdry.
  destruct (target_of_sorted _ _ _ Ht) as (sorted & Hs & ->). rewrite Hs.
  destruct (get_or_create_existing (Collection.config collection) st c Hfind)
    as (He & Hj & Hc & Hid).
  destruct (get_or_create (Collection.config collection) st) as [existed st_a].
  cbn [fst snd] in *. subst existed. rewrite Hid. cbn [Filters.unwrap_str].
  change (list_to_set (get_collection_items (Id c) (jellyfin st_a)))
    with (members (Id c) (jellyfin st_a)).
  rewrite Hj, Hm, !difference_diag_L, size_empty, apply_changes_in_sync.
  match goal with
  | |- context [finish_sync self env ?c ?a ?i ?x ?y ?s] =>
    destruct (finish_sync_calls self env c a i x y s) as (rest & Hcalls & Hall);
      [done|]
  end.
  exists rest. split; [|done]. rewrite Hcalls.
  change (calls (on_report ?f ?s)) with (calls s). by rewrite Hc.
Qed.

Lemma sync_collection_updates_metadata collection add st c :
  dry_run self = false →
  find_by_name (CollectionConfig.name (Collection.config collection)) (jellyfin st)
    = Some c →
  is_ok (target_of (draws env) collection) = true →
  JfUpdateCollectionMetadata (Id c)
    (CollectionConfig.summary (Collection.config collection))
    (CollectionConfig.sort_title (Collection.config collection))
    (_get_jellyfin_display_order
       (CollectionConfig.collection_order (Collection.config collection)))
  ∈ calls (snd (sync_collection self env collection add st)).
Proof.
  intros Hdry Hfind Ht. unfold sync_collection. rewrite Hdry.
  unfold target_of in Ht.
  destruct (get_or_create_existing (Collection.config collection) st c Hfind)
    as (_ & _ & _ & Hid).
  destruct (get_or_create (Collection.config collection) st) as [existed st_a].
  cbn [snd] in Hid. rewrite Hid. cbn [Filters.unwrap_str].
  destruct (Sort._sort_items_for_collection _ _ _); [|done].
  apply finish_sync_updates_metadata.
Qed.

(** A run on an existing collection whose membership differs from a
    non-empty target, under a policy other than custom: the collection is
    cleared and the target re-added in target order. *)
Lemma sync_collection_reorders collection add st c tl :
  dry_run self = false →
  find_by_name (CollectionConfig.name (Collection.config collection)) (jellyfin st)
    = Some c →
  target_of (draws env) collection = Ok tl →
  tl ≠ [] →
  CollectionConfig.collection_order (Collection.config collection) ≠ CUSTOM →
  members (Id c) (jellyfin st) ≠ list_to_set tl →
  let out := sync_collection self env collection add st in
  let cur := members (Id c) (jellyfin st) in
  membership_calls (snd out)
  = membership_calls st
    ++ (if nonempty cur
        then [JfRemoveFromCollection (Id c) (list_of_set (set_order env) cur)] else [])
    ++ [JfAddToCollection (Id c) tl]
  ∧ get_collection_items (Id c) (jellyfin (snd out)) = JellyfinClient.add_items tl [].
Proof.
  intros Hdry Hfind Ht Htl Ho Hne. cbv zeta. unfold sync_collection. rewrite Hdry.
  destruct (target_of_sorted _ _ _ Ht) as (sorted & Hs & ->). rewrite Hs.
  destruct (get_or_create_existing (Collection.config collection) st c Hfind)
    as (He & Hj & Hc & Hid).
  pose proof (find_by_name_live _ _ _ Hfind) as Hlive.
  destruct (get_or_create (Collection.config collection) st) as [existed st_a].
  cbn [fst snd] in *. subst existed. rewrite Hid. cbn [Filters.unwrap_str].
  change (list_to_set (get_collection_items (Id c) (jellyfin st_a)))
    with (members (Id c) (jellyfin st_a)).
  rewrite Hj.
  match goal with
  | |- context [apply_changes env ?o ?e ?i ?cur ?l ?s] =>
    assert (live i (jellyfin s) = true) as Hl by (by rewrite <- Hj in Hlive);
    assert (cur = members i (jellyfin s)) as Hcur
      by (change (jellyfin s) with (jellyfin st_a); by rewrite Hj);
    pose proof (apply_changes_reorder env o e i cur l s Ho Htl Hl Hcur (or_intror Hne)) as Ha;
    cbv zeta in Ha; set (st_c := apply_changes env o e i cur l s) in *
  end.
  destruct Ha as [Hcalls Hitems].
  match goal with
  | |- context [finish_sync self env ?c ?a ?i ?x ?y st_c] =>
    pose proof (finish_sync_frame self env c a i x y st_c) as Hf;
    cbv zeta in Hf; destruct Hf as ([Hv Hmc] & _);
    set (out := finish_sync self env c a i x y st_c) in *
  end.
  split.
  - rewrite Hmc. unfold membership_calls. rewrite Hcalls.
    change (calls (on_report ?f ?s)) with (calls s). rewrite Hc.
    rewrite !List.filter_app. by destruct (nonempty _).
  - by rewrite (get_collection_items_view _ _ _ Hv).
Qed.

Lemma sync_collection_dry_run collection add st :
  dry_run self = true → sync_collection self env collection add st = (Ok (O, O), st).
Proof. intros Hdry. unfold sync_collection. by rewrite Hdry. Qed.

Lemma sync_collection_sort_error collection add st :
  dry_run self = false →
  is_ok (fst (sync_collection self env collection add st)) = true →
  is_ok (target_of (draws env) collection) = true.
Proof.
  intros Hdry. unfold sync_collection, target_of. rewrite Hdry.
  destruct (get_or_create _ _) as [existed st_a].
  by destruct (Sort._sort_items_for_collection _ _ _).
Qed.

(** Whether a run returns depends on the sort and on the acquisition
    requests, not on the state it starts from. *)
Lemma sync_collection_returns collection add st st' :
  is_ok (fst (sync_collection self env collection add st))
  = is_ok (fst (sync_collection self env collection add st')).
Proof.
  unfold sync_collection. destruct (dry_run self); [done|].
  destruct (get_or_create _ st) as [e1 s1], (get_or_create _ st') as [e2 s2].
  destruct (Sort._sort_items_for_collection _ _ _); [|done].
  apply finish_sync_result.
Qed.

End WithBuilder.

Lemma target_of_draws `{U : Unicode} draws draws' collection :
  CollectionConfig.collection_order (Collection.config collection) ≠ RANDOM →
  target_of draws collection = target_of draws' collection.
Proof.
  unfold target_of. by destruct (CollectionConfig.collection_order _).
Qed.

Lemma sync_collection_env `{U : Unicode} self env env' collection add st :
  CollectionConfig.collection_order (Collection.config collection) ≠ RANDOM →
  is_ok (fst (sync_collection self env collection add st))
  = is_ok (fst (sync_collection self env' collection add st)).
Proof.
  intros Ho. unfold sync_collection. destruct (dry_run self); [done|].
  destruct (get_or_create _ st) as [e1 s1].
  assert (Sort._sort_items_for_collection (draws env) (Collection.items collection)
            (CollectionConfig.collection_order (Collection.config collection))
          = Sort._sort_items_for_collection (draws env') (Collection.items collection)
            (CollectionConfig.collection_order (Collection.config collection))) as ->.
  { by destruct (CollectionConfig.collection_order _). }
  destruct (Sort._sort_items_for_collection _ _ _); [|done].
  unfold finish_sync. destruct add; [|done].
  match goal with
  | |- is_ok (fst (let (_, _) := _add_missing_to_arr self collection ?s1 in _))
       = is_ok (fst (let (_, _) := _add_missing_to_arr self collection ?s2 in _)) =>
    pose proof (_add_missing_to_arr_result self collection s1 s2) as H;
    destruct (_add_missing_to_arr self collection s1) as [[[? ?]|?] ?];
    destruct (_add_missing_to_arr self collection s2) as [[[? ?]|?] ?]; done
  end.
Qed.

End SyncRuns.

Module SyncTheorems.
Import JellyfinClient Sync SyncSpec JellyfinFacts SyncFacts SyncRuns SyncSamples.

(** C10: with [dry_run] set, [sync_collection] returns [(0, 0)] and
    leaves everything as it was - the server (no collection created, no
    membership, metadata or poster change), the requests issued, the
    report and the collection's [jellyfin_id]. *)
Theorem sync_dry_run_changes_nothing `{U : Unicode}
    self env collection add_missing_to_arr st :
  dry_run self = true →
  sync_collection self env collection add_missing_to_arr st = (Ok (O, O), st).
Proof. intros Hdry. unfold sync_collection. by rewrite Hdry. Qed.

Lemma sync_dry_run_changes_nothing_witness :
  sync_collection (builder true) env (trending SORT_NAME) true (state0 [])
  = (Ok (O, O), state0 []).
Proof.
  apply (sync_dry_run_changes_nothing (builder true) env (trending SORT_NAME) true
           (state0 [])).
  reflexivity.
Defined.

(** C2, as stated, fails: the collection exists with members jf-2 and
    jf-1, which is the target set; under the name policy the run issues
    the metadata update only - no clear, no re-add - and the members stay
    in the order they were, which is not the target order. *)
Lemma sync_by_name_in_sync_does_not_reorder :
  let out := sync_collection (builder false) env (trending SORT_NAME) true
               (state0 server) in
  target_of (draws env) (trending SORT_NAME) = Ok ["jf-1"; "jf-2"]
  ∧ get_collection_items "col-1" server = ["jf-2"; "jf-1"]
  ∧ fst out = Ok (O, O)
  ∧ calls (snd out) = [JfUpdateCollectionMetadata "col-1" None None "SortName"]
  ∧ get_collection_items "col-1" (jellyfin (snd out)) = ["jf-2"; "jf-1"].
Proof. vm_compute. by repeat split. Qed.

(** C2, amended: for a collection that already exists remotely with
    membership equal to the target set, [sync_collection] - under the name
    policy as under any other - issues no membership request: nothing is
    cleared or re-added, every collection keeps its members in the order
    they had, and the counts are [(0, 0)].  When the run returns, the
    changes it has requested of the services are the metadata update
    carrying the display order of the policy, followed by nothing but the
    upload of the poster of this collection (only when a poster is
    configured) and add requests to Radarr and Sonarr (only when
    [add_missing_to_arr] is set). *)
Theorem sync_in_sync_issues_no_reorder `{U : Unicode}
    self env collection add_missing_to_arr st c tl :
  dry_run self = false →
  find_by_name (CollectionConfig.name (Collection.config collection)) (jellyfin st)
    = Some c →
  target_of (draws env) collection = Ok tl →
  members (Id c) (jellyfin st) = list_to_set tl →
  let out := sync_collection self env collection add_missing_to_arr st in
  membership_calls (snd out) = membership_calls st
  ∧ (∀ id, get_collection_items id (jellyfin (snd out))
           = get_collection_items id (jellyfin st))
  ∧ (∀ counts, fst out = Ok counts → counts = (O, O))
  ∧ (is_ok (fst out) = true →
     ∃ rest,
       calls (snd out)
       = calls st
         ++ JfUpdateCollectionMetadata (Id c)
              (CollectionConfig.summary (Collection.config collection))
              (CollectionConfig.sort_title (Collection.config collection))
              (_get_jellyfin_display_order
                 (CollectionConfig.collection_order (Collection.config collection)))
            :: rest
       ∧ forallb (follows_metadata (Id c)
                    (truthy_str (CollectionConfig.poster (Collection.config collection)))
                    add_missing_to_arr) rest = true).
Proof.
  intros Hdry Hfind Ht Hm. cbv zeta.
  destruct (sync_collection_in_sync self env collection add_missing_to_arr st c tl
              Hdry Hfind Ht Hm) as ([Hv Hc] & _ & _ & Hcounts).
  split; [done|]. split; [intros id; by apply get_collection_items_view|].
  split; [done|]. intros _.
  by apply (sync_collection_in_sync_calls self env collection add_missing_to_arr st c tl).
Qed.

Lemma sync_in_sync_issues_no_reorder_witness :
  let out := sync_collection (builder false) env trending_poster true (state0 server) in
  membership_calls (snd out) = membership_calls (state0 server)
  ∧ (∀ id, get_collection_items id (jellyfin (snd out))
           = get_collection_items id (jellyfin (state0 server)))
  ∧ (∀ counts, fst out = Ok counts → counts = (O, O))
  ∧ (is_ok (fst out) = true →
     ∃ rest,
       calls (snd out)
       = calls (state0 server)
         ++ JfUpdateCollectionMetadata "col-1" None None "SortName" :: rest
       ∧ forallb (follows_metadata "col-1" true true) rest = true).
Proof.
  apply (sync_in_sync_issues_no_reorder (builder false) env trending_poster true
           (state0 server) trending_remote ["jf-1"; "jf-2"]).
  - reflexivity.
  - reflexivity.
  - reflexivity.
  - vm_compute. reflexivity.
Defined.

(** With a poster configured, the in-sync run issues the metadata update
    and the poster upload, and still no membership request. *)
Example sync_in_sync_with_poster :
  let out := sync_collection (builder false) env trending_poster true (state0 server) in
  fst out = Ok (O, O)
  ∧ calls (snd out)
    = [JfUpdateCollectionMetadata "col-1" None None "SortName";
       JfUploadCollectionPoster "col-1" "/config/posters/trending.jpg"]
  ∧ get_collection_items "col-1" (jellyfin (snd out)) = ["jf-2"; "jf-1"].
Proof. vm_compute. by repeat split. Qed.

(** C3: run [sync_collection] twice on the same collection under a
    policy other than random, the first run returning, and let the second
    start from the server and request log the first one left (with any
    report object, any value of [jellyfin_id], any random draws, poster
    outcome and listing order of sets).  The first run, unless it is a dry
    run, leaves the collection - found by its name - with exactly the
    target set as members, so that for the second run, whose target is the
    same, [target_ids - current_ids] and [current_ids - target_ids] are
    both empty.  The second run issues no membership request and changes
    no membership; and when it returns, the counts it returns and has
    written to the report are zero. *)
Theorem sync_twice_second_run_is_noop `{U : Unicode}
    self env env' collection add_missing_to_arr add_missing_to_arr' st st' :
  CollectionConfig.collection_order (Collection.config collection) ≠ RANDOM →
  let first := sync_collection self env collection add_missing_to_arr st in
  is_ok (fst first) = true →
  jellyfin st' = jellyfin (snd first) →
  calls st' = calls (snd first) →
  let second := sync_collection self env' collection add_missing_to_arr' st' in
  (dry_run self = false →
     ∃ tl c,
       target_of (draws env) collection = Ok tl
       ∧ target_of (draws env') collection = Ok tl
       ∧ find_by_name (CollectionConfig.name (Collection.config collection))
           (jellyfin (snd first)) = Some c
       ∧ members (Id c) (jellyfin (snd first)) = list_to_set tl
       ∧ list_to_set tl ∖ members (Id c) (jellyfin st') = ∅
       ∧ members (Id c) (jellyfin st') ∖ list_to_set tl = ∅)
  ∧ membership_calls (snd second) = membership_calls (snd first)
  ∧ (∀ id, get_collection_items id (jellyfin (snd second))
           = get_collection_items id (jellyfin (snd first)))
  ∧ (∀ counts, fst second = Ok counts →
       counts = (O, O)
       ∧ (dry_run self = false →
            CollectionReport.items_added_to_collection (report (snd second)) = O
            ∧ CollectionReport.items_removed_from_collection (report (snd second)) = O)).
Proof.
  intros Horder first Hok Hj Hc second.
  assert (membership_calls st' = membership_calls (snd first)) as Hmc
    by (unfold membership_calls; by rewrite Hc).
  destruct (dry_run self) eqn:Hdry.
  - unfold second. rewrite sync_collection_dry_run by done. cbn [fst snd].
    rewrite Hj. split; [done|]. split; [done|]. split; [done|].
    by intros counts [= <-].
  - pose proof (sync_collection_sort_error self env collection _ st Hdry Hok) as Ht.
    destruct (target_of (draws env) collection) as [tl|] eqn:Htl; [|done]. clear Ht.
    destruct (sync_collection_settles self env collection add_missing_to_arr st tl
                Hdry Htl) as (c & Hfind & Hm).
    fold first in Hfind, Hm.
    pose proof Htl as Htl'.
    rewrite (target_of_draws _ (draws env') _ Horder) in Htl'.
    split; [intros _; exists tl, c; rewrite Hj, Hm, difference_diag_L; by split_and!|].
    rewrite <- Hj in Hfind, Hm.
    destruct (sync_collection_in_sync self env' collection add_missing_to_arr' st' c tl
                Hdry Hfind Htl' Hm) as ([Hv Hc'] & Ha & Hr & Hcounts).
    fold second in Hv, Hc', Ha, Hr, Hcounts.
    split; [by rewrite Hc'|].
    split; [intros id; rewrite <- Hj; by apply get_collection_items_view|].
    intros counts Hsecond. split; [by apply Hcounts|done].
Qed.

Lemma sync_twice_second_run_is_noop_witness :
  let first := sync_collection (builder false) env (trending SORT_NAME) true (state0 []) in
  let st' := mk_state (jellyfin (snd first)) (calls (snd first)) report0 None in
  let second := sync_collection (builder false) env (trending SORT_NAME) true st' in
  (dry_run (builder false) = false →
     ∃ tl c,
       target_of (draws env) (trending SORT_NAME) = Ok tl
       ∧ target_of (draws env) (trending SORT_NAME) = Ok tl
       ∧ find_by_name "Trending" (jellyfin (snd first)) = Some c
       ∧ members (Id c) (jellyfin (snd first)) = list_to_set tl
       ∧ list_to_set tl ∖ members (Id c) (jellyfin st') = ∅
       ∧ members (Id c) (jellyfin st') ∖ list_to_set tl = ∅)
  ∧ membership_calls (snd second) = membership_calls (snd first)
  ∧ (∀ id, get_collection_items id (jellyfin (snd second))
           = get_collection_items id (jellyfin (snd first)))
  ∧ (∀ counts, fst second = Ok counts →
       counts = (O, O)
       ∧ (dry_run (builder false) = false →
            CollectionReport.items_added_to_collection (report (snd second)) = O
            ∧ CollectionReport.items_removed_from_collection (report (snd second)) = O)).
Proof.
  intros first st'.
  apply (sync_twice_second_run_is_noop (builder false) env env (trending SORT_NAME)
           true true (state0 []) st').
  - discriminate.
  - reflexivity.
  - reflexivity.
  - reflexivity.
Defined.

(** In this model the server answers every request, so the second run
    returns whenever it is asked for the same acquisition step as the
    first: whether a run returns depends on the sort and on the TMDb
    look-ups of that step alone. *)
Lemma sync_twice_second_run_returns `{U : Unicode}
    self env env' collection add_missing_to_arr st st' :
  CollectionConfig.collection_order (Collection.config collection) ≠ RANDOM →
  is_ok (fst (sync_collection self env collection add_missing_to_arr st)) = true →
  is_ok (fst (sync_collection self env' collection add_missing_to_arr st')) = true.
Proof.
  intros Horder Hok.
  rewrite (sync_collection_env self env' env collection _ st' Horder).
  by rewrite (sync_collection_returns self env collection _ st' st).
Qed.

(** The first run creates the collection and adds the two matched
    items in target order; the second finds nothing to do. *)
Example sync_twice_scenario :
  let first := sync_collection (builder false) env (trending SORT_NAME) true (state0 []) in
  let second := sync_collection (builder false) env (trending SORT_NAME) true
                  (mk_state (jellyfin (snd first)) (calls (snd first)) report0 None) in
  fst first = Ok (2%nat, O)
  ∧ membership_calls (snd first) = [JfAddToCollection "0" ["jf-1"; "jf-2"]]
  ∧ fst second = Ok (O, O)
  ∧ membership_calls (snd second) = [JfAddToCollection "0" ["jf-1"; "jf-2"]].
Proof. vm_compute. by repeat split. Qed.

(** The end-to-end scenario of the specification: the library holds
    item 1, the target is items 1 and 2; the difference is one item to add
    and none to remove.  Under the custom policy the missing item is added;
    under the name policy the collection is cleared and re-added in target
    order. *)
Example sync_diff_scenario :
  let out := sync_collection (builder false) env (trending CUSTOM) true
               (state0 server_behind) in
  fst out = Ok (1%nat, O)
  ∧ membership_calls (snd out) = [JfAddToCollection "col-1" ["jf-2"]]
  ∧ get_collection_items "col-1" (jellyfin (snd out)) = ["jf-1"; "jf-2"].
Proof. vm_compute. by repeat split. Qed.

Example sync_reorder_scenario :
  let out := sync_collection (builder false) env (trending SORT_NAME) true
               (state0 server_behind) in
  fst out = Ok (1%nat, O)
  ∧ membership_calls (snd out)
    = [JfRemoveFromCollection "col-1" ["jf-1"];
       JfAddToCollection "col-1" ["jf-1"; "jf-2"]]
  ∧ get_collection_items "col-1" (jellyfin (snd out)) = ["jf-1"; "jf-2"].
Proof. vm_compute. by repeat split. Qed.

End SyncTheorems.

(** * Further properties of the builder *)

Module FetchExtras.
Import Fetch FetchFacts FetchSpec Samples.

Lemma kept_idem seen l : kept seen (kept seen l) = kept seen l.
Proof.
  revert seen. induction l as [|item r IH]; intros seen; simpl; [done|].
  destruct (MediaItem.tmdb_id item) as [i|] eqn:Hid; [|apply IH].
  destruct (negb (i =? 0) && bool_decide (i ∉ seen)) eqn:Hc; [|apply IH].
  simpl. rewrite Hid, Hc. f_equal. apply IH.
Qed.

Lemma kept_covers seen l x i :
  x ∈ l → MediaItem.tmdb_id x = Some i → i ≠ 0 → i ∉ seen →
  ∃ y, y ∈ kept seen l ∧ MediaItem.tmdb_id y = Some i.
Proof.
  revert seen. induction l as [|item r IH]; intros seen Hx Hid Hnz Hns.
  - by apply elem_of_nil in Hx.
  - simpl. destruct (MediaItem.tmdb_id item) as [j|] eqn:Hj.
    + destruct (negb (j =? 0) && bool_decide (j ∉ seen)) eqn:Hc.
      * destruct (decide (j = i)) as [->|Hne].
        -- exists item. split; [by left|done].
        -- apply elem_of_cons in Hx. destruct Hx as [->|Hx]; [congruence|].
           destruct (IH ({[j]} ∪ seen) Hx Hid Hnz) as (y & Hy & Hyi); [set_solver|].
           exists y. split; [by right|done].
      * apply elem_of_cons in Hx. destruct Hx as [->|Hx]; [|by apply IH].
        rewrite Hid in Hj. injection Hj as <-.
        apply andb_false_iff in Hc. destruct Hc as [Hc|Hc].
        -- apply negb_false_iff, Z.eqb_eq in Hc. done.
        -- apply bool_decide_eq_false in Hc. done.
    + apply elem_of_cons in Hx. destruct Hx as [->|Hx]; [congruence|by apply IH].
Qed.

(** X1: deduplicating twice is deduplicating once, and no primary ID
    is lost: every non-zero [tmdb_id] met in the input is the id of a
    surviving item. *)
Theorem deduplicate_idempotent_and_covering items :
  deduplicate (deduplicate items) = deduplicate items
  ∧ ∀ x i, x ∈ items → MediaItem.tmdb_id x = Some i → i ≠ 0 →
      ∃ y, y ∈ deduplicate items ∧ MediaItem.tmdb_id y = Some i.
Proof.
  rewrite !deduplicate_kept. split; [apply kept_idem|].
  intros x i Hx Hid Hnz. eapply kept_covers; eauto. set_solver.
Qed.

Lemma deduplicate_idempotent_and_covering_witness :
  ∃ y, y ∈ deduplicate [item_A; item_A_dup; item_B] ∧ MediaItem.tmdb_id y = Some 1.
Proof.
  destruct (deduplicate_idempotent_and_covering [item_A; item_A_dup; item_B]) as [_ H].
  apply (H item_A_dup 1); [set_solver|reflexivity|lia].
Defined.

(** X2: without a Trakt client the Trakt options of the configuration
    play no part: two configurations that ask the same of TMDb fetch the
    same, and no Trakt failure can reach the result. *)
Theorem fetch_items_without_trakt_client tmdb c1 c2 media_type :
  same_tmdb_options c1 c2 →
  _fetch_items tmdb None c1 media_type = _fetch_items tmdb None c2 media_type.
Proof.
  intros (H1 & H2 & H3 & H4). unfold _fetch_items. by rewrite H1, H2, H3, H4.
Qed.

Lemma fetch_items_without_trakt_client_witness :
  _fetch_items (tmdb_client (Ok [item_A]) (Ok [item_B])) None
    (config "Trending" CUSTOM (Some 20) (Some 20)) MOVIE
  = _fetch_items (tmdb_client (Ok [item_A]) (Ok [item_B])) None
      (CollectionConfig.mk "Other" "weekly" None None None SORT_NAME
         CollectionFilter.default None (Some 20) None (Some 20) None
         (Some 10) (Some 10) (Some [("chart", AStr "popular")]) None
         None None None None None None None None) MOVIE.
Proof.
  apply fetch_items_without_trakt_client. by repeat split.
Defined.

Lemma _fetch_trakt_chart_unknown trakt chart media_type :
  known_chart chart = false → _fetch_trakt_chart trakt chart media_type = Ok [].
Proof.
  unfold known_chart, _fetch_trakt_chart. intros H.
  apply orb_false_iff in H. destruct H as [H H3].
  apply orb_false_iff in H. destruct H as [H1 H2].
  destruct trakt; [|done]. by rewrite H1, H2, H3.
Qed.

Lemma provider_calls_no_feed tmdb trakt config media_type :
  no_feed config →
  provider_calls tmdb trakt config media_type
  = match trakt with
    | Some _ => if truthy_dict (CollectionConfig.trakt_chart config) then [Ok []] else []
    | None => []
    end.
Proof.
  intros (H1 & H2 & H3 & H4 & H5 & H6 & H7).
  unfold provider_calls, call_if. rewrite H1, H2, H3, H4.
  destruct trakt as [tk|]; [|done]. rewrite H5, H6.
  destruct (truthy_dict (CollectionConfig.trakt_chart config)); [|done].
  destruct H7 as [H7|H7]; [done|]. by rewrite _fetch_trakt_chart_unknown.
Qed.

Lemma _fetch_items_no_feed tmdb trakt config media_type :
  no_feed config → _fetch_items tmdb trakt config media_type = Ok [].
Proof.
  intros H. rewrite _fetch_items_gather, provider_calls_no_feed by done.
  destruct trakt; [|reflexivity].
  destruct (truthy_dict (CollectionConfig.trakt_chart config)); reflexivity.
Qed.

(** X3: a configuration that names no feed - none of the TMDb and
    Trakt options set, a Trakt chart of an unknown kind at most - fetches
    the empty list, makes no provider call and raises nothing, whatever the
    clients would answer. *)
Theorem fetch_items_without_feed tmdb trakt config media_type :
  no_feed config →
  provider_calls tmdb trakt config media_type
    = match trakt with
      | Some _ => if truthy_dict (CollectionConfig.trakt_chart config) then [Ok []] else []
      | None => []
      end
  ∧ _fetch_items tmdb trakt config media_type = Ok [].
Proof.
  intros H. split; [by apply provider_calls_no_feed|by apply _fetch_items_no_feed].
Qed.

Lemma fetch_items_without_feed_witness :
  _fetch_items (tmdb_client (Raise unavailable) (Raise unavailable)) (Some trakt_down)
    (chart_only [("chart", AStr "anticipated")]) MOVIE = Ok [].
Proof.
  apply (fetch_items_without_feed (tmdb_client (Raise unavailable) (Raise unavailable))
           (Some trakt_down) (chart_only [("chart", AStr "anticipated")]) MOVIE).
  unfold no_feed. repeat split; try reflexivity. right. reflexivity.
Defined.

End FetchExtras.

Module FilterExtras.
Import Filters FilterSamples FilterSpec FilterTheorems.

Lemma slice_to_sublist {A} (l : list A) n : sublist (slice_to l n) l.
Proof.
  unfold slice_to. destruct (0 <=? n); apply sublist_take.
Qed.

Lemma filter_sublist {A} (p : A → bool) (l : list A) : sublist (List.filter p l) l.
Proof.
  induction l as [|x l IH]; simpl; [constructor|].
  destruct (p x); by constructor.
Qed.

Lemma filter_all {A} (p : A → bool) (l : list A) :
  Forall (fun x => p x = true) l → List.filter p l = l.
Proof.
  induction 1 as [|x l Hx _ IH]; simpl; [done|]. by rewrite Hx, IH.
Qed.

Lemma filter_Forall {A} (p : A → bool) (l : list A) :
  Forall (fun x => p x = true) (List.filter p l).
Proof.
  apply Forall_forall. intros x Hx. apply list_elem_of_In, filter_In in Hx. tauto.
Qed.

Lemma _apply_filters_kept items config :
  Forall (fun x => keeps (CollectionConfig.filters config) x = true)
    (_apply_filters items config).
Proof.
  unfold _apply_filters. destruct (truthy_int _); [|apply filter_Forall].
  apply (Forall_forall (fun x => keeps (CollectionConfig.filters config) x = true)).
  intros x Hx.
  pose proof (slice_to_sublist
    (List.filter (keeps (CollectionConfig.filters config)) items)
    (unwrap_int (CollectionConfig.limit config))) as Hsub.
  apply (elem_of_sublist _ _ _ Hx) in Hsub.
  apply list_elem_of_In, filter_In in Hsub. tauto.
Qed.

Lemma _apply_filters_sublist items config : sublist (_apply_filters items config) items.
Proof.
  unfold _apply_filters. destruct (truthy_int _).
  - etransitivity; [apply slice_to_sublist|apply filter_sublist].
  - apply filter_sublist.
Qed.

(** X4: [_apply_filters] returns a sub-list of its input, in the input
    order, every item of which passes the filter chain.  A positive limit
    [n] keeps the first [n] survivors; no limit or limit 0 keeps them all;
    a negative limit drops the last [-n] survivors. *)
Theorem apply_filters_selects_in_order items config :
  let kept := List.filter (keeps (CollectionConfig.filters config)) items in
  let out := _apply_filters items config in
  sublist out items
  ∧ Forall (fun x => keeps (CollectionConfig.filters config) x = true) out
  ∧ match CollectionConfig.limit config with
    | None => out = kept
    | Some n =>
      if n =? 0 then out = kept
      else if 0 <? n then out = take (Z.to_nat n) kept ∧ (length out <= Z.to_nat n)%nat
      else out = take (length kept - Z.to_nat (- n)) kept
    end.
Proof.
  cbv zeta. split; [apply _apply_filters_sublist|]. split; [apply _apply_filters_kept|].
  unfold _apply_filters, truthy_int, slice_to.
    destruct (CollectionConfig.limit config) as [n|]; [|done]. simpl.
    destruct (Z.eqb_spec n 0) as [->|Hn]; [done|]. simpl.
    destruct (Z.ltb_spec 0 n), (Z.leb_spec 0 n); try lia.
    + split; [done|]. rewrite length_take. lia.
    + done.
Qed.

Lemma take_take_same {A} (n : nat) (l : list A) : take n (take n l) = take n l.
Proof. rewrite take_take. f_equal. lia. Qed.

(** X5: with a limit that is not negative, filtering what was already
    filtered changes nothing. *)
Theorem apply_filters_idempotent items config :
  limit_not_negative config →
  _apply_filters (_apply_filters items config) config = _apply_filters items config.
Proof.
  intros Hl. pose proof (_apply_filters_kept items config) as Hk.
  unfold _apply_filters at 1. rewrite (filter_all _ _ Hk).
  destruct (truthy_int (CollectionConfig.limit config)) eqn:Ht; [|done].
  unfold _apply_filters. rewrite Ht. unfold slice_to, limit_not_negative in *.
  destruct (CollectionConfig.limit config) as [n|]; [|done]. simpl.
  destruct (Z.leb_spec 0 n); [|lia]. apply take_take_same.
Qed.

Lemma apply_filters_idempotent_witness :
  _apply_filters (_apply_filters catalog recent_live_action) recent_live_action
  = _apply_filters catalog recent_live_action.
Proof.
  apply (apply_filters_idempotent catalog recent_live_action).
  unfold limit_not_negative. simpl. lia.
Defined.

Example apply_filters_scenario :
  map MediaItem.title (_apply_filters catalog recent_live_action)
  = ["Dune: Part Two"; "Oppenheimer"].
Proof. reflexivity. Qed.

Lemma int_lower_bound (G Y : option Z) :
  truthy_int G && truthy_int Y && (unwrap_int Y <? unwrap_int G) = false ↔
  (∀ y g, Y = Some y → y ≠ 0 → G = Some g → g ≠ 0 → g <= y).
Proof.
  destruct G as [g|], Y as [y|]; simpl; rewrite ?andb_false_r;
    try (split; [intros; congruence|done]).
  destruct (Z.eqb_spec g 0), (Z.eqb_spec y 0); simpl;
    try (split; [intros _ ? ? [= <-] ? [= <-] ?; done|done]).
  rewrite Z.ltb_ge. split; [intros ? ? ? [= <-] ? [= <-] ?; done|].
  intros H. by apply H.
Qed.

Lemma int_upper_bound (G Y : option Z) :
  truthy_int G && truthy_int Y && (unwrap_int G <? unwrap_int Y) = false ↔
  (∀ y g, Y = Some y → y ≠ 0 → G = Some g → g ≠ 0 → y <= g).
Proof.
  destruct G as [g|], Y as [y|]; simpl; rewrite ?andb_false_r;
    try (split; [intros; congruence|done]).
  destruct (Z.eqb_spec g 0), (Z.eqb_spec y 0); simpl;
    try (split; [intros _ ? ? [= <-] ? [= <-] ?; done|done]).
  rewrite Z.ltb_ge. split; [intros ? ? ? [= <-] ? [= <-] ?; done|].
  intros H. by apply H.
Qed.

Lemma float_lower_bound (G V : option Q) :
  truthy_float G && truthy_float V && Qltb (unwrap_float V) (unwrap_float G) = false ↔
  (∀ v g, V = Some v → ¬ (v == 0)%Q → G = Some g → ¬ (g == 0)%Q → (g <= v)%Q).
Proof.
  destruct G as [g|], V as [v|]; simpl; rewrite ?andb_false_r;
    try (split; [intros; congruence|done]).
  destruct (Qeq_bool g 0) eqn:Eg; simpl.
  { apply Qeq_bool_iff in Eg. split; [intros _ ? ? _ _ [= <-] ?; done|done]. }
  destruct (Qeq_bool v 0) eqn:Ev; simpl.
  { apply Qeq_bool_iff in Ev. split; [intros _ ? ? [= <-] ?; done|done]. }
  rewrite OrdFacts.Qltb_false. split; [intros ? ? ? [= <-] _ [= <-] _; done|].
  intros H. apply H; try done; intros E; apply Qeq_bool_iff in E; congruence.
Qed.

Lemma in_strs_elem_of x l : in_strs x l = true ↔ x ∈ l.
Proof.
  unfold in_strs. rewrite existsb_exists. split.
  - intros (y & Hy & Heq). apply String.eqb_eq in Heq. subst. by apply list_elem_of_In.
  - intros Hx. exists x. split; [by apply list_elem_of_In|apply String.eqb_refl].
Qed.

Lemma in_ints_elem_of x l : in_ints x l = true ↔ x ∈ l.
Proof.
  unfold in_ints. rewrite existsb_exists. split.
  - intros (y & Hy & Heq). apply Z.eqb_eq in Heq. subst. by apply list_elem_of_In.
  - intros Hx. exists x. split; [by apply list_elem_of_In|apply Z.eqb_refl].
Qed.

Lemma str_not_excluded (L : list string) (S : option string) :
  truthy_list L && truthy_str S && in_strs (unwrap_str S) L = false ↔
  (∀ s, S = Some s → s ≠ "" → s ∉ L).
Proof.
  destruct S as [s|]; simpl; [|by rewrite andb_false_r].
  destruct (String.eqb_spec s "") as [->|Hs]; simpl.
  { rewrite andb_false_r. split; [intros _ ? [= <-] ?; done|done]. }
  rewrite andb_true_r. destruct (in_strs s L) eqn:E.
  - apply in_strs_elem_of in E. destruct L; [by apply elem_of_nil in E|]. simpl.
    split; [done|]. intros H. by destruct (H s).
  - rewrite andb_false_r. split; [|done]. intros _ ? [= <-] _ Hin.
    apply in_strs_elem_of in Hin. congruence.
Qed.

Lemma genres_not_excluded (W : list Z) (G : list Genre) :
  truthy_list W && truthy_list G
  && existsb (fun g => in_ints g (map genre_id G)) W = false ↔
  (∀ g, g ∈ G → genre_id g ∉ W).
Proof.
  destruct (existsb (fun g => in_ints g (map genre_id G)) W) eqn:E.
  - apply existsb_exists in E. destruct E as (w & Hw & Hin).
    apply in_ints_elem_of, list_elem_of_In, in_map_iff in Hin.
    destruct Hin as (g & <- & Hg).
    destruct W; [done|]. destruct G; [done|]. simpl. split; [done|].
    intros H. exfalso. apply (H g); by apply list_elem_of_In.
  - rewrite andb_false_r. split; [|done]. intros _ g Hg Hin.
    assert (existsb (fun g => in_ints g (map genre_id G)) W = true); [|congruence].
    apply existsb_exists. exists (genre_id g). split; [by apply list_elem_of_In|].
    apply in_ints_elem_of, list_elem_of_In, in_map. by apply list_elem_of_In.
Qed.

Lemma genres_required (W : list Z) (G : list Genre) :
  truthy_list W && truthy_list G
  && negb (existsb (fun g => in_ints g (map genre_id G)) W) = false ↔
  (W ≠ [] → G ≠ [] → ∃ g, g ∈ G ∧ genre_id g ∈ W).
Proof.
  destruct (existsb (fun g => in_ints g (map genre_id G)) W) eqn:E.
  - rewrite andb_false_r. split; [|done]. intros _ _ _.
    apply existsb_exists in E. destruct E as (w & Hw & Hin).
    apply in_ints_elem_of, list_elem_of_In, in_map_iff in Hin.
    destruct Hin as (g & <- & Hg). exists g. split; by apply list_elem_of_In.
  - rewrite andb_true_r. destruct W as [|w W]; [done|]. destruct G as [|g0 G]; [done|].
    simpl. split; [done|]. intros H. destruct H as (g & Hg & Hin); [done..|].
    assert (existsb (fun g => in_ints g (map genre_id (g0 :: G))) (w :: W) = true);
      [|congruence].
    apply existsb_exists. exists (genre_id g). split; [by apply list_elem_of_In|].
    apply in_ints_elem_of, list_elem_of_In, in_map. by apply list_elem_of_In.
Qed.

Lemma keeps_respects f x : keeps f x = true ↔ respects f x.
Proof.
  unfold respects.
  rewrite <- int_lower_bound, <- int_upper_bound, <- !float_lower_bound,
    <- int_lower_bound, <- genres_not_excluded, <- genres_required,
    <- str_not_excluded.
  assert ((∀ c, MediaItem.original_country x = Some c → c ≠ "" →
             (c ∉ CollectionFilter.country_not f)
             ∧ (c ∉ CollectionFilter.origin_country_not f))
          ↔ (truthy_list (CollectionFilter.country_not f)
             && truthy_str (MediaItem.original_country x)
             && in_strs (unwrap_str (MediaItem.original_country x))
                  (CollectionFilter.country_not f) = false
             ∧ truthy_list (CollectionFilter.origin_country_not f)
               && truthy_str (MediaItem.original_country x)
               && in_strs (unwrap_str (MediaItem.original_country x))
                    (CollectionFilter.origin_country_not f) = false)) as ->.
  { rewrite !str_not_excluded. split.
    - intros H. split; intros c ? ?; by destruct (H c).
    - intros [H1 H2] c ? ?. split; [by apply H1|by apply H2]. }
  unfold keeps. cbv zeta.
  repeat match goal with
  | |- context [if ?c then false else _] => destruct c
  end; intuition congruence.
Qed.

(** X6: an item survives [_apply_filters] only if it meets every
    filter on the attributes it carries - its year within the bounds, its
    rating and vote count at least the minimum, its country and language
    not excluded, none of its genres excluded and, where genres are
    required, one of them among its own; without a limit the survivors are
    exactly the items that do. *)
Theorem apply_filters_sound_and_complete items config x :
  (x ∈ _apply_filters items config →
     x ∈ items ∧ respects (CollectionConfig.filters config) x)
  ∧ (truthy_int (CollectionConfig.limit config) = false →
     x ∈ items → respects (CollectionConfig.filters config) x →
     x ∈ _apply_filters items config).
Proof.
  split.
  - intros Hx. split.
    + eapply elem_of_sublist; [exact Hx|].
      apply _apply_filters_sublist.
    + apply keeps_respects.
      pose proof (_apply_filters_kept items config) as Hk.
      rewrite Forall_forall in Hk. by apply Hk.
  - intros Hl Hx Hr. rewrite _apply_filters_unlimited by done.
    apply list_elem_of_In, filter_In. split; [by apply list_elem_of_In|].
    by apply keeps_respects.
Qed.

Lemma apply_filters_sound_and_complete_witness :
  let x := titled "Heat" 1995 949 [GInt 80] "en" in
  let f := CollectionFilter.mk (Some 1990) None None None None [] [] ["ja"] [] [16] in
  x ∈ _apply_filters catalog (with_filters f None).
Proof.
  intros x f.
  destruct (apply_filters_sound_and_complete catalog (with_filters f None) x) as [_ H].
  apply H; [reflexivity|set_solver|].
  apply keeps_respects. reflexivity.
Defined.

End FilterExtras.

Module SortExtras.
Import Py Sort SortFacts OrdFacts Ordering SortSamples SortTheorems SortSpec.

Lemma insert_perm_cons {A} (l : list A) j b x :
  l !! j = Some b → b :: <[j:=x]> l ≡ₚ x :: l.
Proof.
  revert j. induction l as [|c r IH]; intros [|j] Hj; try done; simpl in *.
  - injection Hj as ->. apply perm_swap.
  - rewrite perm_swap. rewrite (IH j Hj). apply perm_swap.
Qed.

Lemma swap_perm {A} (l : list A) i j : swap l i j ≡ₚ l.
Proof.
  unfold swap. destruct (l !! i) as [a|] eqn:Hi; [|done].
  destruct (l !! j) as [b|] eqn:Hj; [|done].
  revert i j Hi Hj. induction l as [|c r IH]; intros [|i] [|j] Hi Hj; try done; simpl in *.
  - injection Hi as ->. by injection Hj as ->.
  - injection Hi as ->. by apply insert_perm_cons.
  - injection Hj as ->. by apply insert_perm_cons.
  - by rewrite IH.
Qed.

Lemma shuffle_from_perm {A} draws i (l : list A) : shuffle_from draws i l ≡ₚ l.
Proof.
  revert draws l. induction i as [|i IH]; intros draws l; simpl; [done|].
  rewrite IH. apply swap_perm.
Qed.

Lemma _sort_items_perm `{U : Unicode} draws items order out :
  _sort_items_for_collection draws items order = Ok out → out ≡ₚ items.
Proof.
  intros Hout. destruct (sorts order) eqn:Hs.
  - assert (forallb (key_defined order) items = true) as Hk.
    { rewrite <- (_sort_items_is_ok draws) by done. by rewrite Hout. }
    rewrite (_sort_items_sorted draws items order Hs Hk) in Hout.
    injection Hout as <-. apply sorted_items_perm.
  - destruct order; try done; simpl in Hout; injection Hout as <-; [done|].
    apply shuffle_from_perm.
Qed.

(** X7: whatever the policy - the random one included, whatever the
    generator draws - [_sort_items_for_collection] returns the items it was
    given, each as often as it came in: nothing is lost or duplicated; the
    custom policy returns them as they are and the random policy never
    raises. *)
Theorem sort_items_keeps_every_item `{U : Unicode} draws items order out :
  _sort_items_for_collection draws items order = Ok out →
  out ≡ₚ items
  ∧ length out = length items
  ∧ (order = CUSTOM → out = items)
  ∧ (∀ draws', is_ok (_sort_items_for_collection draws' items RANDOM) = true).
Proof.
  intros Hout. pose proof (_sort_items_perm _ _ _ _ Hout) as Hp.
  split; [done|]. split; [by rewrite Hp|]. split; [|done].
  intros ->. simpl in Hout. by injection Hout.
Qed.

Lemma sort_items_keeps_every_item_witness :
  let items := [rated "Oppenheimer" 2023 8.1%Q; rated "Dune" 2021 7.8%Q;
                rated "Arrival" 2016 7.8%Q; rated "Heat" 1995 8.3%Q] in
  let out := [rated "Heat" 1995 8.3%Q; rated "Dune" 2021 7.8%Q;
              rated "Oppenheimer" 2023 8.1%Q; rated "Arrival" 2016 7.8%Q] in
  _sort_items_for_collection [2; 0; 1]%nat items RANDOM = Ok out
  ∧ out ≡ₚ items.
Proof.
  intros items out. assert (_sort_items_for_collection [2; 0; 1]%nat items RANDOM = Ok out)
    as H by reflexivity.
  split; [exact H|].
  exact (proj1 (sort_items_keeps_every_item [2; 0; 1]%nat items RANDOM out H)).
Defined.

Lemma of_year_is_ok y : is_ok (date.of_year y) = (1 <=? y) && (y <=? 9999).
Proof.
  unfold date.of_year, date.fits_c_int.
  destruct (Z.leb_spec (- 2 ^ 31) y), (Z.ltb_spec y (2 ^ 31)),
    (Z.leb_spec 1 y), (Z.leb_spec y 9999); simpl; try done; lia.
Qed.

Lemma of_year_error y e :
  date.of_year y = Raise e →
  ∃ msg, e = if date.fits_c_int y then ValueError msg else OverflowError msg.
Proof.
  unfold date.of_year. destruct (date.fits_c_int y); simpl.
  - destruct (_ && _); [done|]. intros [= <-]. by eexists.
  - intros [= <-]. by eexists.
Qed.

Lemma sort_key_premiere_is_ok x :
  is_ok (sort_key_premiere x) = negb (year_out_of_range x).
Proof.
  unfold sort_key_premiere, year_out_of_range.
  destruct (CollectionItem.premiere_date x); [done|].
  destruct (CollectionItem.year x) as [y|]; [|done]. simpl.
  destruct (Z.eqb_spec y 0) as [->|Hy]; [done|]. simpl.
  pose proof (of_year_is_ok y) as Hok.
  destruct (date.of_year y); simpl in *;
    destruct (Z.leb_spec 1 y), (Z.leb_spec y 9999), (Z.ltb_spec y 0), (Z.ltb_spec 9999 y);
    simpl in *; try done; lia.
Qed.

Lemma sort_key_premiere_error x e :
  sort_key_premiere x = Raise e →
  ∃ y, CollectionItem.premiere_date x = None ∧ CollectionItem.year x = Some y
       ∧ year_out_of_range x = true ∧ date.of_year y = Raise e.
Proof.
  intros He. pose proof (sort_key_premiere_is_ok x) as Hok. rewrite He in Hok.
  simpl in Hok. symmetry in Hok. apply negb_false_iff in Hok.
  unfold sort_key_premiere in He.
  destruct (CollectionItem.premiere_date x); [done|].
  destruct (CollectionItem.year x) as [y|]; [|done].
  exists y. split; [done|]. split; [done|]. split; [done|].
  destruct (truthy_int (Some y)); [|done]. cbn [Filters.unwrap_int] in He.
  destruct (date.of_year y); simpl in He; [done|]. congruence.
Qed.

Lemma decorate_Raise {K A} (key : A → result K) l e :
  decorate key l = Raise e → ∃ x, x ∈ l ∧ key x = Raise e.
Proof.
  induction l as [|x r IH]; simpl; [done|].
  destruct (key x) as [k|e'] eqn:Hx; simpl.
  - destruct (decorate key r); simpl; [done|]. intros [= ->].
    destruct IH as (y & Hy & Hk); [done|]. exists y. split; [by right|done].
  - intros [= ->]. exists x. split; [by left|done].
Qed.

Lemma py_sorted_Raise {K A} `{PyOrd K} (key : A → result K) reverse l e :
  py_sorted key reverse l = Raise e → ∃ x, x ∈ l ∧ key x = Raise e.
Proof.
  unfold py_sorted. destruct (decorate key l) eqn:Hd; simpl; [done|].
  intros [= ->]. by apply decorate_Raise.
Qed.

(** X8: [_sort_items_for_collection] fails in one case only: under the
    premiere-date policy, when some item has no premiere date and a year
    that is negative or above 9999 ([date(x.year, 1, 1)] is then out of
    range; a year of zero counts as no year).  The error is the one
    [date(year, 1, 1)] raises for such an item of the list: a
    [ValueError], or an [OverflowError] when the year does not fit a C
    [int].  Under every other policy it returns. *)
Theorem sort_items_fails_on_year_out_of_range `{U : Unicode} draws items order :
  is_ok (_sort_items_for_collection draws items order)
  = negb (CollectionOrder_eqb order PREMIERE_DATE && existsb year_out_of_range items)
  ∧ ∀ e, _sort_items_for_collection draws items order = Raise e →
      ∃ x y msg,
        x ∈ items
        ∧ CollectionItem.premiere_date x = None
        ∧ CollectionItem.year x = Some y
        ∧ (y < 0 ∨ 9999 < y)
        ∧ date.of_year y = Raise e
        ∧ e = if date.fits_c_int y then ValueError msg else OverflowError msg.
Proof.
  split.
  - destruct order; try done; simpl; rewrite is_ok_py_sorted;
      try (by induction items).
    induction items as [|x r IH]; simpl; [done|].
    by rewrite IH, sort_key_premiere_is_ok, negb_orb.
  - intros e He.
    destruct order; try done; simpl in He; apply py_sorted_Raise in He;
      destruct He as (x & Hin & Hx); try done.
    apply sort_key_premiere_error in Hx as (y & Hp & Hy & Hr & He).
    destruct (of_year_error y e He) as [msg Hmsg].
    exists x, y, msg. split; [done|]. split; [done|]. split; [done|].
    split; [|done]. unfold year_out_of_range in Hr. rewrite Hp, Hy in Hr.
    apply orb_true_iff in Hr. destruct Hr as [Hr|Hr]; [left|right]; lia.
Qed.

Example sort_by_premiere_date_year_out_of_range :
  _sort_items_for_collection []
    [dated "Dune" (Some 2021) None; dated "Lost" (Some (-1)) None] PREMIERE_DATE
  = Raise (ValueError "year -1 is out of range")
  ∧ _sort_items_for_collection []
      [dated "Dune" (Some 2021) None; dated "Lost" (Some 2147483648) None] PREMIERE_DATE
    = Raise (OverflowError "signed integer is greater than maximum")
  ∧ _sort_items_for_collection []
      [dated "Dune" (Some 2021) None; dated "Lost" (Some 0) None;
       dated "Found" (Some (-1)) (Some 738000)] PREMIERE_DATE
    = Ok [dated "Found" (Some (-1)) (Some 738000); dated "Dune" (Some 2021) None;
          dated "Lost" (Some 0) None].
Proof. vm_compute. by repeat split. Qed.

End SortExtras.

Module GenreExtras.
Import Py Filters FilterSamples FilterSpec FilterTheorems FilterExtras GenreSpec.

Lemma named_genre_ids x g :
  named_genres x = true → g ∈ MediaItem.genres x → genre_id g = 0.
Proof.
  unfold named_genres. intros [_ H]%andb_true_iff Hg.
  rewrite forallb_forall in H. apply list_elem_of_In, H in Hg.
  destruct g as [n|s]; [done|]. apply andb_true_iff in Hg as [_ Hg].
  simpl. by destruct (isdigit s).
Qed.

Lemma named_genres_exists x W :
  named_genres x = true → 0 ∉ W →
  existsb (fun g => in_ints g (map genre_id (MediaItem.genres x))) W = false.
Proof.
  intros Hn H0. destruct (existsb _ W) eqn:E; [|done].
  apply existsb_exists in E. destruct E as (w & Hw & Hin).
  apply in_ints_elem_of, list_elem_of_In, in_map_iff in Hin.
  destruct Hin as (g & <- & Hg).
  rewrite (named_genre_ids x g Hn) in Hw by by apply list_elem_of_In.
  by apply list_elem_of_In in Hw.
Qed.

Lemma filter_none {A} (p : A → bool) (l : list A) :
  (∀ x, x ∈ l → p x = false) → List.filter p l = [].
Proof.
  induction l as [|x r IH]; intros H; simpl; [done|].
  rewrite (H x) by by left. apply IH. intros y Hy. apply H. by right.
Qed.

Lemma filter_ext_elem {A} (p q : A → bool) (l : list A) :
  (∀ x, x ∈ l → p x = q x) → List.filter p l = List.filter q l.
Proof.
  intros H. apply filter_ext_in. intros x Hx. apply H. by apply list_elem_of_In.
Qed.

(** X9: on items whose genres are names written in ASCII rather than
    TMDb numbers (as the Trakt feeds deliver them: strings of ASCII
    characters that are not all digits) every genre counts as 0 in
    [_apply_filters]: a list of excluded genres that does not hold 0 removes
    none of them, and a list of required genres that does not hold 0 removes
    them all. *)
Theorem apply_filters_named_genres items config config' :
  Forall (fun x => named_genres x = true) items →
  CollectionConfig.limit config' = CollectionConfig.limit config →
  CollectionConfig.filters config'
    = without_excluded_genres (CollectionConfig.filters config) →
  (0 ∉ CollectionFilter.without_genres (CollectionConfig.filters config) →
     _apply_filters items config = _apply_filters items config')
  ∧ (CollectionFilter.with_genres (CollectionConfig.filters config) ≠ [] →
     0 ∉ CollectionFilter.with_genres (CollectionConfig.filters config) →
     _apply_filters items config = []).
Proof.
  intros Hn Hl Hf. rewrite Forall_forall in Hn. split.
  - intros H0. unfold _apply_filters. rewrite Hl, Hf.
    rewrite (filter_ext_elem (keeps (CollectionConfig.filters config))
               (keeps (without_excluded_genres (CollectionConfig.filters config))) items);
      [done|].
    intros x Hx. unfold keeps, without_excluded_genres; simpl.
    rewrite (named_genres_exists x _ (Hn x Hx) H0).
    by rewrite andb_false_r.
  - intros Hw H0. unfold _apply_filters.
    rewrite (filter_none (keeps (CollectionConfig.filters config)) items).
    { destruct (truthy_int _); [|done].
      apply sublist_nil_r, slice_to_sublist. }
    intros x Hx. apply not_true_is_false. intros Hk.
    apply keeps_respects in Hk. destruct Hk as (_&_&_&_&_&_&_&_&Hk).
    pose proof (Hn x Hx) as Hx'.
    destruct Hk as (g & Hg & Hin); [done| |].
    + unfold named_genres in Hx'. by destruct (MediaItem.genres x).
    + by rewrite (named_genre_ids x g Hx' Hg) in Hin.
Qed.

Lemma apply_filters_named_genres_witness :
  _apply_filters trakt_catalog no_animation = trakt_catalog
  ∧ _apply_filters trakt_catalog only_crime = [].
Proof.
  destruct (apply_filters_named_genres trakt_catalog no_animation unfiltered)
    as [H1 _]; [by repeat constructor|reflexivity|reflexivity|].
  destruct (apply_filters_named_genres trakt_catalog only_crime only_crime)
    as [_ H2]; [by repeat constructor|reflexivity|reflexivity|].
  split.
  - rewrite H1; [reflexivity|]. simpl. set_solver.
  - apply H2; [done|]. simpl. set_solver.
Defined.

End GenreExtras.

Module BuildExtras.
Import Py Fetch Filters Build BuildSpec FetchSpec Samples FilterExtras.

Lemma names_no_source_no_feed config : names_no_source config = true → no_feed config.
Proof.
  unfold names_no_source, no_feed. rewrite !andb_true_iff, !negb_true_iff. tauto.
Qed.

(** X10: the source provider of a report is "Unknown" exactly when the
    configuration sets none of the source options, and then
    [_fetch_items] fetches nothing and asks no provider. *)
Theorem source_provider_unknown_iff_no_source `{U : Unicode} config :
  (_get_source_provider config = Ok "Unknown" ↔ names_no_source config = true)
  ∧ (names_no_source config = true →
     ∀ tmdb trakt media_type,
       _fetch_items tmdb trakt config media_type = Ok []
       ∧ provider_calls tmdb trakt config media_type = []).
Proof.
  split.
  - unfold _get_source_provider, names_no_source.
    destruct (truthy_int (CollectionConfig.tmdb_trending_weekly config)),
      (truthy_int (CollectionConfig.tmdb_trending_daily config)),
      (truthy_int (CollectionConfig.tmdb_popular config)),
      (truthy_dict (CollectionConfig.tmdb_discover config)),
      (truthy_int (CollectionConfig.trakt_trending config)),
      (truthy_int (CollectionConfig.trakt_popular config)),
      (truthy_dict (CollectionConfig.trakt_chart config)),
      (truthy_dict (CollectionConfig.plex_search config));
      try destruct (dict_get_default _ _ _);
      simpl; split; intros H; try discriminate H; try reflexivity.
  - intros H tmdb trakt media_type.
    pose proof (names_no_source_no_feed config H) as Hn.
    split; [by apply FetchExtras._fetch_items_no_feed|].
    rewrite FetchExtras.provider_calls_no_feed by done.
    unfold names_no_source in H. rewrite !andb_true_iff, !negb_true_iff in H.
    destruct H as [[_ H] _]. rewrite H. by destruct trakt.
Qed.

Lemma source_provider_unknown_iff_no_source_witness :
  _get_source_provider (config "Empty" CUSTOM None (Some 0)) = Ok "Unknown"
  ∧ _fetch_items (tmdb_client (Raise unavailable) (Raise unavailable)) (Some trakt_down)
      (config "Empty" CUSTOM None (Some 0)) MOVIE = Ok [].
Proof.
  destruct (source_provider_unknown_iff_no_source (config "Empty" CUSTOM None (Some 0)))
    as [H1 H2].
  split; [apply H1; reflexivity|].
  apply (H2 eq_refl (tmdb_client (Raise unavailable) (Raise unavailable))
           (Some trakt_down) MOVIE).
Defined.

(** A library search alone is named as the source, although
    [_fetch_items] fetches nothing for it. *)
Example source_provider_library_search :
  _get_source_provider search_only = Ok "Library Search"
  ∧ ∀ tmdb trakt media_type, _fetch_items tmdb trakt search_only media_type = Ok [].
Proof. split; [reflexivity|by intros ? [?|] ?]. Qed.

Lemma _get_source_provider_raises `{U : Unicode} config :
  is_ok (_get_source_provider config) = negb (chart_kind_not_a_string config).
Proof.
  unfold _get_source_provider, chart_kind_not_a_string, dict_get_default.
  destruct (truthy_dict (CollectionConfig.trakt_chart config)); [|done].
  by destruct (dict_get _ _) as [[]|].
Qed.

(** X11: when the kind of the Trakt chart is written as a number
    ([chart: 2024]) [build_collection] fails with an [AttributeError]
    before any provider or the library is asked - with or without a Trakt
    client - and in no other case does naming the source fail. *)
Theorem build_collection_chart_kind_not_a_string `{U : Unicode}
    self find_in_library config library_name library_id media_type :
  is_ok (_get_source_provider config) = negb (chart_kind_not_a_string config)
  ∧ (chart_kind_not_a_string config = true →
     ∃ msg, build_collection self find_in_library config library_name library_id media_type
            = Raise (AttributeError msg)).
Proof.
  split; [apply _get_source_provider_raises|].
  intros H. unfold build_collection.
  unfold chart_kind_not_a_string in H. apply andb_true_iff in H. destruct H as [Ht Hc].
  unfold _get_source_provider, dict_get_default. rewrite Ht.
  destruct (dict_get _ _) as [[]|]; try done; by eexists.
Qed.

Lemma build_collection_chart_kind_not_a_string_witness :
  ∃ msg, build_collection (builder (tmdb_client (Ok [item_A]) (Ok [])) false)
           finds_even (chart_only [("chart", AInt 2024)]) "Films" "lib-1" MOVIE
         = Raise (AttributeError msg).
Proof.
  apply (build_collection_chart_kind_not_a_string
           (builder (tmdb_client (Ok [item_A]) (Ok [])) false) finds_even
           (chart_only [("chart", AInt 2024)]) "Films" "lib-1" MOVIE).
  reflexivity.
Defined.


Section Matching.
Variable find_in_library : MediaItem.t → string → result (option LibraryItem.t).

Lemma match_items_spec library_id filtered items matched missing :
  match_items find_in_library library_id filtered = Ok (items, matched, missing) →
  map CollectionItem.title items = map MediaItem.title filtered
  ∧ map CollectionItem.tmdb_id items = map MediaItem.tmdb_id filtered
  ∧ matched = map CollectionItem.title (List.filter CollectionItem.in_library items)
  ∧ missing = map CollectionItem.title
                (List.filter (fun i => negb (CollectionItem.in_library i)) items)
  ∧ Forall (fun i => CollectionItem.matched i = CollectionItem.in_library i
                     ∧ (is_Some (CollectionItem.jellyfin_id i)
                        ↔ CollectionItem.in_library i = true)) items.
Proof.
  revert items matched missing.
  induction filtered as [|x r IH]; intros items matched missing; simpl.
  - intros [= <- <- <-]. by repeat split.
  - destruct (find_in_library x library_id) as [lib|e]; simpl; [|done].
    destruct (match_items find_in_library library_id r) as [[[items' matched'] missing']|e];
      simpl; [|done].
    intros [= <- <- <-].
    destruct (IH items' matched' missing' eq_refl) as (H1 & H2 & H3 & H4 & H5).
    destruct lib as [l|]; simpl; rewrite H1, H2; repeat split; try done;
      try (by f_equal); constructor; try done; split; try done; simpl;
      (split; [by intros [? ?]|done]) || (split; [done|by eexists]).
Qed.

End Matching.

(** X12: what [build_collection] returns hangs together: the collection
    holds one item per fetched item that passed the filters, in that order;
    the report counts the fetched and the filtered items, lists the titles
    fetched, and splits the collection's titles into matched and missing -
    in order, none in both, none left out; an item is matched exactly when
    it is in the library, and exactly then it carries a Jellyfin id. *)
Theorem build_collection_report_is_consistent `{U : Unicode}
    self find_in_library config library_name library_id media_type collection report :
  build_collection self find_in_library config library_name library_id media_type
    = Ok (collection, report) →
  ∃ fetched,
    _fetch_items (Sync.tmdb self) (Sync.trakt self) config media_type = Ok fetched
    ∧ let filtered := _apply_filters fetched config in
      let items := Collection.items collection in
      Collection.config collection = config
      ∧ map CollectionItem.title items = map MediaItem.title filtered
      ∧ map CollectionItem.tmdb_id items = map MediaItem.tmdb_id filtered
      ∧ CollectionReport.items_fetched report = length fetched
      ∧ CollectionReport.fetched_titles report = map MediaItem.title fetched
      ∧ CollectionReport.items_after_filter report = length items
      ∧ (CollectionReport.items_after_filter report
         <= CollectionReport.items_fetched report)%nat
      ∧ CollectionReport.matched_titles report
        = map CollectionItem.title (List.filter CollectionItem.in_library items)
      ∧ CollectionReport.missing_titles report
        = map CollectionItem.title
            (List.filter (fun i => negb (CollectionItem.in_library i)) items)
      ∧ (length (CollectionReport.matched_titles report)
         + length (CollectionReport.missing_titles report) = length items)%nat
      ∧ Forall (fun i => CollectionItem.matched i = CollectionItem.in_library i
                         ∧ (is_Some (CollectionItem.jellyfin_id i)
                            ↔ CollectionItem.in_library i = true)) items.
Proof.
  unfold build_collection. destruct (_get_source_provider config); simpl; [|done].
  destruct (_fetch_items _ _ config media_type) as [fetched|]; simpl; [|done].
  destruct (match_items find_in_library library_id (_apply_filters fetched config))
    as [[[items matched] missing]|] eqn:Hm; simpl; [|done].
  intros [= <- <-]. exists fetched. split; [done|]. simpl.
  destruct (match_items_spec _ _ _ _ _ _ Hm) as (H1 & H2 & H3 & H4 & H5).
  assert (length items = length (_apply_filters fetched config)) as Hlen.
  { by rewrite <- (length_map CollectionItem.title), H1, length_map. }
  repeat split; try done.
  - apply sublist_length, _apply_filters_sublist.
  - rewrite H3, H4, !length_map. clear. induction items as [|i r IH]; simpl; [done|].
    destruct (CollectionItem.in_library i); simpl; lia.
Qed.

Lemma build_collection_report_is_consistent_witness :
  ∃ collection report,
    build_collection (builder (tmdb_client (Ok [item_A; item_A_dup; item_B]) (Ok [])) false)
      finds_even (config "Trending" CUSTOM (Some 20) None) "Films" "lib-1" MOVIE
    = Ok (collection, report)
    ∧ CollectionReport.matched_titles report = ["B"]
    ∧ CollectionReport.missing_titles report = ["A"]
    ∧ (length (CollectionReport.matched_titles report)
       + length (CollectionReport.missing_titles report)
       = length (Collection.items collection))%nat.
Proof.
  eexists _, _. split; [reflexivity|]. split; [reflexivity|]. split; [reflexivity|].
  edestruct (build_collection_report_is_consistent
               (builder (tmdb_client (Ok [item_A; item_A_dup; item_B]) (Ok [])) false)
               finds_even (config "Trending" CUSTOM (Some 20) None) "Films" "lib-1" MOVIE)
    as (fetched & _ & H); [reflexivity|].
  cbv zeta in H. apply H.
Defined.

End BuildExtras.

Module SyncExtras.
Import Py JellyfinClient Sync SyncSpec JellyfinFacts SyncFacts SyncRuns SyncSamples SyncView.

Lemma get_or_create_new config st :
  find_by_name (CollectionConfig.name config) (jellyfin st) = None →
  let out := get_or_create config st in
  let created := create_collection (CollectionConfig.name config) (jellyfin st) in
  fst out = false
  ∧ jellyfin (snd out) = snd created
  ∧ calls (snd out) = calls st ++ [JfCreateCollection (CollectionConfig.name config)]
  ∧ jellyfin_id (snd out) = Some (fst created).
Proof.
  intros Hf. cbv zeta. unfold get_or_create, get_collections. rewrite Hf.
  by destruct (create_collection _ _).
Qed.

Lemma find_app_None {A} (p : A → bool) l1 l2 :
  List.find p l1 = None → List.find p (l1 ++ l2) = List.find p l2.
Proof.
  induction l1 as [|x r IH]; simpl; [done|]. destruct (p x); [done|apply IH].
Qed.

Lemma find_app_Some {A} (p : A → bool) l1 l2 x :
  List.find p l1 = Some x → List.find p (l1 ++ l2) = Some x.
Proof.
  induction l1 as [|y r IH]; simpl; [done|]. destruct (p y); [done|apply IH].
Qed.

Lemma find_Id_None id (s : JellyfinClient.t) :
  id ∉ map Id s → List.find (fun c => String.eqb (Id c) id) s = None.
Proof.
  induction s as [|c r IH]; simpl; [done|]. intros Hn.
  destruct (String.eqb_spec (Id c) id) as [<-|_]; [|apply IH]; set_solver.
Qed.

Lemma fresh_not_in (s : JellyfinClient.t) : fresh (map Id s) ∉ map Id s.
Proof. apply infinite_is_fresh. Qed.

Lemma created_is_empty name s :
  members (fst (create_collection name s)) (snd (create_collection name s)) = ∅.
Proof.
  unfold members, create_collection, get_collection_items. cbn [fst snd].
  rewrite find_app_None by apply find_Id_None, fresh_not_in.
  simpl. by rewrite String.eqb_refl.
Qed.

Lemma get_or_create_id config st :
  jellyfin_id (snd (get_or_create config st))
  = Some (id_of (CollectionConfig.name config) (jellyfin st)).
Proof.
  unfold id_of. destruct (find_by_name _ _) as [c|] eqn:Hf.
  - by destruct (get_or_create_existing config st c Hf) as (_ & _ & _ & ?).
  - by destruct (get_or_create_new config st Hf) as (_ & _ & _ & ?).
Qed.

Lemma get_or_create_current config st :
  members (id_of (CollectionConfig.name config) (jellyfin st))
    (jellyfin (snd (get_or_create config st)))
  = current_of (CollectionConfig.name config) (jellyfin st).
Proof.
  unfold id_of, current_of. destruct (find_by_name _ _) as [c|] eqn:Hf.
  - destruct (get_or_create_existing config st c Hf) as (_ & -> & _ & _). done.
  - destruct (get_or_create_new config st Hf) as (_ & -> & _ & _).
    apply created_is_empty.
Qed.

Lemma get_or_create_existed config st :
  fst (get_or_create config st) = exists_on (CollectionConfig.name config) (jellyfin st).
Proof.
  unfold exists_on. destruct (find_by_name _ _) as [c|] eqn:Hf.
  - by destruct (get_or_create_existing config st c Hf) as (? & _).
  - by destruct (get_or_create_new config st Hf) as (? & _).
Qed.

Lemma get_or_create_membership_calls config st :
  membership_calls (snd (get_or_create config st)) = membership_calls st.
Proof.
  unfold membership_calls.
  destruct (find_by_name (CollectionConfig.name config) (jellyfin st)) as [c|] eqn:Hf.
  - by destruct (get_or_create_existing config st c Hf) as (_ & _ & -> & _).
  - destruct (get_or_create_new config st Hf) as (_ & _ & -> & _).
    rewrite List.filter_app. simpl. by rewrite app_nil_r.
Qed.

Section WithBuilder.
Context `{U : Unicode}.
Variable self : CollectionBuilder.
Variable env : Env.

(** A run that gets past the sort, step by step. *)
Lemma sync_collection_steps collection add st tl :
  dry_run self = false →
  target_of (draws env) collection = Ok tl →
  let config := Collection.config collection in
  let cid := id_of (CollectionConfig.name config) (jellyfin st) in
  let cur := current_of (CollectionConfig.name config) (jellyfin st) in
  sync_collection self env collection add st
  = finish_sync self env collection add cid
      (size (list_to_set tl ∖ cur)) (size (cur ∖ list_to_set tl))
      (apply_changes env (CollectionConfig.collection_order config)
         (exists_on (CollectionConfig.name config) (jellyfin st)) cid cur tl
         (on_report (CollectionReport.append_added_titles
                       (added_titles_of collection (list_to_set tl ∖ cur)))
            (snd (get_or_create config st)))).
Proof.
  intros Hdry Ht. cbv zeta. unfold sync_collection. rewrite Hdry.
  destruct (target_of_sorted _ _ _ Ht) as (sorted & Hs & ->). rewrite Hs.
  pose proof (get_or_create_id (Collection.config collection) st) as Hid.
  pose proof (get_or_create_current (Collection.config collection) st) as Hcur.
  pose proof (get_or_create_existed (Collection.config collection) st) as Hex.
  destruct (get_or_create (Collection.config collection) st) as [existed st_a].
  cbn [fst snd] in *. rewrite Hid. cbn [Filters.unwrap_str].
  change (list_to_set (get_collection_items ?i (jellyfin st_a)))
    with (members i (jellyfin st_a)).
  by rewrite Hcur, Hex.
Qed.


Lemma get_or_create_live config st :
  live (id_of (CollectionConfig.name config) (jellyfin st))
    (jellyfin (snd (get_or_create config st))) = true
  ∧ ∃ c, find_by_name (CollectionConfig.name config) (jellyfin (snd (get_or_create config st)))
         = Some c
       ∧ Id c = id_of (CollectionConfig.name config) (jellyfin st).
Proof.
  pose proof (get_or_create_found config st) as Hg. cbv zeta in Hg.
  destruct Hg as (c & Hfind & Hid & Hlive).
  rewrite get_or_create_id in Hid. injection Hid as Hid.
  rewrite Hid. split; [done|]. by exists c.
Qed.

Lemma get_items_on_other id cid f s :
  id ≠ cid → (∀ c, Id (f c) = Id c) →
  get_collection_items id (on_collection cid f s) = get_collection_items id s.
Proof.
  intros Hne Hf. unfold get_collection_items, on_collection.
  induction s as [|c r IH]; simpl; [done|].
  destruct (String.eqb_spec (Id c) cid) as [Hc|Hc].
  - rewrite Hf. destruct (String.eqb_spec (Id c) id) as [Hi|Hi]; [congruence|apply IH].
  - destruct (String.eqb_spec (Id c) id); [done|apply IH].
Qed.

Lemma apply_changes_others order existed cid cur tl st id :
  id ≠ cid →
  get_collection_items id (jellyfin (apply_changes env order existed cid cur tl st))
  = get_collection_items id (jellyfin st).
Proof.
  intros Hne. unfold apply_changes.
  assert (∀ ids s, get_collection_items id (jellyfin (add_to_collection cid ids s))
                   = get_collection_items id (jellyfin s)) as Ha.
  { intros ids s. by apply get_items_on_other. }
  assert (∀ ids s, get_collection_items id (jellyfin (remove_from_collection cid ids s))
                   = get_collection_items id (jellyfin s)) as Hr.
  { intros ids s. by apply get_items_on_other. }
  repeat match goal with
  | |- context [if ?b then _ else _] => destruct b
  end; by rewrite ?Ha, ?Hr, ?Ha.
Qed.

Lemma get_or_create_others config st id :
  id ≠ id_of (CollectionConfig.name config) (jellyfin st) →
  get_collection_items id (jellyfin (snd (get_or_create config st)))
  = get_collection_items id (jellyfin st).
Proof.
  unfold id_of. destruct (find_by_name _ _) as [c|] eqn:Hf; intros Hne.
  - by destruct (get_or_create_existing config st c Hf) as (_ & -> & _ & _).
  - destruct (get_or_create_new config st Hf) as (_ & -> & _ & _).
    unfold create_collection, get_collection_items in *. cbn [fst snd] in *.
    destruct (List.find _ (jellyfin st)) as [c|] eqn:E.
    + by rewrite (find_app_Some _ _ _ _ E).
    + rewrite find_app_None by done. simpl.
      by destruct (String.eqb_spec (fresh (map Id (jellyfin st))) id).
Qed.

Lemma apply_changes_calls order existed cid cur tl st :
  ∃ new, calls (apply_changes env order existed cid cur tl st) = calls st ++ new
    ∧ (length new <= 2)%nat
    ∧ Forall (fun c => is_membership_call c = true) new
    ∧ Forall (within cid (list_to_set tl) cur) new
    ∧ (order = CUSTOM → Forall (spares (list_to_set tl) cur) new).
Proof.
  unfold apply_changes.
  set (tgt := list_to_set tl : gset string).
  assert (∀ x, x ∈ tl → x ∈ tgt) as Htl by (intros x; unfold tgt; set_solver).
  destruct (_ && truthy_list tl) eqn:Hre.
  - exists ((if nonempty cur
             then [JfRemoveFromCollection cid (list_of_set (set_order env) cur)] else [])
            ++ [JfAddToCollection cid tl]).
    split; [by destruct (nonempty cur); simpl; rewrite <- ?app_assoc|].
    split; [destruct (nonempty cur); simpl; lia|].
    split; [destruct (nonempty cur); by repeat constructor|].
    split.
    + destruct (nonempty cur); repeat constructor; try done.
      intros x Hx. by apply elem_of_list_of_set in Hx.
    + intros ->. done.
  - exists ((if nonempty (tgt ∖ cur)
             then [JfAddToCollection cid (list_of_set (set_order env) (tgt ∖ cur))]
             else [])
            ++ (if nonempty (cur ∖ tgt)
                then [JfRemoveFromCollection cid (list_of_set (set_order env) (cur ∖ tgt))]
                else [])).
    split; [by destruct (nonempty (tgt ∖ cur)), (nonempty (cur ∖ tgt)); simpl;
              rewrite <- ?app_assoc, ?app_nil_r|].
    split; [destruct (nonempty (tgt ∖ cur)), (nonempty (cur ∖ tgt)); simpl; lia|].
    split; [destruct (nonempty (tgt ∖ cur)), (nonempty (cur ∖ tgt)); by repeat constructor|].
    split; [|intros _];
      destruct (nonempty (tgt ∖ cur)), (nonempty (cur ∖ tgt)); repeat constructor;
      try done; intros x Hx; apply elem_of_list_of_set in Hx; set_solver.
Qed.

Lemma size_accounting (tgt cur : gset string) :
  (size tgt + size (cur ∖ tgt) = size cur + size (tgt ∖ cur))%nat.
Proof.
  rewrite <- !size_union by set_solver. f_equal.
  apply set_eq. intros x. destruct (decide (x ∈ cur)), (decide (x ∈ tgt)); set_solver.
Qed.

(** The state of the server and of the log once the run has returned,
    against the state before. *)
Lemma sync_collection_outcome collection add st tl :
  dry_run self = false →
  target_of (draws env) collection = Ok tl →
  let config := Collection.config collection in
  let cid := id_of (CollectionConfig.name config) (jellyfin st) in
  let cur := current_of (CollectionConfig.name config) (jellyfin st) in
  let tgt : gset string := list_to_set tl in
  let out := sync_collection self env collection add st in
  (∃ c, find_by_name (CollectionConfig.name config) (jellyfin (snd out)) = Some c
        ∧ Id c = cid)
  ∧ members cid (jellyfin (snd out)) = tgt
  ∧ (∀ id, id ≠ cid → get_collection_items id (jellyfin (snd out))
                      = get_collection_items id (jellyfin st))
  ∧ CollectionReport.items_added_to_collection (report (snd out)) = size (tgt ∖ cur)
  ∧ CollectionReport.items_removed_from_collection (report (snd out)) = size (cur ∖ tgt)
  ∧ (∀ counts, fst out = Ok counts → counts = (size (tgt ∖ cur), size (cur ∖ tgt)))
  ∧ ∃ new, membership_calls (snd out) = membership_calls st ++ new
      ∧ (length new <= 2)%nat
      ∧ Forall (within cid tgt cur) new
      ∧ (CollectionConfig.collection_order config = CUSTOM → Forall (spares tgt cur) new).
Proof.
  intros Hdry Ht. cbv zeta.
  rewrite (sync_collection_steps collection add st tl Hdry Ht).
  set (config := Collection.config collection).
  set (cid := id_of (CollectionConfig.name config) (jellyfin st)).
  set (cur := current_of (CollectionConfig.name config) (jellyfin st)).
  set (st_b := on_report _ (snd (get_or_create config st))).
  destruct (get_or_create_live config st) as (Hlive & c & Hfind & Hid).
  fold cid in Hlive, Hid.
  pose proof (get_or_create_current config st) as Hcur. fold cid cur in Hcur.
  pose proof (apply_changes_members env (CollectionConfig.collection_order config)
                (exists_on (CollectionConfig.name config) (jellyfin st)) cid cur tl st_b
                Hlive (eq_sym Hcur)) as Hm.
  cbv zeta in Hm. destruct Hm as [Hm Hi].
  destruct (apply_changes_calls (CollectionConfig.collection_order config)
              (exists_on (CollectionConfig.name config) (jellyfin st)) cid cur tl st_b)
    as (new & Hcalls & Hlen & Hmc & Hw & Hs).
  set (st_c := apply_changes _ _ _ cid cur tl st_b) in *.
  match goal with
  | |- context [finish_sync self env ?c ?a ?i ?x ?y st_c] =>
    pose proof (finish_sync_frame self env c a i x y st_c) as Hf;
    cbv zeta in Hf; destruct Hf as ([Hv Hmem] & Ha & Hr & Hcounts);
    set (out := finish_sync self env c a i x y st_c) in *
  end.
  split; [|split; [|split; [|split; [|split; [|split]]]]]; try done.
  - destruct (find_by_name_same_id _ _ _ c Hi Hfind) as (c1 & Hc1 & Hid1).
    destruct (find_by_name_same_id _ _ _ c1 (view_ident _ _ Hv) Hc1) as (c2 & Hc2 & Hid2).
    exists c2. split; [done|congruence].
  - unfold members. by rewrite (get_collection_items_view _ _ _ Hv).
  - intros id Hne. rewrite (get_collection_items_view _ _ _ Hv).
    unfold st_c. rewrite apply_changes_others by done.
    by apply get_or_create_others.
  - exists new. split; [|done]. rewrite Hmem. unfold membership_calls. rewrite Hcalls.
    rewrite List.filter_app. f_equal.
    + change (calls st_b) with (calls (snd (get_or_create config st))).
      apply get_or_create_membership_calls.
    + clear -Hmc. induction Hmc as [|x l Hx _ IH]; simpl; [done|]. by rewrite Hx, IH.
Qed.


Lemma add_items_NoDup tl m : NoDup (m ++ tl) → add_items tl m = m ++ tl.
Proof.
  revert m. induction tl as [|x tl IH]; intros m Hnd; simpl.
  - by rewrite app_nil_r.
  - assert (mem x m = false) as ->.
    { apply not_true_is_false. intros Hm. apply mem_elem_of in Hm.
      apply NoDup_app in Hnd. destruct Hnd as (_ & Hd & _).
      apply (Hd x Hm). by left. }
    change (fold_left _ tl (m ++ [x])) with (add_items tl (m ++ [x])).
    rewrite IH; by rewrite <- app_assoc.
Qed.

Lemma sync_collection_reordered collection add st tl :
  dry_run self = false →
  target_of (draws env) collection = Ok tl →
  let config := Collection.config collection in
  let cid := id_of (CollectionConfig.name config) (jellyfin st) in
  let cur := current_of (CollectionConfig.name config) (jellyfin st) in
  CollectionConfig.collection_order config ≠ CUSTOM →
  tl ≠ [] →
  exists_on (CollectionConfig.name config) (jellyfin st) = false ∨ cur ≠ list_to_set tl →
  let out := sync_collection self env collection add st in
  get_collection_items cid (jellyfin (snd out)) = add_items tl []
  ∧ membership_calls (snd out)
    = membership_calls st
      ++ (if nonempty cur
          then [JfRemoveFromCollection cid (list_of_set (set_order env) cur)] else [])
      ++ [JfAddToCollection cid tl].
Proof.
  intros Hdry Ht. cbv zeta. intros Ho Htl Hch.
  rewrite (sync_collection_steps collection add st tl Hdry Ht).
  set (config := Collection.config collection) in *.
  set (cid := id_of (CollectionConfig.name config) (jellyfin st)) in *.
  set (cur := current_of (CollectionConfig.name config) (jellyfin st)) in *.
  set (st_b := on_report _ (snd (get_or_create config st))).
  destruct (get_or_create_live config st) as (Hlive & _). fold cid in Hlive.
  pose proof (get_or_create_current config st) as Hcur. fold cid cur in Hcur.
  pose proof (apply_changes_reorder env (CollectionConfig.collection_order config)
                (exists_on (CollectionConfig.name config) (jellyfin st)) cid cur tl st_b
                Ho Htl Hlive (eq_sym Hcur) Hch) as Hr.
  cbv zeta in Hr. destruct Hr as [Hcalls Hitems].
  set (st_c := apply_changes _ _ _ cid cur tl st_b) in *.
  match goal with
  | |- context [finish_sync self env ?c ?a ?i ?x ?y st_c] =>
    pose proof (finish_sync_frame self env c a i x y st_c) as Hf;
    cbv zeta in Hf; destruct Hf as ([Hv Hmem] & _);
    set (out := finish_sync self env c a i x y st_c) in *
  end.
  split; [by rewrite (get_collection_items_view _ _ _ Hv)|].
  rewrite Hmem. unfold membership_calls. rewrite Hcalls, !List.filter_app.
  change (calls st_b) with (calls (snd (get_or_create config st))).
  fold (membership_calls (snd (get_or_create config st))).
  rewrite get_or_create_membership_calls. by destruct (nonempty cur).
Qed.

Lemma sync_collection_sort_fails collection add st e :
  dry_run self = false →
  target_of (draws env) collection = Raise e →
  sync_collection self env collection add st
  = (Raise e, snd (get_or_create (Collection.config collection) st)).
Proof.
  intros Hdry Ht. unfold sync_collection. rewrite Hdry.
  unfold target_of in Ht.
  destruct (get_or_create (Collection.config collection) st) as [existed st_a].
  destruct (Sort._sort_items_for_collection _ _ _); [done|].
  rewrite bind_Raise in Ht. by injection Ht as ->.
Qed.

End WithBuilder.

(** X13: a run that is not dry and gets past the sort leaves the
    collection of that name on the server - the one found, or the one just
    created - with exactly the target as its members, and leaves the
    members of every other collection as they were. *)
Theorem sync_reaches_target_and_spares_other_collections `{U : Unicode}
    self env collection add_missing_to_arr st tl :
  dry_run self = false →
  target_of (draws env) collection = Ok tl →
  let name := CollectionConfig.name (Collection.config collection) in
  let out := sync_collection self env collection add_missing_to_arr st in
  ∃ c, find_by_name name (jellyfin (snd out)) = Some c
     ∧ Id c = id_of name (jellyfin st)
     ∧ members (Id c) (jellyfin (snd out)) = list_to_set tl
     ∧ ∀ id, id ≠ Id c →
         get_collection_items id (jellyfin (snd out))
         = get_collection_items id (jellyfin st).
Proof.
  intros Hdry Ht. cbv zeta.
  destruct (sync_collection_outcome self env collection add_missing_to_arr st tl Hdry Ht)
    as ((c & Hfind & Hid) & Hm & Hothers & _).
  exists c. rewrite Hid. by repeat split.
Qed.

Lemma sync_reaches_target_and_spares_other_collections_witness :
  let out := sync_collection (builder false) env (trending SORT_NAME) true
               (state0 server_behind) in
  ∃ c, find_by_name "Trending" (jellyfin (snd out)) = Some c
     ∧ Id c = "col-1"
     ∧ members (Id c) (jellyfin (snd out)) = list_to_set ["jf-1"; "jf-2"]
     ∧ ∀ id, id ≠ Id c →
         get_collection_items id (jellyfin (snd out))
         = get_collection_items id (jellyfin (state0 server_behind)).
Proof.
  apply (sync_reaches_target_and_spares_other_collections (builder false) env
           (trending SORT_NAME) true (state0 server_behind) ["jf-1"; "jf-2"]);
    reflexivity.
Defined.

(** X14: the counts a run returns and reports are the sizes of the two
    set differences between the target and what the server held - also
    when it clears and re-adds everything - and they reconcile with the
    server: members after + removed = members before + added. *)
Theorem sync_counts_reconcile `{U : Unicode}
    self env collection add_missing_to_arr st tl :
  dry_run self = false →
  target_of (draws env) collection = Ok tl →
  let name := CollectionConfig.name (Collection.config collection) in
  let cur := current_of name (jellyfin st) in
  let tgt : gset string := list_to_set tl in
  let out := sync_collection self env collection add_missing_to_arr st in
  let added := CollectionReport.items_added_to_collection (report (snd out)) in
  let removed := CollectionReport.items_removed_from_collection (report (snd out)) in
  added = size (tgt ∖ cur)
  ∧ removed = size (cur ∖ tgt)
  ∧ (∀ counts, fst out = Ok counts → counts = (added, removed))
  ∧ (size (members (id_of name (jellyfin st)) (jellyfin (snd out))) + removed
     = size cur + added)%nat.
Proof.
  intros Hdry Ht. cbv zeta.
  destruct (sync_collection_outcome self env collection add_missing_to_arr st tl Hdry Ht)
    as (_ & Hm & _ & Ha & Hr & Hc & _).
  rewrite Hm, Ha, Hr. repeat split; try done. apply size_accounting.
Qed.

Lemma sync_counts_reconcile_witness :
  let out := sync_collection (builder false) env (trending SORT_NAME) true
               (state0 server_behind) in
  CollectionReport.items_added_to_collection (report (snd out)) = 1%nat
  ∧ CollectionReport.items_removed_from_collection (report (snd out)) = 0%nat
  ∧ fst out = Ok (1%nat, 0%nat).
Proof.
  destruct (sync_counts_reconcile (builder false) env (trending SORT_NAME) true
              (state0 server_behind) ["jf-1"; "jf-2"] eq_refl eq_refl)
    as (Ha & Hr & Hc & _).
  split; [rewrite Ha; reflexivity|]. split; [rewrite Hr; reflexivity|reflexivity].
Defined.

(** X15: the membership requests of one run: at most two, all for the
    collection being synced; an add names members of the target only, a
    remove names members the server held only; under the custom order no
    request names an item that is both on the server and in the target. *)
Theorem sync_membership_requests_stay_within `{U : Unicode}
    self env collection add_missing_to_arr st tl :
  dry_run self = false →
  target_of (draws env) collection = Ok tl →
  let config := Collection.config collection in
  let cid := id_of (CollectionConfig.name config) (jellyfin st) in
  let cur := current_of (CollectionConfig.name config) (jellyfin st) in
  let out := sync_collection self env collection add_missing_to_arr st in
  ∃ new, membership_calls (snd out) = membership_calls st ++ new
    ∧ (length new <= 2)%nat
    ∧ Forall (within cid (list_to_set tl) cur) new
    ∧ (CollectionConfig.collection_order config = CUSTOM →
       Forall (spares (list_to_set tl) cur) new).
Proof.
  intros Hdry Ht. cbv zeta.
  by destruct (sync_collection_outcome self env collection add_missing_to_arr st tl Hdry Ht)
    as (_ & _ & _ & _ & _ & _ & H).
Qed.

Lemma sync_membership_requests_stay_within_witness :
  let out := sync_collection (builder false) env (trending CUSTOM) true
               (state0 server_behind) in
  ∃ new, membership_calls (snd out) = membership_calls (state0 server_behind) ++ new
    ∧ (length new <= 2)%nat
    ∧ Forall (within "col-1" (list_to_set ["jf-1"; "jf-2"]) {["jf-1"]}) new
    ∧ Forall (spares (list_to_set ["jf-1"; "jf-2"]) {["jf-1"]}) new.
Proof.
  destruct (sync_membership_requests_stay_within (builder false) env (trending CUSTOM) true
              (state0 server_behind) ["jf-1"; "jf-2"] eq_refl eq_refl)
    as (new & H1 & H2 & H3 & H4).
  exists new. split; [exact H1|]. split; [exact H2|].
  assert (current_of "Trending" (jellyfin (state0 server_behind)) = {["jf-1"]}) as Hc.
  { unfold current_of, members. simpl. set_solver. }
  change (CollectionConfig.name (Collection.config (trending CUSTOM))) with "Trending" in *.
  rewrite Hc in H3, H4. split; [exact H3|]. by apply H4.
Defined.

(** X16: when a run that clears and re-adds returns - a policy other
    than custom, a target that is not empty and repeats no id, and a
    collection that is new or whose members differ from the target - it has
    issued one request removing the members the server held, listed in the
    order in which the interpreter lists that set (no such request when the
    collection held nothing), then one request adding the whole target in
    target order, and the server then lists the members in exactly that
    order. *)
Theorem sync_reorder_lists_members_in_target_order `{U : Unicode}
    self env collection add_missing_to_arr st tl :
  dry_run self = false →
  target_of (draws env) collection = Ok tl →
  let config := Collection.config collection in
  let cid := id_of (CollectionConfig.name config) (jellyfin st) in
  let cur := current_of (CollectionConfig.name config) (jellyfin st) in
  CollectionConfig.collection_order config ≠ CUSTOM →
  tl ≠ [] → NoDup tl →
  exists_on (CollectionConfig.name config) (jellyfin st) = false ∨ cur ≠ list_to_set tl →
  let out := sync_collection self env collection add_missing_to_arr st in
  is_ok (fst out) = true →
  let listed := list_of_set (set_order env) cur in
  listed ≡ₚ elements cur
  ∧ membership_calls (snd out)
    = membership_calls st
      ++ (if nonempty cur then [JfRemoveFromCollection cid listed] else [])
      ++ [JfAddToCollection cid tl]
  ∧ get_collection_items cid (jellyfin (snd out)) = tl.
Proof.
  intros Hdry Ht. cbv zeta. intros Ho Htl Hnd Hch _.
  destruct (sync_collection_reordered self env collection add_missing_to_arr st tl
              Hdry Ht Ho Htl Hch) as [H1 H2].
  split; [apply list_of_set_perm|]. split; [done|].
  rewrite H1. by apply add_items_NoDup.
Qed.

Lemma sync_reorder_lists_members_in_target_order_witness :
  let out := sync_collection (builder false) env_reversed (trending SORT_NAME) true
               (state0 server_stale) in
  let cur := current_of "Trending" server_stale in
  let listed := list_of_set (set_order env_reversed) cur in
  listed ≡ₚ elements cur
  ∧ membership_calls (snd out)
    = [] ++ (if nonempty cur then [JfRemoveFromCollection "col-1" listed] else [])
      ++ [JfAddToCollection "col-1" ["jf-1"; "jf-2"]]
  ∧ get_collection_items "col-1" (jellyfin (snd out)) = ["jf-1"; "jf-2"].
Proof.
  apply (sync_reorder_lists_members_in_target_order (builder false) env_reversed
           (trending SORT_NAME) true (state0 server_stale) ["jf-1"; "jf-2"]).
  - reflexivity.
  - reflexivity.
  - discriminate.
  - discriminate.
  - repeat constructor; set_solver.
  - right. intros H. assert ("jf-8" ∈ current_of "Trending" (jellyfin (state0 server_stale)))
      as Hin by (unfold current_of, members; simpl; set_solver).
    change (CollectionConfig.name (Collection.config (trending SORT_NAME)))
      with "Trending" in H.
    rewrite H in Hin. set_solver.
  - vm_compute. reflexivity.
Defined.

(** The members the server held are removed in the order in which the
    interpreter lists the set - here the reverse of the one [elements]
    gives - and the target is then added in target order. *)
Example sync_reorder_removes_in_listing_order :
  let out := sync_collection (builder false) env_reversed (trending SORT_NAME) true
               (state0 server_stale) in
  fst out = Ok (2%nat, 2%nat)
  ∧ membership_calls (snd out)
    = [JfRemoveFromCollection "col-1" ["jf-8"; "jf-9"];
       JfAddToCollection "col-1" ["jf-1"; "jf-2"]]
  ∧ get_collection_items "col-1" (jellyfin (snd out)) = ["jf-1"; "jf-2"].
Proof. vm_compute. by repeat split. Qed.

(** X17: when the sort fails the run fails with the same error after
    the collection was looked up: no membership, metadata or poster request
    goes out and no member changes, but a collection that did not exist has
    already been created, empty, and stays. *)
Theorem sync_sort_error_leaves_created_collection `{U : Unicode}
    self env collection add_missing_to_arr st e :
  dry_run self = false →
  target_of (draws env) collection = Raise e →
  let name := CollectionConfig.name (Collection.config collection) in
  let out := sync_collection self env collection add_missing_to_arr st in
  fst out = Raise e
  ∧ calls (snd out)
    = calls st ++ (if exists_on name (jellyfin st) then [] else [JfCreateCollection name])
  ∧ (∀ id, get_collection_items id (jellyfin (snd out))
           = get_collection_items id (jellyfin st))
  ∧ exists_on name (jellyfin (snd out)) = true.
Proof.
  intros Hdry Ht. cbv zeta. rewrite (sync_collection_sort_fails _ _ _ _ _ _ Hdry Ht).
  cbn [fst snd]. split; [done|].
  set (config := Collection.config collection).
  destruct (get_or_create_live config st) as (_ & c & Hfind & _).
  split; [|split].
  - unfold exists_on. destruct (find_by_name _ (jellyfin st)) as [c0|] eqn:Hf.
    + destruct (get_or_create_existing config st c0 Hf) as (_ & _ & -> & _).
      by rewrite app_nil_r.
    + by destruct (get_or_create_new config st Hf) as (_ & _ & -> & _).
  - intros id.
    destruct (decide (id = id_of (CollectionConfig.name config) (jellyfin st))) as [->|Hne];
      [|by apply get_or_create_others].
    pose proof (get_or_create_current config st) as Hcur.
    unfold id_of, current_of in *.
    destruct (find_by_name _ (jellyfin st)) as [c0|] eqn:Hf.
    + by destruct (get_or_create_existing config st c0 Hf) as (_ & -> & _ & _).
    + rewrite (get_items_empty _ _ Hcur).
      unfold get_collection_items. cbn [fst create_collection].
      by rewrite find_Id_None by apply fresh_not_in.
  - unfold exists_on. fold config. by rewrite Hfind.
Qed.

Lemma sync_sort_error_leaves_created_collection_witness :
  let out := sync_collection (builder false) env undated true (state0 []) in
  fst out = Raise (ValueError "year -1 is out of range")
  ∧ calls (snd out) = [JfCreateCollection "Trending"]
  ∧ exists_on "Trending" (jellyfin (snd out)) = true.
Proof.
  destruct (sync_sort_error_leaves_created_collection (builder false) env undated true
              (state0 []) (ValueError "year -1 is out of range") eq_refl eq_refl)
    as (H1 & H2 & _ & H4).
  split; [exact H1|]. split; [exact H2|exact H4].
Defined.

End SyncExtras.

Module ArrExtras.
Import Py JellyfinClient Sync SyncSpec JellyfinFacts SyncFacts SyncRuns SyncSamples ArrSpec.

Section WithBuilder.
Context `{U : Unicode}.
Variable self : CollectionBuilder.

Lemma loop_post_skip config items item rest rc sc st out more rt stl :
  loop_post config items rest rc sc st out more rt stl →
  loop_post config items (item :: rest) rc sc st out more rt stl.
Proof.
  intros (H1 & H2 & H3 & H4 & H5 & H6 & H7 & H8 & H9).
  unfold loop_post. split_and!; try done.
  - simpl. destruct (negb (is_series item)); [by apply sublist_cons|done].
  - simpl. destruct (is_series item); [by apply sublist_cons|done].
  - simpl. lia.
Qed.

Lemma loop_post_failed config items item rest rc sc st c out more rt stl :
  requested_for config items c →
  loop_post config items rest rc sc (log c st) out more rt stl →
  loop_post config items (item :: rest) rc sc st out (c :: more) rt stl.
Proof.
  intros Hc (H1 & H2 & H3 & H4 & H5 & H6 & H7 & H8 & H9).
  unfold loop_post. split_and!; try done.
  - rewrite H1. simpl. by rewrite <- app_assoc.
  - by constructor.
  - simpl. destruct (negb (is_series item)); [by apply sublist_cons|done].
  - simpl. destruct (is_series item); [by apply sublist_cons|done].
  - simpl. lia.
  - simpl. lia.
Qed.

Lemma loop_post_movie config items item rest rc sc st c out more rt stl :
  requested_for config items c → is_series item = false →
  loop_post config items rest (S rc) sc
    (on_report (CollectionReport.append_radarr_title (CollectionItem.title item)) (log c st))
    out more rt stl →
  loop_post config items (item :: rest) rc sc st out (c :: more)
    (CollectionItem.title item :: rt) stl.
Proof.
  intros Hc Hs (H1 & H2 & H3 & H4 & H5 & H6 & H7 & H8 & H9).
  unfold loop_post. split_and!; try done.
  - rewrite H1. simpl. by rewrite <- app_assoc.
  - by constructor.
  - rewrite H3. simpl. by rewrite <- app_assoc.
  - simpl. rewrite Hs. simpl. by apply sublist_skip.
  - simpl. by rewrite Hs.
  - intros rc' sc' H. destruct (H7 _ _ H) as [-> ->]. simpl. lia.
  - simpl. lia.
  - simpl. lia.
Qed.

Lemma loop_post_series config items item rest rc sc st c out more rt stl :
  requested_for config items c → is_series item = true →
  loop_post config items rest rc (S sc)
    (on_report (CollectionReport.append_sonarr_title (CollectionItem.title item)) (log c st))
    out more rt stl →
  loop_post config items (item :: rest) rc sc st out (c :: more)
    rt (CollectionItem.title item :: stl).
Proof.
  intros Hc Hs (H1 & H2 & H3 & H4 & H5 & H6 & H7 & H8 & H9).
  unfold loop_post. split_and!; try done.
  - rewrite H1. simpl. by rewrite <- app_assoc.
  - by constructor.
  - rewrite H4. simpl. by rewrite <- app_assoc.
  - simpl. by rewrite Hs.
  - simpl. rewrite Hs. by apply sublist_skip.
  - intros rc' sc' H. destruct (H7 _ _ H) as [-> ->]. simpl. lia.
  - simpl. lia.
  - simpl. lia.
Qed.

Lemma truthy_int_Some (x : option Z) :
  truthy_int x = true → ∃ n, x = Some n ∧ n ≠ 0.
Proof.
  destruct x as [n|]; [|done]. simpl. intros H. exists n. split; [done|].
  intros ->. done.
Qed.

Lemma add_missing_loop_spec config items missing rc sc st :
  (∀ x, x ∈ missing → x ∈ items ∧ CollectionItem.in_library x = false) →
  ∃ more rt stl,
    loop_post config items missing rc sc st
      (add_missing_loop self config missing rc sc st) more rt stl.
Proof.
  revert rc sc st. induction missing as [|item rest IH]; intros rc sc st Hin.
  - exists [], [], []. unfold loop_post. simpl. split_and!; try done;
      try (by rewrite app_nil_r).
    intros rc' sc' [= <- <-]. lia.
  - assert (∀ x, x ∈ rest → x ∈ items ∧ CollectionItem.in_library x = false) as Hrest.
    { intros x Hx. apply Hin. by right. }
    destruct (Hin item) as [Hitem Hlib]; [by left|].
    simpl. fold (is_series item).
    destruct (is_series item) eqn:Hs.
    + destruct (sonarr self) as [sn|].
      * set (looked_up := if _ && _ then _ else _).
        destruct looked_up as [tv|e].
        -- destruct (truthy_int tv) eqn:Htv; simpl.
           ++ destruct (truthy_int_Some _ Htv) as (n & -> & Hn). simpl.
              set (c := SonarrAddSeries n _ _ _).
              assert (requested_for config items c) as Hc.
              { unfold c. simpl. repeat split; try done. by exists item. }
              destruct (SonarrClient.add_series sn n _ _ _).
              ** destruct (IH rc (S sc)
                             (on_report (CollectionReport.append_sonarr_title
                                           (CollectionItem.title item)) (log c st)) Hrest)
                   as (more & rt & stl & H).
                 exists (c :: more), rt, (CollectionItem.title item :: stl).
                 by apply loop_post_series.
              ** destruct (IH rc sc (log c st) Hrest) as (more & rt & stl & H).
                 exists (c :: more), rt, stl. by apply loop_post_failed.
           ++ destruct (IH rc sc st Hrest) as (more & rt & stl & H).
              exists more, rt, stl. by apply loop_post_skip.
        -- exists [], [], []. unfold loop_post. simpl. split_and!; try done;
             try (by rewrite app_nil_r); try apply sublist_nil_l; lia.
      * simpl. destruct (IH rc sc st Hrest) as (more & rt & stl & H).
        exists more, rt, stl. by apply loop_post_skip.
    + simpl. destruct (truthy_int (CollectionItem.tmdb_id item)) eqn:Hid; simpl.
      * destruct (radarr self) as [rd|].
        -- destruct (truthy_int_Some _ Hid) as (n & Hn & Hnz). rewrite Hn. simpl.
           set (c := RadarrAddMovie n _ _ _).
           assert (requested_for config items c) as Hc.
           { unfold c. simpl. repeat split; try done. by exists item. }
           destruct (RadarrClient.add_movie rd n _ _ _).
           ++ destruct (IH (S rc) sc
                          (on_report (CollectionReport.append_radarr_title
                                        (CollectionItem.title item)) (log c st)) Hrest)
                as (more & rt & stl & H).
              exists (c :: more), (CollectionItem.title item :: rt), stl.
              by apply loop_post_movie.
           ++ destruct (IH rc sc (log c st) Hrest) as (more & rt & stl & H).
              exists (c :: more), rt, stl. by apply loop_post_failed.
        -- destruct (IH rc sc st Hrest) as (more & rt & stl & H).
           exists more, rt, stl. by apply loop_post_skip.
      * destruct (IH rc sc st Hrest) as (more & rt & stl & H).
        exists more, rt, stl. by apply loop_post_skip.
Qed.


Lemma _add_missing_to_arr_spec collection st :
  ∃ more rt stl,
    loop_post (Collection.config collection) (Collection.items collection)
      (missing_of collection) 0 0 st (_add_missing_to_arr self collection st) more rt stl.
Proof.
  unfold _add_missing_to_arr. fold (missing_of collection).
  destruct (add_missing_loop_spec (Collection.config collection)
              (Collection.items collection) (missing_of collection) 0 0 st)
    as (more & rt & stl & H).
  { intros x Hx. unfold missing_of in Hx.
    apply list_elem_of_In, filter_In in Hx. destruct Hx as [Hx Hl].
    split; [by apply list_elem_of_In|by apply negb_true_iff]. }
  exists more, rt, stl. by destruct (missing_of collection).
Qed.

Lemma add_missing_loop_is_ok config missing rc sc st :
  sonarr self = None ∨ lookups_answer self →
  is_ok (fst (add_missing_loop self config missing rc sc st)) = true.
Proof.
  intros Hc. revert rc sc st. induction missing as [|item rest IH]; intros rc sc st.
  - done.
  - simpl. destruct (String.eqb _ _); simpl.
    + destruct (sonarr self) as [sn|] eqn:Hsn.
      * destruct Hc as [Hc|Hc]; [done|].
        destruct (_ && _).
        -- pose proof (Hc (Filters.unwrap_int (CollectionItem.tmdb_id item))) as Hl.
           destruct (TMDbClient.get_series_details _ _) as [d|]; [|done]. simpl.
           destruct (negb _); [apply IH|].
           destruct (SonarrClient.add_series _ _ _ _ _); apply IH.
        -- destruct (negb _); [apply IH|].
           destruct (SonarrClient.add_series _ _ _ _ _); apply IH.
      * apply IH.
    + destruct (truthy_int _); [|apply IH].
      destruct (radarr self) as [rd|]; [|apply IH].
      destruct (RadarrClient.add_movie _ _ _ _ _); apply IH.
Qed.

Lemma add_missing_loop_lookups config missing rc sc st :
  is_ok (fst (add_missing_loop self config missing rc sc st))
  = forallb (lookup_answers self) missing.
Proof.
  revert rc sc st. induction missing as [|item rest IH]; intros rc sc st; [done|].
  cbn [add_missing_loop forallb]. unfold lookup_answers at 1, looked_up, is_series.
  destruct (String.eqb _ _); simpl.
  - destruct (sonarr self) as [sn|]; [|apply IH].
    destruct (negb (truthy_int (CollectionItem.tvdb_id item))
              && truthy_int (CollectionItem.tmdb_id item)).
    + destruct (TMDbClient.get_series_details _ _) as [d|]; [|done]. simpl.
      destruct (negb _); [apply IH|].
      destruct (SonarrClient.add_series _ _ _ _ _); apply IH.
    + destruct (negb (truthy_int _)); [apply IH|].
      destruct (SonarrClient.add_series _ _ _ _ _); apply IH.
  - replace (match sonarr self with Some _ => None | None => None end)
      with (@None Z) by (by destruct (sonarr self)).
    destruct (truthy_int _); [|apply IH].
    destruct (radarr self) as [rd|]; [|apply IH].
    destruct (RadarrClient.add_movie _ _ _ _ _); apply IH.
Qed.

Lemma _add_missing_to_arr_is_ok collection st :
  sonarr self = None ∨ lookups_answer self →
  is_ok (fst (_add_missing_to_arr self collection st)) = true.
Proof.
  intros Hc. unfold _add_missing_to_arr. destruct (List.filter _ _) eqn:E; [done|].
  by apply add_missing_loop_is_ok.
Qed.

Variable env : Env.

Lemma finish_sync_is_ok collection add cid a r st :
  is_ok (fst (finish_sync self env collection add cid a r st))
  = if add then is_ok (fst (_add_missing_to_arr self collection st)) else true.
Proof.
  unfold finish_sync. destruct add; [|done].
  match goal with
  | |- context [_add_missing_to_arr self collection ?s] =>
    rewrite (_add_missing_to_arr_result self collection st s);
    by destruct (_add_missing_to_arr self collection s) as [[[? ?]|?] ?]
  end.
Qed.

Lemma sync_collection_is_ok collection add st :
  dry_run self = false →
  is_ok (fst (sync_collection self env collection add st))
  = is_ok (target_of (draws env) collection)
    && (if add then is_ok (fst (_add_missing_to_arr self collection st)) else true).
Proof.
  intros Hdry. destruct (target_of (draws env) collection) as [tl|e] eqn:Ht.
  - rewrite (SyncExtras.sync_collection_steps self env collection add st tl Hdry Ht).
    simpl. rewrite finish_sync_is_ok. destruct add; [|done].
    apply _add_missing_to_arr_result.
  - by rewrite (SyncExtras.sync_collection_sort_fails self env collection add st e Hdry Ht).
Qed.

End WithBuilder.


(** X19: the two counts [_add_missing_to_arr] returns are the numbers of
    titles it has appended to the report's Radarr and Sonarr lists; those
    titles are titles of missing items, movies and series apart and in the
    order of the collection, and a request that failed is counted in
    neither. *)
Theorem add_missing_counts_are_titles_reported self collection st radarr_count sonarr_count :
  fst (_add_missing_to_arr self collection st) = Ok (radarr_count, sonarr_count) →
  let st' := snd (_add_missing_to_arr self collection st) in
  ∃ rt stl,
    CollectionReport.radarr_titles (report st')
    = CollectionReport.radarr_titles (report st) ++ rt
    ∧ CollectionReport.sonarr_titles (report st')
      = CollectionReport.sonarr_titles (report st) ++ stl
    ∧ radarr_count = length rt ∧ sonarr_count = length stl
    ∧ sublist rt (map CollectionItem.title
                    (List.filter (fun x => negb (is_series x)) (missing_of collection)))
    ∧ sublist stl (map CollectionItem.title
                     (List.filter is_series (missing_of collection)))
    ∧ (radarr_count + sonarr_count <= length (missing_of collection))%nat.
Proof.
  intros Hout. cbv zeta. destruct (_add_missing_to_arr_spec self collection st)
    as (more & rt & stl & H1 & H2 & H3 & H4 & H5 & H6 & H7 & H8 & H9).
  destruct (H7 _ _ Hout) as [-> ->].
  exists rt, stl. split_and!; try done. simpl. lia.
Qed.

Lemma add_missing_counts_are_titles_reported_witness :
  let out := _add_missing_to_arr arr_builder wanted (state0 []) in
  fst out = Ok (1%nat, 0%nat)
  ∧ CollectionReport.radarr_titles (report (snd out)) = ["B"]
  ∧ calls (snd out)
    = [RadarrAddMovie 2 None None None; RadarrAddMovie 3 None None None;
       SonarrAddSeries 40 None None None]
  ∧ ∃ rt stl,
      CollectionReport.radarr_titles (report (snd out))
      = CollectionReport.radarr_titles (report (state0 [])) ++ rt
      ∧ CollectionReport.sonarr_titles (report (snd out))
        = CollectionReport.sonarr_titles (report (state0 [])) ++ stl
      ∧ 1%nat = length rt ∧ 0%nat = length stl
      ∧ sublist rt (map CollectionItem.title
                      (List.filter (fun x => negb (is_series x)) (missing_of wanted)))
      ∧ sublist stl (map CollectionItem.title
                       (List.filter is_series (missing_of wanted)))
      ∧ (1 + 0 <= length (missing_of wanted))%nat.
Proof.
  split; [reflexivity|]. split; [reflexivity|]. split; [reflexivity|].
  apply (add_missing_counts_are_titles_reported arr_builder wanted (state0 []) 1%nat 0%nat).
  reflexivity.
Defined.

(** X20: a Radarr or Sonarr that fails never fails
    [_add_missing_to_arr]: it returns exactly when every TMDb look-up of
    series details it makes answers - one is made for a missing series
    with a TMDb ID and no TVDB ID, when a Sonarr client is configured - and
    so it always returns without a Sonarr client.  And a run of
    [sync_collection] that is not dry and returns has had its sort return
    and, if missing items were to be requested, its [_add_missing_to_arr]
    return. *)
Theorem add_missing_fails_only_on_lookup self collection st :
  is_ok (fst (_add_missing_to_arr self collection st))
  = forallb (lookup_answers self) (missing_of collection)
  ∧ (sonarr self = None ∨ lookups_answer self →
     is_ok (fst (_add_missing_to_arr self collection st)) = true)
  ∧ ∀ (U : Unicode) env add_missing_to_arr st',
      dry_run self = false →
      is_ok (fst (sync_collection self env collection add_missing_to_arr st')) = true →
      is_ok (target_of (draws env) collection) = true
      ∧ (add_missing_to_arr = true →
         forallb (lookup_answers self) (missing_of collection) = true).
Proof.
  assert (is_ok (fst (_add_missing_to_arr self collection st))
          = forallb (lookup_answers self) (missing_of collection)) as Hiff.
  { unfold _add_missing_to_arr. fold (missing_of collection).
    destruct (missing_of collection) eqn:E; [done|]. apply add_missing_loop_lookups. }
  split; [done|]. split; [by apply _add_missing_to_arr_is_ok|].
  intros U env add st' Hdry Hok.
  rewrite (sync_collection_is_ok self env collection add st' Hdry) in Hok.
  apply andb_true_iff in Hok as [Ht Ha]. split; [done|]. intros ->.
  by rewrite <- Hiff, (_add_missing_to_arr_result self collection st st').
Qed.

(** With a Radarr that refuses one movie and a Sonarr that is down the
    step returns; when the look-up of series details fails, it raises that
    error after the requests already made. *)
Example add_missing_lookup_scenario :
  fst (_add_missing_to_arr arr_builder wanted (state0 [])) = Ok (1%nat, O)
  ∧ fst (_add_missing_to_arr arr_builder_no_details wanted (state0 []))
    = Raise Samples.unavailable
  ∧ calls (snd (_add_missing_to_arr arr_builder_no_details wanted (state0 [])))
    = [RadarrAddMovie 2 None None None; RadarrAddMovie 3 None None None;
       SonarrAddSeries 40 None None None]
  ∧ forallb (lookup_answers arr_builder_no_details) (missing_of wanted) = false.
Proof. vm_compute. by repeat split. Qed.

End ArrExtras.

Module PipelineExtras.
Import Py Fetch Filters Build BuildSpec Samples JellyfinClient Sync SyncSpec SyncView
  SyncSamples PipelineSpec.

Lemma match_items_found find_in_library library_id filtered items matched missing :
  match_items find_in_library library_id filtered = Ok (items, matched, missing) →
  map CollectionItem.jellyfin_id items = map (found_id find_in_library library_id) filtered.
Proof.
  revert items matched missing.
  induction filtered as [|x r IH]; intros items matched missing; simpl.
  - by intros [= <- <- <-].
  - unfold found_id at 1.
    destruct (find_in_library x library_id) as [lib|e]; simpl; [|done].
    destruct (match_items find_in_library library_id r) as [[[items' matched'] missing']|e];
      simpl; [|done].
    intros [= <- <- <-]. simpl. rewrite (IH _ _ _ eq_refl). by destruct lib.
Qed.

Lemma matched_ids_elem_of items id :
  id ∈ matched_ids items ↔ id ≠ "" ∧ Some id ∈ map CollectionItem.jellyfin_id items.
Proof.
  unfold matched_ids. rewrite list_elem_of_omap. split.
  - intros (i & Hi & Hid). destruct (CollectionItem.jellyfin_id i) as [j|] eqn:Hj; [|done].
    simpl in Hid. destruct (String.eqb_spec j "") as [->|Hne]; [done|].
    injection Hid as <-. split; [done|]. rewrite <- Hj. by apply list_elem_of_fmap_2.
  - intros (Hne & Hin). apply list_elem_of_fmap in Hin. destruct Hin as (i & Hj & Hi).
    exists i. split; [done|]. rewrite <- Hj. simpl.
    by destruct (String.eqb_spec id "").
Qed.

Lemma matched_ids_perm l1 l2 : l1 ≡ₚ l2 → matched_ids l1 ≡ₚ matched_ids l2.
Proof. intros H. unfold matched_ids. by rewrite H. Qed.

Lemma target_of_set `{U : Unicode} draws collection tl :
  target_of draws collection = Ok tl →
  (list_to_set tl : gset string) = list_to_set (matched_ids (Collection.items collection)).
Proof.
  intros Ht. destruct (SyncRuns.target_of_sorted _ _ _ Ht) as (sorted & Hs & ->).
  apply SortExtras._sort_items_perm in Hs.
  apply set_eq. intros x. rewrite !elem_of_list_to_set.
  by rewrite (matched_ids_perm _ _ Hs).
Qed.

(** X21: building a collection and syncing it: after a run that is not
    dry and gets past the sort, the members of the collection on the server
    are exactly the non-empty Jellyfin ids of the library items the matcher
    found for the fetched items that passed the filters, whatever the
    ordering policy. *)
Theorem build_then_sync_members `{U : Unicode}
    self env find_in_library config library_name library_id media_type
    collection report add_missing_to_arr st tl :
  build_collection self find_in_library config library_name library_id media_type
    = Ok (collection, report) →
  dry_run self = false →
  target_of (draws env) collection = Ok tl →
  let out := sync_collection self env collection add_missing_to_arr st in
  ∃ fetched c,
    _fetch_items (Sync.tmdb self) (Sync.trakt self) config media_type = Ok fetched
    ∧ find_by_name (CollectionConfig.name config) (jellyfin (snd out)) = Some c
    ∧ ∀ id, id ∈ get_collection_items (Id c) (jellyfin (snd out))
            ↔ id ≠ "" ∧ ∃ x, x ∈ _apply_filters fetched config
                              ∧ found_id find_in_library library_id x = Some id.
Proof.
  intros Hb Hdry Ht. cbv zeta.
  destruct (SyncExtras.sync_collection_outcome self env collection add_missing_to_arr st tl
              Hdry Ht) as ((c & Hfind & Hid) & Hm & _).
  unfold build_collection in Hb.
  destruct (_get_source_provider config); simpl in Hb; [|done].
  destruct (_fetch_items _ _ config media_type) as [fetched|]; simpl in Hb; [|done].
  destruct (match_items find_in_library library_id (_apply_filters fetched config))
    as [[[items matched] missing]|] eqn:Hmi; simpl in Hb; [|done].
  injection Hb as <- <-. simpl in *.
  exists fetched, c. split; [done|]. split; [done|]. intros id.
  rewrite Hid. unfold members in Hm.
  rewrite <- (elem_of_list_to_set (C := gset string)), Hm.
  rewrite (target_of_set _ _ _ Ht), elem_of_list_to_set. simpl.
  rewrite matched_ids_elem_of, (match_items_found _ _ _ _ _ _ Hmi).
  rewrite list_elem_of_fmap. naive_solver.
Qed.

Lemma build_then_sync_members_witness :
  ∃ collection report,
    build_collection (Samples.builder (tmdb_client (Ok [item_A; item_A_dup; item_B]) (Ok [])) false)
      finds_even (config "Trending" SORT_NAME (Some 20) None) "Films" "lib-1" MOVIE
    = Ok (collection, report)
    ∧ let out := sync_collection
                   (Samples.builder (tmdb_client (Ok [item_A; item_A_dup; item_B]) (Ok [])) false)
                   env collection true (state0 []) in
      get_collection_items (id_of "Trending" []) (jellyfin (snd out)) = ["jf-B"]
      ∧ ∃ fetched c,
          _fetch_items (tmdb_client (Ok [item_A; item_A_dup; item_B]) (Ok [])) None
            (config "Trending" SORT_NAME (Some 20) None) MOVIE = Ok fetched
          ∧ find_by_name "Trending" (jellyfin (snd out)) = Some c
          ∧ ∀ id, id ∈ get_collection_items (Id c) (jellyfin (snd out))
                  ↔ id ≠ "" ∧ ∃ x, x ∈ _apply_filters fetched
                                         (config "Trending" SORT_NAME (Some 20) None)
                                    ∧ found_id finds_even "lib-1" x = Some id.
Proof.
  eexists _, _. split; [reflexivity|]. cbv zeta. split; [reflexivity|].
  eapply (build_then_sync_members
            (Samples.builder (tmdb_client (Ok [item_A; item_A_dup; item_B]) (Ok [])) false) env
            finds_even (config "Trending" SORT_NAME (Some 20) None) "Films" "lib-1" MOVIE
            _ _ true (state0 []) ["jf-B"]); reflexivity.
Defined.

End PipelineExtras.

Module RadarrExtras.
Import Py Radarr.

Lemma find_first {A} (p : A → bool) (l : list A) (x : A) :
  List.find p l = Some x →
  ∃ before after, l = before ++ x :: after ∧ p x = true
                  ∧ Forall (fun y => p y = false) before.
Proof.
  induction l as [|y r IH]; simpl; [done|].
  destruct (p y) eqn:Hy.
  - intros [= ->]. exists [], r. by repeat split.
  - intros Hf. destruct (IH Hf) as (b & a & -> & Hx & Hb).
    exists (y :: b), a. repeat split; [done|by constructor].
Qed.

Lemma find_none {A} (p : A → bool) (l : list A) :
  List.find p l = None → Forall (fun y => p y = false) l.
Proof.
  induction l as [|y r IH]; simpl; [done|].
  destruct (p y) eqn:Hy; [done|]. intros Hf. constructor; [done|by apply IH].
Qed.

(** X22: the quality profile a lookup finds is the first one of the
    server whose name equals the name asked, case apart; but once an id is
    cached every later lookup answers that id, whatever name is asked and
    whatever the server holds, and asks the server nothing. *)
Theorem quality_profile_cache_ignores_name `{U : Unicode} srv name self i self' :
  get_quality_profile_id srv name self = (Ok (Some i), self') →
  i ≠ 0 →
  (_quality_profile_id self = Some i
   ∨ ∃ before p after,
       get_quality_profiles srv = Ok (before ++ p :: after)
       ∧ lower (Radarr.name p) = lower name ∧ id p = i
       ∧ Forall (fun q => lower (Radarr.name q) ≠ lower name) before)
  ∧ ∀ srv' name', get_quality_profile_id srv' name' self' = (Ok (Some i), self').
Proof.
  unfold get_quality_profile_id. intros H Hi.
  assert (truthy_int (Some i) = true) as Ht.
  { simpl. by destruct (Z.eqb_spec i 0). }
  destruct (truthy_int (_quality_profile_id self)) eqn:Hc.
  - injection H as H <-. split; [by left|]. intros srv' name'. by rewrite Hc, H.
  - destruct (get_quality_profiles srv) as [profiles|]; [|done].
    destruct (List.find _ profiles) as [p|] eqn:Hf; [|done].
    injection H as <- <-. split.
    + right. destruct (find_first _ _ _ Hf) as (b & a & -> & Hp & Hb).
      exists b, p, a. split; [done|]. split; [by apply String.eqb_eq|]. split; [done|].
      eapply Forall_impl; [exact Hb|]. intros q Hq. by apply String.eqb_neq.
    + intros srv' name'. cbn [_quality_profile_id]. by rewrite Ht.
Qed.

Lemma quality_profile_cache_ignores_name_witness :
  let self' := snd (get_quality_profile_id sample_server "hd-1080P" new_client) in
  fst (get_quality_profile_id sample_server "hd-1080P" new_client) = Ok (Some 4)
  ∧ get_quality_profile_id sample_server "Ultra-HD" self' = (Ok (Some 4), self').
Proof.
  split; [reflexivity|].
  destruct (quality_profile_cache_ignores_name sample_server "hd-1080P" new_client 4
              (mk_client (Some 4) None) eq_refl) as [_ H]; [lia|].
  apply H.
Defined.

(** With the Latin-1 tables for [str.lower()], of two profiles whose
    names differ in case only the first answers. *)
Example quality_profile_first_of_accented_names :
  fst (get_quality_profile_id accented_server "hd français" new_client) = Ok (Some 9).
Proof. vm_compute. reflexivity. Qed.

(** X23: the root folder a request is given is always one of the
    server's own: the first whose path is a prefix of the path asked (so
    [/data/movies] answers for [/data/movies-4k] when it comes first), else
    the server's first folder; none only when the server has no folder. *)
Theorem root_folder_is_one_of_the_servers srv path folders :
  get_root_folders srv = Ok folders →
  ∃ answer, get_root_folder_path srv path = Ok answer
    ∧ (answer = None ↔ folders = [])
    ∧ ∀ folder, answer = Some folder →
        folder ∈ folders
        ∧ ((∃ before after, folders = before ++ folder :: after
                            ∧ startswith path folder = true
                            ∧ Forall (fun f => startswith path f = false) before)
           ∨ (Forall (fun f => startswith path f = false) folders
              ∧ head folders = Some folder)).
Proof.
  intros Hf. unfold get_root_folder_path. rewrite Hf, bind_Ok.
  assert (∀ f, (String.eqb f path || startswith path f) = startswith path f) as Hp.
  { intros f. destruct (String.eqb_spec f path) as [->|_]; [|done].
    simpl. unfold startswith. clear. induction path as [|c r IH]; simpl; [done|].
    by destruct (ascii_dec c c). }
  eexists. split; [reflexivity|].
  destruct (List.find _ folders) as [f|] eqn:E.
  - destruct (find_first _ _ _ E) as (b & a & -> & Hx & Hb). cbv beta in Hx. rewrite Hp in Hx.
    split; [split; [done|by destruct b]|].
    intros folder [= <-]. split; [set_solver|]. left. exists b, a.
    split; [done|]. split; [done|].
    eapply Forall_impl; [exact Hb|]. intros y Hy. cbv beta in Hy. by rewrite Hp in Hy.
  - apply find_none in E.
    assert (Forall (fun f => startswith path f = false) folders) as Hn.
    { eapply Forall_impl; [exact E|]. intros y Hy. cbv beta in Hy. by rewrite Hp in Hy. }
    destruct folders as [|f r]; [by split|].
    split; [by split|]. intros folder [= <-]. split; [set_solver|]. by right.
Qed.

Lemma root_folder_is_one_of_the_servers_witness :
  get_root_folder_path sample_server "/data/movies-4k" = Ok (Some "/data/movies")
  ∧ get_root_folder_path sample_server "/tv" = Ok (Some "/data/movies").
Proof.
  destruct (root_folder_is_one_of_the_servers sample_server "/data/movies-4k"
              ["/data/movies"; "/data/movies-4k"] eq_refl) as (a & Ha & _).
  split; [|reflexivity]. rewrite Ha. f_equal.
  by injection Ha as <-.
Defined.

Lemma get_or_create_tag_cached `{U : Unicode} srv name self i :
  _tag_id self = Some i → i ≠ 0 → get_or_create_tag srv name self = (Ok i, self).
Proof.
  intros Hc Hi. unfold get_or_create_tag. rewrite Hc. simpl.
  by destruct (Z.eqb_spec i 0).
Qed.

Lemma get_or_create_tag_caches `{U : Unicode} srv name self i self' :
  get_or_create_tag srv name self = (Ok i, self') → i ≠ 0 → _tag_id self' = Some i.
Proof.
  unfold get_or_create_tag. intros H Hi.
  destruct (truthy_int (_tag_id self)) eqn:Hc.
  - injection H as <- <-. destruct (_tag_id self) as [j|]; [|done]. done.
  - destruct (get_tags srv) as [tags|]; [|done].
    destruct (List.find _ tags) as [t|].
    + by injection H as <- <-.
    + destruct (post_tag srv name); [|done]. by injection H as <- <-.
Qed.

Lemma tag_ids_loop_cached `{U : Unicode} srv names tag_ids self i :
  _tag_id self = Some i → i ≠ 0 →
  tag_ids_loop srv names tag_ids self = (Ok (tag_ids ++ replicate (length names) i), self).
Proof.
  intros Hc Hi. revert tag_ids. induction names as [|n r IH]; intros tag_ids; simpl.
  - by rewrite app_nil_r.
  - rewrite (get_or_create_tag_cached srv n self i Hc Hi). rewrite IH.
    by rewrite <- app_assoc.
Qed.

(** X24: every tag of one request gets the same id: the first tag name
    is resolved (found on the server case apart, or created) and its id
    cached, and every further tag name of this and of later requests is
    answered with that id, without being looked up or created. *)
Theorem tag_ids_all_equal_the_first `{U : Unicode} srv first rest default_tag i self' :
  get_or_create_tag srv first new_client = (Ok i, self') →
  i ≠ 0 →
  tag_ids_of srv (Some (first :: rest)) default_tag new_client
  = (Ok (replicate (S (length rest)) i), self')
  ∧ ∀ srv' tags, ∃ n, tag_ids_of srv' tags default_tag self' = (Ok (replicate n i), self').
Proof.
  intros H Hi. pose proof (get_or_create_tag_caches srv first new_client i self' H Hi) as Hc.
  split.
  - unfold tag_ids_of. simpl. rewrite H. apply (tag_ids_loop_cached srv rest [i] self' i Hc Hi).
  - intros srv' tags. unfold tag_ids_of. eexists.
    apply (tag_ids_loop_cached srv' _ [] self' i Hc Hi).
Qed.

Lemma tag_ids_all_equal_the_first_witness :
  fst (tag_ids_of sample_server (Some ["JFC"; "trending"; "4k"]) "jfc" new_client)
  = Ok [7; 7; 7].
Proof.
  destruct (tag_ids_all_equal_the_first sample_server "JFC" ["trending"; "4k"] "jfc" 7
              (mk_client None (Some 7)) eq_refl) as [H _]; [lia|].
  rewrite H. reflexivity.
Defined.

End RadarrExtras.

Module ReportExtras.
Import LibraryReport.

Lemma sum_of_from {A} (f : A → nat) (l : list A) (n : nat) :
  fold_left (fun acc c => (acc + f c)%nat) l n = (n + sum_of f l)%nat.
Proof.
  unfold sum_of. revert n. induction l as [|x r IH]; intros n; simpl; [lia|].
  rewrite (IH (n + f x)%nat), (IH (f x)). lia.
Qed.

Lemma sum_of_cons {A} (f : A → nat) x (l : list A) :
  sum_of f (x :: l) = (f x + sum_of f l)%nat.
Proof. unfold sum_of at 1. simpl. apply sum_of_from. Qed.

Lemma sum_of_app {A} (f : A → nat) (l1 l2 : list A) :
  sum_of f (l1 ++ l2) = (sum_of f l1 + sum_of f l2)%nat.
Proof.
  induction l1 as [|x r IH]; simpl; [done|]. rewrite !sum_of_cons, IH. lia.
Qed.

Lemma sum_of_concat {A B} (f : B → nat) (g : A → list B) (l : list A) :
  sum_of (fun x => sum_of f (g x)) l = sum_of f (concat (map g l)).
Proof.
  induction l as [|x r IH]; simpl; [done|]. by rewrite sum_of_cons, sum_of_app, IH.
Qed.

Lemma sum_of_ones {A} (l : list A) : sum_of (fun _ => 1%nat) l = length l.
Proof. induction l as [|x r IH]; [done|]. rewrite sum_of_cons, IH. done. Qed.

Lemma filter_split_length {A} (p : A → bool) (l : list A) :
  (length (List.filter p l) + length (List.filter (fun x => negb (p x)) l))%nat = length l.
Proof. induction l as [|x r IH]; simpl; [done|]. destruct (p x); simpl; lia. Qed.

Lemma library_successful_failed self :
  (successful_collections self + failed_collections self)%nat = total_collections self.
Proof.
  unfold successful_collections, failed_collections, total_collections.
  rewrite !sum_of_ones. apply filter_split_length.
Qed.

Lemma sum_of_plus {A} (f g : A → nat) (l : list A) :
  sum_of (fun x => (f x + g x)%nat) l = (sum_of f l + sum_of g l)%nat.
Proof. induction l as [|x r IH]; [done|]. rewrite !sum_of_cons, IH. lia. Qed.

Lemma sum_of_ext {A} (f g : A → nat) (l : list A) :
  (∀ x, f x = g x) → sum_of f l = sum_of g l.
Proof. intros H. induction l as [|x r IH]; [done|]. by rewrite !sum_of_cons, IH, H. Qed.

(** X25: the totals of a run report add up: in every library and in
    the run, successful and failed collections make up the total; and
    each total of the run is the total over all collection reports of all
    its libraries. *)
Theorem run_report_totals_add_up (self : RunReport.t) :
  (RunReport.successful_collections self + RunReport.failed_collections self)%nat
  = RunReport.total_collections self
  ∧ RunReport.total_collections self = length (RunReport.all_collections self)
  ∧ RunReport.total_items_added self
    = sum_of (fun c => CollectionReport.items_added_to_collection (fst c))
        (RunReport.all_collections self)
  ∧ RunReport.total_items_removed self
    = sum_of (fun c => CollectionReport.items_removed_from_collection (fst c))
        (RunReport.all_collections self)
  ∧ RunReport.total_radarr_requests self
    = sum_of (fun c => CollectionReport.items_sent_to_radarr (fst c))
        (RunReport.all_collections self)
  ∧ RunReport.total_sonarr_requests self
    = sum_of (fun c => CollectionReport.items_sent_to_sonarr (fst c))
        (RunReport.all_collections self).
Proof.
  unfold RunReport.successful_collections, RunReport.failed_collections,
    RunReport.total_collections, RunReport.total_items_added,
    RunReport.total_items_removed, RunReport.total_radarr_requests,
    RunReport.total_sonarr_requests, RunReport.all_collections.
  split_and!.
  - rewrite <- sum_of_plus. apply sum_of_ext, library_successful_failed.
  - rewrite <- sum_of_ones, <- sum_of_concat. apply sum_of_ext. intros lib.
    unfold total_collections. by rewrite sum_of_ones.
  - apply sum_of_concat.
  - apply sum_of_concat.
  - apply sum_of_concat.
  - apply sum_of_concat.
Qed.

End ReportExtras.

Module SortCanon.
Import Py Sort SortFacts OrdFacts Ordering SortSamples SortTheorems SortSpec.

Lemma in_order_antisym `{U : Unicode} order x y :
  sorts order = true → in_order order x y → in_order order y x →
  same_rank order x y = true.
Proof.
  destruct order; try done; intros _; unfold in_order, same_rank, str_le.
  - intros H1 H2. rewrite (String.leb_antisym _ _ H1 H2). apply String.eqb_refl.
  - intros [H1|[H1 T1]] [H2|[H2 T2]]; try lia.
    rewrite H1, Z.eqb_refl, (String.leb_antisym _ _ T2 T1). apply String.eqb_refl.
  - intros [H1|[H1 T1]] [H2|[H2 T2]]; try lra.
    rewrite (String.leb_antisym _ _ T1 T2), String.eqb_refl, andb_true_r.
    by apply Qeq_bool_iff.
  - intros [H1|[H1 T1]] [H2|[H2 T2]]; try lra.
    rewrite (String.leb_antisym _ _ T1 T2), String.eqb_refl, andb_true_r.
    by apply Qeq_bool_iff.
  - intros [H1|[H1 T1]] [H2|[H2 T2]]; try lia.
    rewrite H1, Z.eqb_refl, (String.leb_antisym _ _ T2 T1). apply String.eqb_refl.
Qed.

Lemma forallb_perm {A} (p : A → bool) l1 l2 : l1 ≡ₚ l2 → forallb p l1 = forallb p l2.
Proof.
  induction 1 as [|x l l' _ IH|x y l|l l' l'' _ IH1 _ IH2]; simpl.
  - done.
  - by rewrite IH.
  - by destruct (p x), (p y).
  - by rewrite IH1.
Qed.

(** X26: under a sorting policy the order of the result depends on the
    items only, not on the order they came in, as long as no two of them
    have the same sort key: two inputs with the same items sort to the same
    list (and either both sort or both fail). *)
Theorem sort_items_order_is_canonical `{U : Unicode} order draws draws' items items' out :
  sorts order = true →
  items ≡ₚ items' →
  (∀ x y, x ∈ items → y ∈ items → same_rank order x y = true → x = y) →
  _sort_items_for_collection draws items order = Ok out →
  _sort_items_for_collection draws' items' order = Ok out.
Proof.
  intros Hs Hp Hk Hout.
  assert (forallb (key_defined order) items = true) as Hd.
  { rewrite <- (_sort_items_is_ok draws) by done. by rewrite Hout. }
  rewrite (_sort_items_sorted draws items order Hs Hd) in Hout. injection Hout as <-.
  rewrite (_sort_items_sorted draws' items' order Hs)
    by by rewrite <- (forallb_perm _ _ _ Hp).
  f_equal. apply (StronglySorted_unique_strong (in_order order)).
  - intros x y Hx Hy H1 H2. apply Hk.
    + by rewrite sorted_items_perm, <- Hp in Hx.
    + by rewrite sorted_items_perm in Hy.
    + apply in_order_antisym; [done|done|done].
  - apply sorted_items_in_order.
  - apply sorted_items_in_order.
  - by rewrite !sorted_items_perm.
Qed.

Lemma sort_items_order_is_canonical_witness :
  _sort_items_for_collection []
    [rated "Heat" 1995 8.3%Q; rated "Dune" 2021 7.8%Q; rated "Oppenheimer" 2023 8.1%Q]
    COMMUNITY_RATING
  = Ok [rated "Heat" 1995 8.3%Q; rated "Oppenheimer" 2023 8.1%Q; rated "Dune" 2021 7.8%Q].
Proof.
  apply (sort_items_order_is_canonical COMMUNITY_RATING [] []
           [rated "Oppenheimer" 2023 8.1%Q; rated "Dune" 2021 7.8%Q;
            rated "Heat" 1995 8.3%Q]).
  - reflexivity.
  - apply Permutation_sym. apply perm_trans
      with [rated "Dune" 2021 7.8%Q; rated "Heat" 1995 8.3%Q; rated "Oppenheimer" 2023 8.1%Q];
      [apply perm_swap|]. apply perm_trans
      with [rated "Dune" 2021 7.8%Q; rated "Oppenheimer" 2023 8.1%Q; rated "Heat" 1995 8.3%Q];
      [apply perm_skip, perm_swap|apply perm_swap].
  - intros x y Hx Hy.
    repeat (apply elem_of_cons in Hx as [->|Hx]); try (by apply elem_of_nil in Hx);
      repeat (apply elem_of_cons in Hy as [->|Hy]); try (by apply elem_of_nil in Hy);
      vm_compute; congruence.
  - reflexivity.
Defined.

End SortCanon.

Module SyncReportExtras.
Import Py JellyfinClient Sync SyncSpec JellyfinFacts SyncFacts SyncRuns SyncSamples SyncView
  ReportView.

Section WithBuilder.
Context `{U : Unicode}.
Variable self : CollectionBuilder.
Variable env : Env.

Lemma add_missing_loop_settled config missing rc sc st :
  settled_part (report (snd (add_missing_loop self config missing rc sc st)))
  = settled_part (report st).
Proof.
  revert rc sc st.
  induction missing as [|item rest IH]; intros rc sc st; [done|].
  cbn [add_missing_loop].
  destruct (if String.eqb _ _ then sonarr self else None) as [sn|].
  - destruct (if _ && _ then _ else _) as [tv|e]; [|done].
    destruct (negb (truthy_int tv)); [apply IH|].
    destruct (SonarrClient.add_series _ _ _ _ _); by rewrite IH.
  - destruct (if _ && _ then radarr self else None) as [rd|]; [|apply IH].
    destruct (RadarrClient.add_movie _ _ _ _ _); by rewrite IH.
Qed.

Lemma _add_missing_to_arr_settled collection st :
  settled_part (report (snd (_add_missing_to_arr self collection st)))
  = settled_part (report st).
Proof.
  unfold _add_missing_to_arr. destruct (List.filter _ _); [done|].
  apply add_missing_loop_settled.
Qed.

Lemma finish_sync_settled collection add cid a r st :
  settled_part (report (snd (finish_sync self env collection add cid a r st)))
  = settled_part (report st).
Proof.
  unfold finish_sync.
  set (st1 := on_jellyfin _ (log _ (on_report _ st))).
  assert (settled_part (report st1) = settled_part (report st)) as H1 by done.
  set (st2 := if truthy_str _ then snd (_upload_poster env collection st1) else st1).
  assert (settled_part (report st2) = settled_part (report st)) as H2.
  { unfold st2. destruct (truthy_str _); [|done].
    by destruct (_upload_poster_frame env collection st1) as [_ ->]. }
  destruct add; [|done].
  pose proof (_add_missing_to_arr_settled collection st2) as H3.
  destruct (_add_missing_to_arr self collection st2) as [[[rc sc]|e] st3];
    cbn [fst snd] in *; [|congruence].
  rewrite <- H2, <- H3. done.
Qed.

Lemma apply_changes_report order existed cid cur tl st :
  report (apply_changes env order existed cid cur tl st) = report st.
Proof.
  unfold apply_changes.
  repeat match goal with
  | |- context [if ?b then _ else _] => destruct b
  end; done.
Qed.

Lemma get_or_create_report config st :
  report (snd (get_or_create config st))
  = CollectionReport.set_collection_existed
      (exists_on (CollectionConfig.name config) (jellyfin st)) (report st).
Proof.
  unfold get_or_create, exists_on, get_collections.
  destruct (find_by_name _ _); [done|]. by destruct (create_collection _ _).
Qed.

End WithBuilder.

(** X27: what a run that gets past the sort writes to the report
    besides the counts: whether the collection was found on the server, and,
    appended to the added titles, the titles of the collection's items whose
    Jellyfin id was not yet a member; what [build_collection] had filled in
    is left as it was. *)
Theorem sync_report_records_lookup_and_added_titles `{U : Unicode}
    self env collection add_missing_to_arr st tl :
  dry_run self = false →
  target_of (draws env) collection = Ok tl →
  let name := CollectionConfig.name (Collection.config collection) in
  let cur := current_of name (jellyfin st) in
  let out := sync_collection self env collection add_missing_to_arr st in
  CollectionReport.collection_existed (report (snd out)) = exists_on name (jellyfin st)
  ∧ CollectionReport.added_titles (report (snd out))
    = CollectionReport.added_titles (report st)
      ++ added_titles_of collection (list_to_set tl ∖ cur)
  ∧ build_part (report (snd out)) = build_part (report st).
Proof.
  intros Hdry Ht. cbv zeta.
  rewrite (SyncExtras.sync_collection_steps self env collection add_missing_to_arr st tl
             Hdry Ht).
  match goal with
  | |- context [finish_sync self env ?c ?a ?i ?x ?y ?s] =>
    pose proof (finish_sync_settled self env c a i x y s) as Hf;
    set (out := finish_sync self env c a i x y s) in *
  end.
  rewrite apply_changes_report in Hf.
  change (report (on_report ?f ?s)) with (f (report s)) in Hf.
  rewrite get_or_create_report in Hf.
  pose proof (f_equal (fun p => fst (fst p)) Hf) as Hb.
  pose proof (f_equal (fun p => snd (fst p)) Hf) as He.
  pose proof (f_equal snd Hf) as Ha.
  by split_and!.
Qed.

Lemma sync_report_records_lookup_and_added_titles_witness :
  let out := sync_collection (builder false) env (trending SORT_NAME) true
               (state0 server_behind) in
  CollectionReport.collection_existed (report (snd out)) = true
  ∧ CollectionReport.added_titles (report (snd out)) = ["B"].
Proof.
  destruct (sync_report_records_lookup_and_added_titles (builder false) env
              (trending SORT_NAME) true (state0 server_behind) ["jf-1"; "jf-2"]
              eq_refl eq_refl) as (H1 & H2 & _).
  split; [exact H1|reflexivity].
Defined.

End SyncReportExtras.

Module EmptyTargetExtras.
Import Py JellyfinClient Sync SyncSpec JellyfinFacts SyncFacts SyncRuns SyncSamples SyncView
  EmptySpec.

Lemma apply_changes_empty_target env order existed cid cur st :
  calls (apply_changes env order existed cid cur [] st)
  = calls st
    ++ (if nonempty cur
        then [JfRemoveFromCollection cid (list_of_set (set_order env) cur)] else []).
Proof.
  unfold apply_changes. rewrite andb_false_r.
  replace (list_to_set [] ∖ cur) with (∅ : gset string) by set_solver.
  replace (cur ∖ list_to_set []) with cur by set_solver.
  rewrite nonempty_empty. destruct (nonempty cur); [done|by rewrite app_nil_r].
Qed.

(** X28: with an empty target - no item of the collection is in the
    library - a run that returns has added nothing, under any policy: it
    has removed what the server held in one request, listing the members in
    the order in which the interpreter lists that set, or has issued no
    membership request at all; it returns (0, number of members held), and
    the collection is on the server, empty - a collection that did not
    exist has been created all the same. *)
Theorem sync_empty_target_empties_collection `{U : Unicode}
    self env collection add_missing_to_arr st :
  dry_run self = false →
  target_of (draws env) collection = Ok [] →
  let name := CollectionConfig.name (Collection.config collection) in
  let cid := id_of name (jellyfin st) in
  let cur := current_of name (jellyfin st) in
  let out := sync_collection self env collection add_missing_to_arr st in
  is_ok (fst out) = true →
  let listed := list_of_set (set_order env) cur in
  listed ≡ₚ elements cur
  ∧ membership_calls (snd out)
    = membership_calls st
      ++ (if nonempty cur then [JfRemoveFromCollection cid listed] else [])
  ∧ exists_on name (jellyfin (snd out)) = true
  ∧ get_collection_items cid (jellyfin (snd out)) = []
  ∧ fst out = Ok (O, size cur).
Proof.
  intros Hdry Ht. cbv zeta. intros Hok.
  destruct (SyncExtras.sync_collection_outcome self env collection add_missing_to_arr st []
              Hdry Ht) as ((c & Hfind & Hid) & Hm & _ & _ & _ & Hc & _).
  split_and!.
  - apply list_of_set_perm.
  - rewrite (SyncExtras.sync_collection_steps self env collection add_missing_to_arr st []
               Hdry Ht).
    match goal with
    | |- context [finish_sync self env ?c ?a ?i ?x ?y ?s] =>
      destruct (finish_sync_frame self env c a i x y s) as ([_ ->] & _)
    end.
    unfold membership_calls. rewrite apply_changes_empty_target, List.filter_app.
    change (calls (on_report ?f ?s)) with (calls s).
    fold (membership_calls (snd (get_or_create (Collection.config collection) st))).
    rewrite SyncExtras.get_or_create_membership_calls. by destruct (nonempty _).
  - unfold exists_on. by rewrite Hfind.
  - by apply get_items_empty.
  - destruct (fst (sync_collection self env collection add_missing_to_arr st))
      as [counts|]; [|done].
    rewrite (Hc counts eq_refl). do 2 f_equal.
    + replace (list_to_set [] ∖ _) with (∅ : gset string) by set_solver. done.
    + f_equal. set_solver.
Qed.

Lemma sync_empty_target_empties_collection_witness :
  let out := sync_collection (builder false) env_reversed unmatched true
               (state0 server) in
  let cur := current_of "Trending" server in
  let listed := list_of_set (set_order env_reversed) cur in
  listed ≡ₚ elements cur
  ∧ membership_calls (snd out)
    = [] ++ (if nonempty cur then [JfRemoveFromCollection "col-1" listed] else [])
  ∧ exists_on "Trending" (jellyfin (snd out)) = true
  ∧ get_collection_items "col-1" (jellyfin (snd out)) = []
  ∧ fst out = Ok (O, size cur).
Proof.
  apply (sync_empty_target_empties_collection (builder false) env_reversed unmatched true
           (state0 server)).
  - reflexivity.
  - reflexivity.
  - vm_compute. reflexivity.
Defined.

(** The two members the server held go in one request, and the run
    returns their number. *)
Example sync_empty_target_scenario :
  let out := sync_collection (builder false) env_reversed unmatched true
               (state0 server) in
  fst out = Ok (O, 2%nat)
  ∧ membership_calls (snd out) = [JfRemoveFromCollection "col-1" ["jf-2"; "jf-1"]]
  ∧ get_collection_items "col-1" (jellyfin (snd out)) = [].
Proof. vm_compute. by repeat split. Qed.

End EmptyTargetExtras.
